(** * cine-pulse: the resilient extraction pipeline, the upsert and the job driver

    A shallow embedding of the Go sources
      - package scheduler: ContentScraperJob.Run, preprocessModelResponse,
        reformatJSON, extractContentManually, truncateString,
        buildContentExtractionPrompt, NewContentScraperJob; Scheduler.AddJob,
        AddMorningEveningJob, Start, Stop and RunJobNow,
      - package storage: Content, SQLiteStorage.SaveContent, GetAllContent,
        GetContentByType, GetStats and the schema of table content,
      - package model: ModelConfig, the factories, ModelManager.CreateModel,
        GetModel, GetOrCreateModel, RegisterFactory, ListSupportedModels,
        CloseAll, detectModelType and GenerateWithBestModel,
      - package notifier: GetEmailConfigFromEnv, NewEmailNotifier and
        EmailNotifier.NotifyContentUpdate,
      - package main: getSourceURLs, displayDatabaseStats and the scheduler
        mode of main up to the start of the scheduler,
    followed by the properties of the specification that were checked on it
    and by more properties of the program.

    Go strings are byte sequences: [gostring] is [list ascii].  Go's [int] is
    modelled by [Z]; an index of [-1] is "not found", as in package strings.
    What the program gets from outside (the pages, the providers' answers,
    the environment, the clock and the faults of the database, the state of
    the context, the SMTP dialogue) is read from a [World] or a [MailWorld];
    what it calls in the Go library is modelled in full where that is short
    (strings, the regular expressions, strconv.Atoi) and kept abstract behind
    a type class where it is not (encoding/json, binary floating point,
    strings.ToLower, cron's parser, the order of ORDER BY among rows created
    at the same instant), with a reference instance to run the program on
    concrete inputs. *)

From Stdlib Require Import ZArith Lia Bool Ascii String Sorting.Sorted.
From stdpp Require Import base option list strings gmap.

Local Open Scope Z_scope.

(* ===================================================================== *)
(** ** Go strings *)
(* ===================================================================== *)

Definition gostring := list ascii.

(** A Go string literal. *)
Definition str (s : string) : gostring := list_ascii_of_string s.

(** The double quote character (0x22). *)
Definition dq : ascii := "034"%char.

(** A Go string literal in which every apostrophe stands for a double quote;
    only used to write JSON texts legibly. *)
Definition jstr (s : string) : gostring :=
  map (fun c => if Ascii.eqb c "'"%char then dq else c) (str s).

(** [len(s)] *)
Definition len (s : gostring) : Z := Z.of_nat (length s).

Definition gostring_eqb (a b : gostring) : bool := bool_decide (a = b).

Module Strings.

(** strings.HasPrefix *)
Fixpoint HasPrefix (s prefix : gostring) : bool :=
  match prefix, s with
  | [], _ => true
  | p :: ps, c :: cs => Ascii.eqb p c && HasPrefix cs ps
  | _ :: _, [] => false
  end.

(** strings.HasSuffix *)
Definition HasSuffix (s suffix : gostring) : bool :=
  HasPrefix (rev s) (rev suffix).

Fixpoint index_from (substr s : gostring) (i : Z) : Z :=
  if HasPrefix s substr then i
  else match s with
       | [] => -1
       | _ :: t => index_from substr t (i + 1)
       end.

(** strings.Index: the byte offset of the first instance of [substr] in
    [s], or -1. *)
Definition Index (s substr : gostring) : Z := index_from substr s 0.

Fixpoint last_index_from (substr s : gostring) (i last : Z) : Z :=
  let last' := if HasPrefix s substr then i else last in
  match s with
  | [] => last'
  | _ :: t => last_index_from substr t (i + 1) last'
  end.

(** strings.LastIndex: the byte offset of the last instance of [substr]
    in [s], or -1. *)
Definition LastIndex (s substr : gostring) : Z :=
  last_index_from substr s 0 (-1).

(** The scan of strings.ReplaceAll: [skip] counts the bytes of the
    instance of [old] that is being stepped over. *)
Fixpoint replace_go (old new : gostring) (skip : nat) (s : gostring)
  : gostring :=
  match s with
  | [] => []
  | c :: t =>
      match skip with
      | S k => replace_go old new k t
      | O =>
          if HasPrefix s old
          then new ++ replace_go old new (length old - 1) t
          else c :: replace_go old new 0 t
      end
  end.

(** strings.ReplaceAll with a non-empty [old] (every call of the program
    passes a non-empty literal): the non-overlapping instances of [old]
    are replaced from left to right. *)
Definition ReplaceAll (s old new : gostring) : gostring :=
  replace_go old new 0 s.

(** The scan of strings.Split: [cur] is the current piece, reversed. *)
Fixpoint split_go (sep : gostring) (skip : nat) (cur s : gostring)
  : list gostring :=
  match s with
  | [] => [rev cur]
  | c :: t =>
      match skip with
      | S k => split_go sep k cur t
      | O =>
          if HasPrefix s sep
          then rev cur :: split_go sep (length sep - 1) [] t
          else split_go sep 0 (c :: cur) t
      end
  end.

(** strings.Split with a non-empty separator. *)
Definition Split (s sep : gostring) : list gostring := split_go sep 0 [] s.

(** strings.Join *)
Fixpoint Join (elems : list gostring) (sep : gostring) : gostring :=
  match elems with
  | [] => []
  | [e] => e
  | e :: rest => e ++ sep ++ Join rest sep
  end.

(** The six ASCII white space bytes of package strings. *)
Definition asciiSpace (c : ascii) : bool :=
  let n := nat_of_ascii c in
  (n =? 9)%nat || (n =? 10)%nat || (n =? 11)%nat || (n =? 12)%nat
  || (n =? 13)%nat || (n =? 32)%nat.

Definition byte_is (c : ascii) (n : nat) : bool := (nat_of_ascii c =? n)%nat.

(** The UTF-8 encodings of the non-ASCII runes of unicode.IsSpace:
    U+0085 and U+00A0 take two bytes. *)
Definition space2 (a b : ascii) : bool :=
  byte_is a 194 && (byte_is b 133 || byte_is b 160).

(** U+1680, U+2000..U+200A, U+2028, U+2029, U+202F, U+205F and U+3000 take
    three bytes. *)
Definition space3 (a b c : ascii) : bool :=
  let n := nat_of_ascii c in
  (byte_is a 225 && byte_is b 154 && byte_is c 128)
  || (byte_is a 226 && byte_is b 128
      && (((128 <=? n)%nat && (n <=? 138)%nat)
          || (n =? 168)%nat || (n =? 169)%nat || (n =? 175)%nat))
  || (byte_is a 226 && byte_is b 129 && byte_is c 159)
  || (byte_is a 227 && byte_is b 128 && byte_is c 128).

(** Leading white space runes are dropped. *)
Fixpoint trim_left (s : gostring) : gostring :=
  match s with
  | [] => []
  | a :: t =>
      if asciiSpace a then trim_left t
      else match t with
           | [] => s
           | b :: u =>
               if space2 a b then trim_left u
               else match u with
                    | [] => s
                    | c :: v => if space3 a b c then trim_left v else s
                    end
           end
  end.

(** Trailing white space runes are dropped; the argument is the reversed
    string, so the encodings are read backwards. *)
Fixpoint trim_right_rev (s : gostring) : gostring :=
  match s with
  | [] => []
  | a :: t =>
      if asciiSpace a then trim_right_rev t
      else match t with
           | [] => s
           | b :: u =>
               if space2 b a then trim_right_rev u
               else match u with
                    | [] => s
                    | c :: v => if space3 c b a then trim_right_rev v else s
                    end
           end
  end.

(** strings.TrimSpace *)
Definition TrimSpace (s : gostring) : gostring :=
  rev (trim_right_rev (rev (trim_left s))).

End Strings.

(** The slice expression [s[lo:hi]]; [None] is the run-time panic of an
    out-of-range slice. *)
Definition slice (s : gostring) (lo hi : Z) : option gostring :=
  if (0 <=? lo) && (lo <=? hi) && (hi <=? len s)
  then Some (take (Z.to_nat (hi - lo)) (drop (Z.to_nat lo) s))
  else None.

(* ===================================================================== *)
(** ** The regular expressions of the program *)
(* ===================================================================== *)

(** Package regexp finds the leftmost match and, among the matches that start
    there, the one a backtracking search with greedy operators finds first.
    The patterns of the program only repeat single character classes, so the
    syntax below is enough to write each of them as it stands in the source.
    Every pattern starts with an ASCII byte and every class is an ASCII set or
    the complement of one, so matching bytes and matching runes agree. *)
Module Regexp.

Inductive re : Type :=
| Lit (l : gostring)            (* a literal string *)
| Cls (p : ascii -> bool)       (* one character of a class *)
| Star (p : ascii -> bool)      (* [p*], greedy *)
| Plus (p : ascii -> bool)      (* [p+], greedy *)
| Opt (r : re)                  (* [(?:r)?], greedy *)
| Grp (r : re)                  (* the capturing group [(r)] *)
| Seq (r1 r2 : re)
| Eot.                          (* [$]: the end of the text *)

Section Matcher.
Context {A : Type}.

(** [p*] then [k]: the longest run first, giving back one character at a
    time. *)
Fixpoint star_k (p : ascii -> bool) (s : gostring)
         (k : gostring -> option A) : option A :=
  match s with
  | c :: t =>
      if p c
      then match star_k p t k with
           | Some x => Some x
           | None => k s
           end
      else k s
  | [] => k []
  end.

(** [rmatch r s g k]: match [r] at the head of [s], then continue with
    [k] on the rest; [g] is the text of group 1 so far. *)
Fixpoint rmatch (r : re) (s : gostring) (g : option gostring)
         (k : gostring -> option gostring -> option A) : option A :=
  match r with
  | Lit l =>
      if Strings.HasPrefix s l then k (drop (length l) s) g else None
  | Cls p =>
      match s with
      | c :: t => if p c then k t g else None
      | [] => None
      end
  | Star p => star_k p s (fun rest => k rest g)
  | Plus p =>
      match s with
      | c :: t => if p c then star_k p t (fun rest => k rest g) else None
      | [] => None
      end
  | Opt r1 =>
      match rmatch r1 s g k with
      | Some x => Some x
      | None => k s g
      end
  | Grp r1 =>
      rmatch r1 s g
        (fun rest _ => k rest (Some (take (length s - length rest) s)))
  | Seq r1 r2 => rmatch r1 s g (fun rest g' => rmatch r2 rest g' k)
  | Eot => match s with [] => k [] g | _ :: _ => None end
  end.
End Matcher.

(** The match of [r] that starts at the head of [s]: the matched text and
    the text of group 1 (empty when the pattern has no group). *)
Definition match_here (r : re) (s : gostring) : option (gostring * gostring) :=
  rmatch r s None
    (fun rest g => Some (take (length s - length rest) s, default [] g)).

(** Regexp.FindStringSubmatch, for a pattern with one group: the
    leftmost match and its group 1; [None] is the nil slice. *)
Fixpoint FindStringSubmatch (r : re) (s : gostring)
  : option (gostring * gostring) :=
  match match_here r s with
  | Some m => Some m
  | None =>
      match s with
      | [] => None
      | _ :: t => FindStringSubmatch r t
      end
  end.

(** The scan of FindAllString; none of the patterns matches the empty
    string, so a match is never found at the end of the text. *)
Fixpoint find_all (r : re) (skip : nat) (s : gostring) : list gostring :=
  match s with
  | [] => []
  | _ :: t =>
      match skip with
      | S k => find_all r k t
      | O =>
          match match_here r s with
          | Some (m, _) => m :: find_all r (length m - 1) t
          | None => find_all r 0 t
          end
      end
  end.

(** Regexp.FindAllString(s, -1): the successive non-overlapping
    matches. *)
Definition FindAllString (r : re) (s : gostring) : list gostring :=
  find_all r 0 s.

(** A replacement template: literal text and [$1]. *)
Inductive titem : Type := T (l : gostring) | G1.

Definition expand (tm : list titem) (g : gostring) : gostring :=
  concat (map (fun i => match i with T l => l | G1 => g end) tm).

Fixpoint replace_all (r : re) (tm : list titem) (skip : nat) (s : gostring)
  : gostring :=
  match s with
  | [] => []
  | c :: t =>
      match skip with
      | S k => replace_all r tm k t
      | O =>
          match match_here r s with
          | Some (m, g) => expand tm g ++ replace_all r tm (length m - 1) t
          | None => c :: replace_all r tm 0 t
          end
      end
  end.

(** Regexp.ReplaceAllString *)
Definition ReplaceAllString (r : re) (s : gostring) (tm : list titem)
  : gostring :=
  replace_all r tm 0 s.

(** Character classes. *)
Definition one_of (x : string) (c : ascii) : bool :=
  existsb (Ascii.eqb c) (str x).
(** [\s] is [[\t\n\f\r ]]. *)
Definition space (c : ascii) : bool :=
  let n := nat_of_ascii c in
  (n =? 9)%nat || (n =? 10)%nat || (n =? 12)%nat || (n =? 13)%nat
  || (n =? 32)%nat.
(** [\d] *)
Definition digit (c : ascii) : bool :=
  let n := nat_of_ascii c in (48 <=? n)%nat && (n <=? 57)%nat.
Definition quote (c : ascii) : bool := Ascii.eqb c dq.
Definition non (p : ascii -> bool) (c : ascii) : bool := negb (p c).
(** [[\x00-\x1F\x7F]] *)
Definition control (c : ascii) : bool :=
  let n := nat_of_ascii c in (n <=? 31)%nat || (n =? 127)%nat.

End Regexp.

(* ===================================================================== *)
(** ** The Go library the program is linked against *)
(* ===================================================================== *)

(** Binary floating point is kept abstract: [float64] is any type. *)
Class Float64 := {
  float64 : Type;
}.

(** Package strconv.  [Atoi] is modelled in full further down;
    [ParseFloat s] is strconv.ParseFloat(s, 64), any function ([None] stands
    for [err != nil]). *)
Class Strconv `{Float64} := {
  ParseFloat : gostring -> option float64;
}.

(** storage.Content; a nil pointer field is [None]. *)
Record Content `{Float64} := mkContent {
  Title : gostring;
  Year : option Z;
  Category : gostring;
  ExtraInfo : gostring;
  Type_ : gostring;
  Rating : option float64;
  SourceURL : option gostring;
}.

(** Package encoding/json, as far as the program calls it.  The results are
    those of json.Unmarshal and json.Marshal on the three Go types the
    program decodes into; [None] stands for [err != nil]. *)
Class EncodingJSON `{Float64} := {
  (** json.Unmarshal(data, &v) with [v] a [[]interface{}]: the length of the
      decoded slice. *)
  Unmarshal_interfaces : gostring -> option Z;
  (** The decoded [map[string]interface{}] values. *)
  jsonmap : Type;
  (** json.Unmarshal(data, &obj) with [obj] a [map[string]interface{}]. *)
  Unmarshal_map : gostring -> option jsonmap;
  (** json.Marshal(obj) of such a map (it cannot fail on a decoded map). *)
  Marshal_map : jsonmap -> gostring;
  (** json.Unmarshal(data, &contents) with [contents] an empty
      [[]storage.Content]. *)
  Unmarshal_contents : gostring -> option (list Content);
}.

(** The maximal [int] (64 bits). *)
Definition MaxInt : Z := 2 ^ 63 - 1.

Fixpoint digits_value (acc : Z) (s : gostring) : option Z :=
  match s with
  | [] => Some acc
  | c :: t =>
      if Regexp.digit c
      then digits_value (10 * acc + (Z.of_nat (nat_of_ascii c) - 48)) t
      else None
  end.

(** strconv.Atoi: an optional sign and decimal digits; [None] stands for a
    syntax or range error. *)
Definition Atoi (s : gostring) : option Z :=
  let '(sign, ds) :=
    match s with
    | c :: t =>
        if Ascii.eqb c "-"%char then (-1, t)
        else if Ascii.eqb c "+"%char then (1, t)
        else (1, s)
    | [] => (1, s)
    end in
  match ds with
  | [] => None
  | _ :: _ =>
      v ← digits_value 0 ds;
      let n := sign * v in
      if (- MaxInt - 1 <=? n) && (n <=? MaxInt) then Some n else None
  end.

(* ===================================================================== *)
(** ** Logging and panics *)
(* ===================================================================== *)

(** An argument of a log line. *)
Inductive Arg : Type :=
| AInt (n : Z)
| AStr (s : gostring).

(** What a run lets the outside see, apart from the stored rows: the lines
    handed to package log (format and arguments) and the calls of the mail
    notifier. *)
Inductive Event `{Float64} : Type :=
| Printf (format : string) (args : list Arg)
| Println (line : string) (args : list Arg)
| NotifyContentUpdate (contents : list Content) (sourceURLs : list gostring).

(** A computation that logs and may panic ([None]). *)
Definition W `{Float64} (A : Type) : Type := option (A * list Event).

Definition wret `{Float64} {A} (a : A) : W A := Some (a, []).

Definition wbind `{Float64} {A B} (m : W A) (f : A -> W B) : W B :=
  match m with
  | None => None
  | Some (a, l1) =>
      match f a with
      | None => None
      | Some (b, l2) => Some (b, l1 ++ l2)
      end
  end.

Definition wlog `{Float64} (e : Event) : W unit := Some (tt, [e]).

(** A value that may panic, without logging. *)
Definition wlift `{Float64} {A} (o : option A) : W A :=
  match o with
  | Some a => Some (a, [])
  | None => None
  end.

Notation "x <-- m ;; k" := (wbind m (fun x => k))
  (at level 100, m at next level, right associativity).
Notation "m ;;; k" := (wbind m (fun _ => k))
  (at level 100, right associativity).

(** truncateString *)
Definition truncateString (s : gostring) (maxLen : Z) : option gostring :=
  if len s <=? maxLen then Some s
  else t ← slice s 0 maxLen; Some (t ++ str "...").

(* ===================================================================== *)
(** ** Tier A: extractContentManually *)
(* ===================================================================== *)

Import Regexp.

Notation "r1 +++ r2" := (Seq r1 r2) (at level 60, right associativity).

(** The patterns, as compiled by regexp.MustCompile in the source; an
    apostrophe in [jstr] stands for a double quote.
    - title: 'title':\s*'([^']+)'               - year: 'year':\s*(\d+)
    - category: 'category':\s*'([^']+)'         - type: 'type':\s*'([^']+)'
    - extra_info: 'extra_info':\s*'([^']+)'     - rating: 'rating':\s*(\d+(?:\.\d+)?)
    - object blocks: \{[^{}]*\} *)
Definition quoted_field (label : string) : re :=
  Lit (jstr label) +++ Star space +++ Lit [dq] +++ Grp (Plus (non quote))
  +++ Lit [dq].

Definition titlePattern : re := quoted_field "'title':".
Definition yearPattern : re :=
  Lit (jstr "'year':") +++ Star space +++ Grp (Plus digit).
Definition categoryPattern : re := quoted_field "'category':".
Definition extraInfoPattern : re := quoted_field "'extra_info':".
Definition typePattern : re := quoted_field "'type':".
Definition ratingPattern : re :=
  Lit (jstr "'rating':") +++ Star space
  +++ Grp (Plus digit +++ Opt (Lit (str ".") +++ Plus digit)).
Definition objectPattern : re :=
  Lit (str "{") +++ Star (non (one_of "{}")) +++ Lit (str "}").

Section TierA.
Context `{Float64} `{!Strconv}.

(** The body of the loop over the object blocks: [None] is [continue],
    [Some c] is the record appended to [results].  A match of
    FindStringSubmatch has two elements here (the match and group 1), so
    [len(matches) > 1] holds exactly when the pattern matched. *)
Definition extractObject (obj : gostring) : option Content :=
  match FindStringSubmatch titlePattern obj with
  | None => None                                     (* skip if no title *)
  | Some (_, title) =>
      let year :=
        match FindStringSubmatch yearPattern obj with
        | Some (_, y) => Atoi y
        | None => None
        end in
      match FindStringSubmatch categoryPattern obj with
      | None => None
      | Some (_, category) =>
          if gostring_eqb category (str "Korean")
          then None                                  (* skip Korean content *)
          else
            let extraInfo :=
              match FindStringSubmatch extraInfoPattern obj with
              | Some (_, e) => e
              | None => []                           (* empty if not found *)
              end in
            match FindStringSubmatch typePattern obj with
            | None => None
            | Some (_, type) =>
                if negb (gostring_eqb type (str "movie"))
                   && negb (gostring_eqb type (str "series"))
                then None
                else
                  let rating :=
                    match FindStringSubmatch ratingPattern obj with
                    | Some (_, r) => ParseFloat r
                    | None => None
                    end in
                  Some {| Title := title; Year := year;
                          Category := category; ExtraInfo := extraInfo;
                          Type_ := type; Rating := rating;
                          SourceURL := None |}
            end
      end
  end.

(** extractContentManually *)
Definition extractContentManually (response : gostring) : W (list Content) :=
  let objects := FindAllString objectPattern response in
  wlog (Printf "Found %d potential content objects in response"
          [AInt (Z.of_nat (length objects))]) ;;;
  let results := omap extractObject objects in
  wlog (Printf "Manually extracted %d valid content items"
          [AInt (Z.of_nat (length results))]) ;;;
  wret results.

End TierA.

(* ===================================================================== *)
(** ** Tier B and Tier C: preprocessModelResponse and reformatJSON *)
(* ===================================================================== *)

(** The patterns of preprocessModelResponse, in the order of their use:
    a quoted name followed by a space and a colon; a colon, spaces and a bare
    value (a first character that is no double quote, brace, bracket, comma
    or digit, then characters that are no brace, bracket, comma or white
    space) followed by a comma; the same followed by the end of the text; a
    control character (0x00 to 0x1F, 0x7F); a comma, white space and a
    closing brace; a comma, white space and a closing bracket. *)
Definition spaceColonPattern : re :=
  Lit [dq] +++ Grp (Plus (non quote)) +++ Lit (jstr "' :").

Definition bare_first (c : ascii) : bool :=
  negb (quote c || one_of "{}[]," c || digit c).
Definition bare_next (c : ascii) : bool :=
  negb (one_of "{}[]," c || space c).

Definition bareCommaPattern : re :=
  Lit (str ":") +++ Star (one_of " ")
  +++ Grp (Cls bare_first +++ Star bare_next) +++ Lit (str ",").
Definition bareEndPattern : re :=
  Lit (str ":") +++ Star (one_of " ")
  +++ Grp (Cls bare_first +++ Star bare_next) +++ Eot.
Definition controlPattern : re := Cls control.
Definition commaBracePattern : re :=
  Lit (str ",") +++ Star space +++ Lit (str "}").
Definition commaBracketPattern : re :=
  Lit (str ",") +++ Star space +++ Lit (str "]").

(** The horizontal ellipsis U+2026 in UTF-8. *)
Definition ellipsis : gostring :=
  [ascii_of_nat 226; ascii_of_nat 128; ascii_of_nat 166].

Section TierBC.
Context `{Float64} `{!Strconv} `{!EncodingJSON}.

(** A part of the split, trimmed and made to start and end with a brace. *)
Definition as_object (part : gostring) : gostring :=
  let trimmed := Strings.TrimSpace part in
  let trimmed :=
    if negb (Strings.HasPrefix trimmed (str "{"))
    then str "{" ++ trimmed else trimmed in
  let trimmed :=
    if negb (Strings.HasSuffix trimmed (str "}"))
    then trimmed ++ str "}" else trimmed in
  trimmed.

(** The loop of reformatJSON over the parts. *)
Fixpoint reformat_parts (parts : list gostring) : W (list gostring) :=
  match parts with
  | [] => wret []
  | part :: rest =>
      let trimmed := as_object part in
      match Unmarshal_map trimmed with
      | Some obj =>
          validObjects <-- reformat_parts rest ;;
          wret (Marshal_map obj :: validObjects)
      | None =>
          wlog (Printf "Skipping invalid object: %s" [AStr trimmed]) ;;;
          reformat_parts rest
      end
  end.

(** The closing braces put back after the split: the last part gets one
    unless it has one, every other part gets one. *)
Definition close_parts (parts : list gostring) : list gostring :=
  if (1 <? Z.of_nat (length parts))
  then
    imap (fun i part =>
            if (i =? length parts - 1)%nat
            then if negb (Strings.HasSuffix part (str "}"))
                 then part ++ str "}" else part
            else part ++ str "}") parts
  else parts.

(** The parts reformatJSON works on, for an input in brackets: the text
    between the brackets, trimmed, split at every closing brace followed by
    a comma, the braces put back. *)
Definition parts_of (inner : gostring) : list gostring :=
  let content := Strings.TrimSpace inner in
  let parts := Strings.Split content (str "},") in
  close_parts parts.

(** reformatJSON *)
Definition reformatJSON (input : gostring) : W gostring :=
  if negb (Strings.HasPrefix input (str "["))
     || negb (Strings.HasSuffix input (str "]"))
  then
    wlog (Println "Input is not a proper JSON array, returning empty array" []) ;;;
    wret (str "[]")
  else
    inner <-- wlift (slice input 1 (len input - 1)) ;;
    validObjects <-- reformat_parts (parts_of inner) ;;
    if (0 <? Z.of_nat (length validObjects))
    then wret (str "[" ++ Strings.Join validObjects (str ",") ++ str "]")
    else wret (str "[]").

(** The textual repairs of preprocessModelResponse, in the order of the
    source. *)
Definition repair (jsonPart : gostring) : gostring :=
  let jsonPart := Strings.ReplaceAll jsonPart (str "`") [] in
  let jsonPart :=
    ReplaceAllString spaceColonPattern jsonPart [T [dq]; G1; T (jstr "':")] in
  let jsonPart :=
    ReplaceAllString bareCommaPattern jsonPart [T (jstr ":'"); G1; T (jstr "',")] in
  let jsonPart :=
    ReplaceAllString bareEndPattern jsonPart [T (jstr ":'"); G1; T [dq]] in
  let jsonPart := Strings.ReplaceAll jsonPart (jstr "\'") [dq] in
  let jsonPart := ReplaceAllString controlPattern jsonPart [] in
  let jsonPart := ReplaceAllString commaBracePattern jsonPart [T (str "}")] in
  let jsonPart := ReplaceAllString commaBracketPattern jsonPart [T (str "]")] in
  jsonPart.

(** The fixes tried after a first parse failure. *)
Definition fix_quotes (jsonPart : gostring) : gostring :=
  let jsonPart := Strings.ReplaceAll jsonPart [dq; dq] [dq] in
  let jsonPart := Strings.ReplaceAll jsonPart (str "''") (str "'") in
  let jsonPart := Strings.ReplaceAll jsonPart ellipsis (str "...") in
  jsonPart.

(** preprocessModelResponse *)
Definition preprocessModelResponse (response : gostring) : W gostring :=
  t <-- wlift (truncateString response 200) ;;
  wlog (Printf "Raw model response (first 200 chars): %s" [AStr t]) ;;;
  let response := Strings.ReplaceAll response (str "```json") [] in
  let response := Strings.ReplaceAll response (str "```") [] in
  let startIdx := Strings.Index response (str "[") in
  if startIdx =? -1 then
    wlog (Println "No JSON array found in response" []) ;;;
    let objectStart := Strings.Index response (str "{") in
    let no_json :=
      wlog (Println "Full response: " [AStr response]) ;;;
      wret (str "[]") in
    if negb (objectStart =? -1) then
      wlog (Println "Found JSON object instead of array, wrapping in array" []) ;;;
      let objectEnd := Strings.LastIndex response (str "}") in
      if negb (objectEnd =? -1) && (objectStart <? objectEnd) then
        jsonObj <-- wlift (slice response objectStart (objectEnd + 1)) ;;
        wret (str "[" ++ jsonObj ++ str "]")
      else no_json
    else no_json
  else
    let endIdx := Strings.LastIndex response (str "]") in
    if (endIdx =? -1) || (endIdx <=? startIdx) then
      wlog (Println "Invalid JSON array format in response" []) ;;;
      wlog (Println "Full response: " [AStr response]) ;;;
      wret (str "[]")
    else
      jsonPart <-- wlift (slice response startIdx (endIdx + 1)) ;;
      t <-- wlift (truncateString jsonPart 200) ;;
      wlog (Printf "Extracted JSON (first 200 chars): %s" [AStr t]) ;;;
      let jsonPart := repair jsonPart in
      let success (n : Z) (jsonPart : gostring) :=
        wlog (Printf "Successfully extracted valid JSON array with %d items"
                [AInt n]) ;;;
        wret jsonPart in
      match Unmarshal_interfaces jsonPart with
      | Some n => success n jsonPart
      | None =>
          wlog (Printf "Extracted JSON is not valid: %v" []) ;;;
          let jsonPart := fix_quotes jsonPart in
          match Unmarshal_interfaces jsonPart with
          | Some n => success n jsonPart
          | None =>
              wlog (Printf "JSON is still invalid after fixes: %v" []) ;;;
              wlog (Println "Full JSON extract: " [AStr jsonPart]) ;;;
              reformatJSON jsonPart
          end
      end.

End TierBC.

(* ===================================================================== *)
(** ** storage: SQLiteStorage.SaveContent *)
(* ===================================================================== *)

(** The result of a call that returns [(T, error)]. *)
Inductive result (A : Type) : Type :=
| Ok (a : A)
| Err (e : gostring).
Arguments Ok {A} a.
Arguments Err {A} e.

(** A row of table [content] (the columns SaveContent reads or writes; the
    AUTOINCREMENT [id] is left out).  Timestamps are instants in [Z]. *)
Record Row `{Float64} := mkRow {
  title : gostring;
  year : option Z;
  category : gostring;
  extra_info : gostring;
  type : gostring;
  rating : option float64;
  source_url : option gostring;
  scraped_at : Z;
  created_at : Z;
  updated_at : Z;
}.

(** What the database driver does to a call of SaveContent: nothing, or an
    error of the EXISTS query, or an error of the UPDATE or INSERT
    statement. *)
Inductive DbFault : Type :=
| NoFault
| QueryFault (e : gostring)
| ExecFault (e : gostring).

Section Storage.
Context `{Float64} `{!Strconv}.

(** WHERE title = ? AND type = ? *)
Definition same_key (content : Content) (r : Row) : bool :=
  gostring_eqb (title r) (Title content)
  && gostring_eqb (type r) (Type_ content).

(** UPDATE content SET year, category, extra_info, rating, source_url,
    updated_at = CURRENT_TIMESTAMP *)
Definition update_row (now : Z) (content : Content) (r : Row) : Row :=
  {| title := title r;
     year := Year content;
     category := Category content;
     extra_info := ExtraInfo content;
     type := type r;
     rating := Rating content;
     source_url := SourceURL content;
     scraped_at := scraped_at r;
     created_at := created_at r;
     updated_at := now |}.

(** INSERT INTO content (...) VALUES (..., CURRENT_TIMESTAMP,
    CURRENT_TIMESTAMP, CURRENT_TIMESTAMP) *)
Definition insert_row (now : Z) (content : Content) : Row :=
  {| title := Title content;
     year := Year content;
     category := Category content;
     extra_info := ExtraInfo content;
     type := Type_ content;
     rating := Rating content;
     source_url := SourceURL content;
     scraped_at := now;
     created_at := now;
     updated_at := now |}.

(** SaveContent at instant [now]: the table after the call and the error
    returned ([None] is nil).  A failed statement leaves the table as it
    was. *)
Definition SaveContent (now : Z) (fault : DbFault) (content : Content)
           (table : list Row) : list Row * option gostring :=
  match fault with
  | QueryFault e =>
      (table, Some (str "failed to check if content exists: " ++ e))
  | _ =>
      let exists_ := existsb (same_key content) table in
      if exists_ then
        match fault with
        | ExecFault e => (table, Some (str "failed to update content: " ++ e))
        | _ =>
            (map (fun r => if same_key content r
                           then update_row now content r else r) table,
             None)
        end
      else
        match fault with
        | ExecFault e => (table, Some (str "failed to insert content: " ++ e))
        | _ => (table ++ [insert_row now content], None)
        end
  end.

End Storage.

(* ===================================================================== *)
(** ** model: ModelManager *)
(* ===================================================================== *)

(** Package unicode, kept abstract: strings.ToLower. *)
Class Unicode := {
  ToLower : gostring -> gostring;
}.

Record ModelConfig := mkModelConfig {
  APIKey : gostring;
  BaseURL : gostring;
  ModelName : gostring;
  Timeout : Z;
  MaxRetries : Z;
}.

(** The implementations of ModelInterface. *)
Inductive Model : Type :=
| OpenAIModel (apiKey baseURL modelName : gostring) (timeout : Z)
| GeminiModel (apiKey modelName : gostring) (timeout : Z).

(** The implementations of ModelFactory. *)
Inductive ModelFactory : Type :=
| OpenAIFactory
| GeminiFactory.

Definition ModelTypeOpenAI : gostring := str "openai".
Definition ModelTypeGemini : gostring := str "gemini".

Definition or_default {A} (is_zero : A -> bool) (x d : A) : A :=
  if is_zero x then d else x.

(** NewOpenAIModel *)
Definition NewOpenAIModel (config : ModelConfig) : result Model :=
  if gostring_eqb (APIKey config) []
  then Err (str "API key is required for OpenAI model")
  else Ok (OpenAIModel (APIKey config)
             (or_default (fun s => gostring_eqb s []) (BaseURL config)
                (str "https://api.openai.com/v1"))
             (or_default (fun s => gostring_eqb s []) (ModelName config)
                (str "gpt-3.5-turbo"))
             (or_default (Z.eqb 0) (Timeout config) 30)).

(** NewGeminiModel *)
Definition NewGeminiModel (config : ModelConfig) : result Model :=
  if gostring_eqb (APIKey config) []
  then Err (str "API key is required for Gemini model")
  else Ok (GeminiModel (APIKey config)
             (or_default (fun s => gostring_eqb s []) (ModelName config)
                (str "gemini-1.5-flash"))
             (or_default (Z.eqb 0) (Timeout config) 30)).

(** ModelFactory.CreateModel *)
Definition factory_CreateModel (f : ModelFactory) (config : ModelConfig)
  : result Model :=
  match f with
  | OpenAIFactory => NewOpenAIModel config
  | GeminiFactory => NewGeminiModel config
  end.

(** ModelInterface.GetModelName *)
Definition GetModelName (m : Model) : gostring :=
  match m with
  | OpenAIModel _ _ modelName _ => str "openai:" ++ modelName
  | GeminiModel _ modelName _ => str "gemini:" ++ modelName
  end.

Record ModelManager := mkModelManager {
  factories : gmap gostring ModelFactory;
  models : gmap gostring Model;
}.

(** NewModelManager *)
Definition NewModelManager : ModelManager :=
  {| factories := <[ModelTypeGemini := GeminiFactory]>
                    (<[ModelTypeOpenAI := OpenAIFactory]> ∅);
     models := ∅ |}.

(** ModelManager.CreateModel *)
Definition CreateModel (m : ModelManager) (modelType : gostring)
           (config : ModelConfig) : ModelManager * result Model :=
  match factories m !! modelType with
  | None => (m, Err (str "unsupported model type: " ++ modelType))
  | Some factory =>
      match factory_CreateModel factory config with
      | Err e => (m, Err (str "failed to create model: " ++ e))
      | Ok model =>
          let key := modelType ++ str ":" ++ ModelName config in
          ({| factories := factories m; models := <[key := model]> (models m) |},
           Ok model)
      end
  end.

(** ModelManager.GetModel *)
Definition GetModel (m : ModelManager) (modelType modelName : gostring)
  : option Model :=
  models m !! (modelType ++ str ":" ++ modelName).

(** ModelManager.GetOrCreateModel *)
Definition GetOrCreateModel (m : ModelManager) (modelType : gostring)
           (config : ModelConfig) : ModelManager * result Model :=
  match GetModel m modelType (ModelName config) with
  | Some model => (m, Ok model)
  | None => CreateModel m modelType config
  end.

(** strings.Contains *)
Definition Contains (s substr : gostring) : bool :=
  0 <=? Strings.Index s substr.

Section Manager.
Context `{Unicode}.

(** ModelManager.detectModelType; the empty string is "no type". *)
Definition detectModelType (modelName : gostring) : gostring :=
  let modelName := ToLower modelName in
  if Contains modelName (str "gpt") || Contains modelName (str "openai")
  then ModelTypeOpenAI
  else if Contains modelName (str "gemini") then ModelTypeGemini
  else [].

(** The loop of GenerateWithBestModel over the configurations.
    [generate k model prompt] is what the provider answers to the call
    [model.GenerateTextWithOptions(ctx, prompt, options)] made for the
    [k]-th configuration. *)
Fixpoint best_model_loop (generate : nat -> Model -> gostring -> result gostring)
         (prompt : gostring) (k : nat) (configs : list ModelConfig)
         (m : ModelManager) (lastErr : option gostring)
  : ModelManager * result (gostring * gostring) :=
  match configs with
  | [] =>
      match lastErr with
      | Some e => (m, Err (str "all models failed, last error: " ++ e))
      | None => (m, Err (str "no valid model configurations provided"))
      end
  | config :: rest =>
      let modelType := detectModelType (ModelName config) in
      if gostring_eqb modelType []
      then best_model_loop generate prompt (S k) rest m lastErr
      else
        match GetOrCreateModel m modelType config with
        | (m, Err e) =>
            best_model_loop generate prompt (S k) rest m (Some e)
        | (m, Ok model) =>
            match generate k model prompt with
            | Err e =>
                best_model_loop generate prompt (S k) rest m (Some e)
            | Ok text => (m, Ok (text, GetModelName model))
            end
        end
  end.

(** ModelManager.GenerateWithBestModel: the text and the name of the model
    that produced it, or an error. *)
Definition GenerateWithBestModel
           (generate : nat -> Model -> gostring -> result gostring)
           (m : ModelManager) (prompt : gostring) (configs : list ModelConfig)
  : ModelManager * result (gostring * gostring) :=
  best_model_loop generate prompt 0%nat configs m None.

End Manager.

(* ===================================================================== *)
(** ** scheduler: ContentScraperJob.Run *)
(* ===================================================================== *)

(** buildContentExtractionPrompt (apostrophe for double quote). *)
Definition buildContentExtractionPrompt : gostring :=
  jstr "You are a specialized JSON extraction tool. Extract movies and series from the provided text into a clean JSON array.

Each entry must follow this exact schema:
{
  'title': string,
  'year': number (for movies only, if available),
  'category': string ('Hollywood', 'Foreign', 'Anime', 'TV Series'),
  'extra_info': string (e.g., 'Download Hollywood Movie', 'Episode 15–18 Added', 'Complete'),
  'type': string ('movie' or 'series'),
  'rating': number (optional, if available, on a scale of 1-10)
}

Critical rules:
1. Output ONLY the raw JSON array with no explanations, no markdown code blocks, and no backticks
2. Do not include Korean content
3. For movies, extract year as an integer if available
4. For series, ignore the year unless explicitly mentioned
5. Preserve episode/season information in extra_info
6. Ensure the output is valid parseable JSON with no additional text

Examples of correct format:
[{'title':'Movie 1','year':2023,'category':'Hollywood','extra_info':'Action','type':'movie'},{'title':'Series 1','category':'TV Series','extra_info':'Season 2','type':'series'}]

YOUR ENTIRE RESPONSE MUST BE A VALID JSON ARRAY ONLY. DO NOT INCLUDE ANY OTHER TEXT.
".

(** What the outside answers during one run.  The index [i] is the position
    of the source in the list, [k] the position of the record among the
    records of that source. *)
Record World `{Float64} := mkWorld {
  (** the per-source checkpoint: [Some e] when [ctx.Done()] is closed, with
      [e] the text of [ctx.Err()] *)
  ctx_Err : nat -> option gostring;
  (** scraper.Scrape(url) *)
  Scrape : nat -> gostring -> result gostring;
  (** os.Getenv(name) *)
  Getenv : nat -> string -> gostring;
  (** model.GenerateText(ctx, prompt) *)
  GenerateText : nat -> Model -> gostring -> result gostring;
  (** CURRENT_TIMESTAMP and the driver's fault at a call of SaveContent *)
  db_now : nat -> nat -> Z;
  db_fault : nat -> nat -> DbFault;
  (** the error returned by emailNotifier.NotifyContentUpdate *)
  notify_err : option gostring;
}.

(** The fields of ContentScraperJob that are plain data; [emailNotifier] is
    [true] when the pointer is not nil. *)
Record ContentScraperJob := mkJob {
  sourceURLs : list gostring;
  emailNotifier : bool;
  sendEmails : bool;
}.

(** What the job's pointers reach: the table behind [storage], the model
    manager, and the lines logged and mails sent so far. *)
Record Sys `{Float64} := mkSys {
  table : list Row;
  modelMgr : ModelManager;
  trace : list Event;
}.

Section Run.
Context `{Float64} `{!Strconv} `{!EncodingJSON}.
Variable w : World.

(** Lines 115 to 129 of Run: what becomes of a Gemini response. *)
Definition geminiContents (response : gostring) : W (list Content) :=
  contents <-- extractContentManually response ;;
  if (Z.of_nat (length contents) =? 0) then
    processedResponse <-- preprocessModelResponse response ;;
    match Unmarshal_contents processedResponse with
    | Some contents => wret contents
    | None =>
        wlog (Printf "Error parsing Gemini JSON response: %v" []) ;;;
        t <-- wlift (truncateString response 100) ;;
        wlog (Printf "Raw response (first 100 chars): %s" [AStr t]) ;;;
        t <-- wlift (truncateString processedResponse 100) ;;
        wlog (Printf "Processed response (first 100 chars): %s" [AStr t]) ;;;
        wret []
    end
  else wret contents.

(** Lines 149 to 158 of Run: what becomes of an OpenAI response. *)
Definition openaiContents (response : gostring) : W (list Content) :=
  processedResponse <-- preprocessModelResponse response ;;
  match Unmarshal_contents processedResponse with
  | Some contents => wret contents
  | None =>
      wlog (Printf "Error parsing OpenAI JSON response: %v" []) ;;;
      wlog (Printf "Raw response: %s" [AStr response]) ;;;
      wlog (Printf "Processed response: %s" [AStr processedResponse]) ;;;
      wret []
  end.

(** Lines 97 to 132 of Run: the Gemini attempt for source [i]. *)
Definition tryGemini (i : nat) (mgr : ModelManager) (input : gostring)
  : W (ModelManager * list Content) :=
  let geminiConfig :=
    {| APIKey := Getenv w i "GEMINI_API_KEY"; BaseURL := [];
       ModelName := str "gemini-1.5-flash"; Timeout := 0; MaxRetries := 0 |} in
  if negb (gostring_eqb (APIKey geminiConfig) []) then
    match CreateModel mgr ModelTypeGemini geminiConfig with
    | (mgr, Err e) =>
        wlog (Printf "Failed to create Gemini model: %v" [AStr e]) ;;;
        wret (mgr, [])
    | (mgr, Ok geminiModel) =>
        match GenerateText w i geminiModel input with
        | Err e =>
            wlog (Printf "Error generating text with Gemini: %v" [AStr e]) ;;;
            wret (mgr, [])
        | Ok response =>
            contents <-- geminiContents response ;;
            wret (mgr, contents)
        end
    end
  else wret (mgr, []).

(** Lines 134 to 161 of Run: the OpenAI attempt, made when [contents] is
    empty. *)
Definition tryOpenAI (i : nat) (mgr : ModelManager) (input : gostring)
           (contents : list Content) : W (ModelManager * list Content) :=
  if (Z.of_nat (length contents) =? 0)
     && negb (gostring_eqb (Getenv w i "OPENAI_API_KEY") []) then
    let openaiConfig :=
      {| APIKey := Getenv w i "OPENAI_API_KEY"; BaseURL := [];
         ModelName := str "gpt-4o"; Timeout := 0; MaxRetries := 0 |} in
    match CreateModel mgr ModelTypeOpenAI openaiConfig with
    | (mgr, Err e) =>
        wlog (Printf "Failed to create OpenAI model: %v" [AStr e]) ;;;
        wret (mgr, contents)
    | (mgr, Ok openaiModel) =>
        match GenerateText w i openaiModel input with
        | Err e =>
            wlog (Printf "Error generating text with OpenAI: %v" [AStr e]) ;;;
            wret (mgr, contents)
        | Ok response =>
            contents <-- openaiContents response ;;
            wret (mgr, contents)
        end
    end
  else wret (mgr, contents).

(** Lines 94 to 161 of Run: the providers in their order. *)
Definition extractWithProviders (i : nat) (mgr : ModelManager)
           (scrapedText : gostring) : W (ModelManager * list Content) :=
  let prompt := buildContentExtractionPrompt in
  r <-- tryGemini i mgr (prompt ++ scrapedText) ;;
  tryOpenAI i r.1 (prompt ++ scrapedText) r.2.

(** Lines 176 to 184 of Run: the loop that saves the records of source
    [i], from the [k]-th on.  It returns the table, the records saved and
    the lines logged. *)
Fixpoint save_loop (i k : nat) (contents : list Content) (tbl : list Row)
  : list Row * list Content * list Event :=
  match contents with
  | [] => (tbl, [], [])
  | content :: rest =>
      match SaveContent (db_now w i k) (db_fault w i k) content tbl with
      | (tbl, Some e) =>
          let '(tbl, saved, evs) := save_loop i (S k) rest tbl in
          (tbl, saved,
           Printf "Error saving content %s: %v" [AStr (Title content); AStr e]
             :: evs)
      | (tbl, None) =>
          let '(tbl, saved, evs) := save_loop i (S k) rest tbl in
          (tbl, content :: saved, evs)
      end
  end.

(** The locals of Run that live across the loop over the sources. *)
Record Locals := mkLocals {
  totalContentScraped : Z;
  allScrapedContent : list Content;
}.

Definition with_source (url : gostring) (c : Content) : Content :=
  {| Title := Title c; Year := Year c; Category := Category c;
     ExtraInfo := ExtraInfo c; Type_ := Type_ c; Rating := Rating c;
     SourceURL := Some url |}.

Definition logged (evs : list Event) (s : Sys) : Sys :=
  {| table := table s; modelMgr := modelMgr s; trace := trace s ++ evs |}.

(** Lines 87 to 190 of Run: the body of the loop after the checkpoint, for
    source [i]; [None] is a panic. *)
Definition process_source (i : nat) (url : gostring) (s : Sys) (l : Locals)
  : option (Sys * Locals) :=
  match Scrape w i url with
  | Err e =>
      Some (logged [Printf "Error scraping %s: %v" [AStr url; AStr e]] s, l)
  | Ok scrapedText =>
      '(mgr, contents, evs) ← extractWithProviders i (modelMgr s) scrapedText;
      if (0 <? Z.of_nat (length contents)) then
        let contents := map (with_source url) contents in
        let '(tbl, scrapedContentForSource, evs') :=
          save_loop i 0 contents (table s) in
        Some ({| table := tbl; modelMgr := mgr;
                 trace := trace s ++ evs
                   ++ [Printf "Extracted %d content items from %s"
                         [AInt (Z.of_nat (length contents)); AStr url]]
                   ++ evs' |},
              {| totalContentScraped :=
                   totalContentScraped l
                   + Z.of_nat (length scrapedContentForSource);
                 allScrapedContent :=
                   allScrapedContent l ++ scrapedContentForSource |})
      else
        Some ({| table := table s; modelMgr := mgr;
                 trace := trace s ++ evs
                   ++ [Printf "No content extracted from %s" [AStr url]] |},
              l)
  end.

(** Lines 193 to 207 of Run: the summary and the notification; Run then
    returns nil. *)
Definition finish_run (j : ContentScraperJob) (s : Sys) (l : Locals) : Sys :=
  let s :=
    logged [Printf "Content scraper job complete. Scraped %d content items from %d sources"
              [AInt (totalContentScraped l);
               AInt (Z.of_nat (length (sourceURLs j)))]] s in
  if sendEmails j && emailNotifier j
     && (0 <? Z.of_nat (length (allScrapedContent l))) then
    logged
      ([Printf "Sending email notification with %d content items"
          [AInt (Z.of_nat (length (allScrapedContent l)))];
        NotifyContentUpdate (allScrapedContent l) (sourceURLs j)]
       ++ match notify_err w with
          | Some e => [Printf "Failed to send email notification: %v" [AStr e]]
          | None => []
          end) s
  else if (0 <? Z.of_nat (length (allScrapedContent l))) then
    logged [Println "Email notifications disabled or no content scraped" []] s
  else s.

(** The loop of Run over the sources, from the [i]-th on.  The result is
    the state reached and the error returned by Run ([None] is nil). *)
Fixpoint run_loop (j : ContentScraperJob) (i : nat) (urls : list gostring)
         (s : Sys) (l : Locals) : option (Sys * option gostring) :=
  match urls with
  | [] => Some (finish_run j s l, None)
  | url :: rest =>
      let s := logged [Printf "Scraping content from %s" [AStr url]] s in
      match ctx_Err w i with
      | Some e => Some (s, Some e)                      (* return ctx.Err() *)
      | None =>
          '(s, l) ← process_source i url s l;
          run_loop j (S i) rest s l
      end
  end.

(** ContentScraperJob.Run *)
Definition Run (j : ContentScraperJob) (s : Sys)
  : option (Sys * option gostring) :=
  let s :=
    logged [Printf "Running content scraper job with %d sources"
              [AInt (Z.of_nat (length (sourceURLs j)))]] s in
  let j :=
    if (Z.of_nat (length (sourceURLs j)) =? 0)
    then {| sourceURLs := [str "https://nkiri.com/"];
            emailNotifier := emailNotifier j; sendEmails := sendEmails j |}
    else j in
  run_loop j 0 (sourceURLs j) s {| totalContentScraped := 0;
                                   allScrapedContent := [] |}.

End Run.

(* ===================================================================== *)
(** ** scheduler: Scheduler *)
(* ===================================================================== *)

(** The interface Job, as far as the scheduler uses it while jobs are added:
    [Name] is a getter.  ([Run] is only called by the function handed to
    cron, when the schedule fires.) *)
Class Job (J : Type) := {
  Name : J -> gostring;
}.

(** Package cron, kept abstract: whether the parser of the scheduler's cron
    (six fields, seconds first) accepts a specification; [Some e] is its
    error. *)
Class Cron := {
  parse_spec : gostring -> option gostring;
}.

(** A scheduler that has not been started: the entries of its cron (the
    specification and the job the scheduled function runs) and the
    registry. *)
Record Scheduler (J : Type) := mkScheduler {
  cron : list (gostring * J);
  jobs : gmap gostring J;
  isRunning : bool;
}.
Arguments cron {J} s.
Arguments jobs {J} s.
Arguments isRunning {J} s.

Section Scheduler.
Context {J : Type} `{Job J} `{Cron}.

(** NewScheduler *)
Definition NewScheduler : Scheduler J :=
  {| cron := []; jobs := ∅; isRunning := false |}.

(** cron.AddFunc(spec, cmd) *)
Definition AddFunc (spec : gostring) (job : J) (entries : list (gostring * J))
  : list (gostring * J) * option gostring :=
  match parse_spec spec with
  | Some e => (entries, Some e)
  | None => (entries ++ [(spec, job)], None)
  end.

(** Scheduler.AddJob: the scheduler after the call and the error returned
    ([None] is nil). *)
Definition AddJob (s : Scheduler J) (spec : gostring) (job : J)
  : Scheduler J * option gostring :=
  let name := Name job in
  match jobs s !! name with
  | Some _ => (s, Some (str "job " ++ name ++ str " already registered"))
  | None =>
      match AddFunc spec job (cron s) with
      | (_, Some e) =>
          (s, Some (str "failed to add job " ++ name ++ str ": " ++ e))
      | (entries, None) =>
          ({| cron := entries; jobs := <[name := job]> (jobs s);
              isRunning := isRunning s |}, None)
      end
  end.

(** Scheduler.AddMorningEveningJob *)
Definition AddMorningEveningJob (s : Scheduler J) (job : J)
  : Scheduler J * option gostring :=
  match AddJob s (str "0 0 10 * * *") job with
  | (s, Some e) => (s, Some e)
  | (s, None) => AddJob s (str "0 0 17 * * *") job
  end.

End Scheduler.

(** ContentScraperJob.Name *)
#[export] Instance ContentScraperJob_Job : Job ContentScraperJob :=
  {| Name := fun _ => str "content_scraper" |}.

(* ===================================================================== *)
(** ** A reference instance of the library *)
(* ===================================================================== *)

(** The theorems below hold for every instance of [Float64], [Strconv], [Unicode],
    [EncodingJSON] and [Cron].  To run the program on concrete inputs the
    library is instantiated here: JSON texts are parsed by the grammar of
    RFC 8259 and decoded by the rules of encoding/json; a [float64] is kept
    as the exact decimal it was read from (binary rounding is not modelled:
    the instance is exact for numbers of at most 15 significant digits in
    the range of binary64). *)
Module Reference.

(** *** Numbers *)

(** [neg], [mant] and [exp10] stand for [(-1)^neg * mant * 10^exp10]; the
    mantissa has no trailing zero. *)
Record Decimal := mkDecimal { neg : bool; mant : Z; exp10 : Z }.

Fixpoint span (p : ascii -> bool) (s : gostring) : gostring * gostring :=
  match s with
  | c :: t => if p c then let '(a, b) := span p t in (c :: a, b) else ([], s)
  | [] => ([], [])
  end.

Definition digits_Z (ds : gostring) : Z := default 0 (digits_value 0 ds).

(** Trailing zeros of the mantissa go to the exponent. *)
Fixpoint strip_zeros (fuel : nat) (m e : Z) : Z * Z :=
  match fuel with
  | O => (m, e)
  | S f =>
      if m =? 0 then (0, 0)
      else if m mod 10 =? 0 then strip_zeros f (m / 10) (e + 1) else (m, e)
  end.

Fixpoint count_digits (fuel : nat) (m : Z) : Z :=
  match fuel with
  | O => 0
  | S f => if m =? 0 then 0 else 1 + count_digits f (m / 10)
  end.

(** The least magnitude that rounds to infinity: 2^1024 - 2^970, which
    lies between 10^308 and 10^309. *)
Definition overflow_bound : Z := 2 ^ 1024 - 2 ^ 970.

Definition out_of_range (m e nd : Z) : bool :=
  if m =? 0 then false
  else if 309 <? nd + e then true
  else if nd + e <? 309 then false
  else if 0 <=? e then overflow_bound <=? m * 10 ^ e
  else overflow_bound * 10 ^ (- e) <=? m.

Definition signed (s : gostring) : bool * gostring :=
  match s with
  | c :: t =>
      if Ascii.eqb c "-"%char then (true, t)
      else if Ascii.eqb c "+"%char then (false, t) else (false, s)
  | [] => (false, s)
  end.

(** The exponent part of a decimal literal, or nothing. *)
Definition parse_exponent (s : gostring) : option Z :=
  match s with
  | [] => Some 0
  | c :: t =>
      if one_of "eE" c then
        let '(eneg, ds) := signed t in
        match ds with
        | [] => None
        | _ :: _ => v ← digits_value 0 ds; Some (if eneg then - v else v)
        end
      else None
  end.

(** strconv.ParseFloat(s, 64) on a decimal literal: a sign, digits, a
    fraction and an exponent, with at least one digit.  (The program only
    passes digits with an optional fraction, and encoding/json only JSON
    numbers.) *)
Definition parse_decimal (s : gostring) : option Decimal :=
  let '(sign, s) := signed s in
  let '(ip, s) := span digit s in
  let '(fp, s) :=
    match s with
    | c :: t => if Ascii.eqb c "."%char then span digit t else ([], s)
    | [] => ([], s)
    end in
  let n := length (ip ++ fp) in
  if (n =? 0)%nat then None
  else
    e ← parse_exponent s;
    let '(m, e) :=
      strip_zeros n (digits_Z (ip ++ fp)) (e - Z.of_nat (length fp)) in
    if out_of_range m e (count_digits n m) then None
    else Some {| neg := sign; mant := m; exp10 := e |}.

#[export] Instance decimal_float64 : Float64 := {| float64 := Decimal |}.

#[export] Instance strconv : Strconv := {| ParseFloat := parse_decimal |}.

(** *** Unicode *)

Definition lower (c : ascii) : ascii :=
  let n := nat_of_ascii c in
  if (65 <=? n)%nat && (n <=? 90)%nat then ascii_of_nat (n + 32) else c.

(** strings.ToLower on ASCII text. *)
#[export] Instance unicode : Unicode := {| ToLower := map lower |}.

(** *** JSON texts *)

Local Unset Elimination Schemes.
Inductive jvalue : Type :=
| JNull
| JBool (b : bool)
| JNum (lexeme : gostring)
| JStr (s : gostring)
| JArr (l : list jvalue)
| JObj (l : list (gostring * jvalue)).
Local Set Elimination Schemes.

Definition backslash : ascii := "092"%char.
Definition byte_in (lo hi : nat) (c : ascii) : bool :=
  let n := nat_of_ascii c in (lo <=? n)%nat && (n <=? hi)%nat.

(** JSON white space: space, tab, line feed, carriage return. *)
Definition ws (c : ascii) : bool :=
  let n := nat_of_ascii c in
  (n =? 32)%nat || (n =? 9)%nat || (n =? 10)%nat || (n =? 13)%nat.

Fixpoint skip_ws (s : gostring) : gostring :=
  match s with
  | c :: t => if ws c then skip_ws t else s
  | [] => []
  end.

Definition hex (c : ascii) : bool :=
  digit c || byte_in 97 102 c || byte_in 65 70 c.

Definition hex_value (c : ascii) : Z :=
  let n := Z.of_nat (nat_of_ascii c) in
  if digit c then n - 48 else if byte_in 97 102 c then n - 87 else n - 55.

Definition hex4 (a b c d : ascii) : Z :=
  ((hex_value a * 16 + hex_value b) * 16 + hex_value c) * 16 + hex_value d.

(** A JSON number: an optional minus, an integer part without leading
    zero, an optional fraction and an optional exponent.  The lexeme and
    the rest. *)
Definition lex_number (s : gostring) : option (gostring * gostring) :=
  let '(sign, s1) :=
    match s with
    | c :: t => if Ascii.eqb c "-"%char then ([c], t) else ([], s)
    | [] => ([], s)
    end in
  '(ip, s2) ← match s1 with
              | c :: t =>
                  if Ascii.eqb c "0"%char then Some ([c], t)
                  else if digit c then Some (span digit s1)
                  else None
              | [] => None
              end;
  '(fp, s3) ← match s2 with
              | c :: t =>
                  if Ascii.eqb c "."%char then
                    let '(ds, r) := span digit t in
                    match ds with [] => None | _ :: _ => Some (c :: ds, r) end
                  else Some ([], s2)
              | [] => Some ([], s2)
              end;
  '(ep, s4) ← match s3 with
              | c :: t =>
                  if one_of "eE" c then
                    let '(sg, u) :=
                      match t with
                      | d :: u => if one_of "+-" d then ([d], u) else ([], t)
                      | [] => ([], t)
                      end in
                    let '(ds, r) := span digit u in
                    match ds with
                    | [] => None
                    | _ :: _ => Some (c :: sg ++ ds, r)
                    end
                  else Some ([], s3)
              | [] => Some ([], s3)
              end;
  Some (sign ++ ip ++ fp ++ ep, s4).

(** The body of a string literal, after the opening quote: the raw text up
    to the closing quote (escapes checked, control characters refused) and
    the rest. *)
Fixpoint lex_string (s acc : gostring) : option (gostring * gostring) :=
  match s with
  | [] => None
  | c :: t =>
      if quote c then Some (rev acc, t)
      else if Ascii.eqb c backslash then
        match t with
        | e :: u =>
            if quote e || Ascii.eqb e backslash || one_of "/bfnrt" e
            then lex_string u (e :: c :: acc)
            else if Ascii.eqb e "u"%char then
              match u with
              | h1 :: h2 :: h3 :: h4 :: v =>
                  if hex h1 && hex h2 && hex h3 && hex h4
                  then lex_string v (h4 :: h3 :: h2 :: h1 :: e :: c :: acc)
                  else None
              | _ => None
              end
            else None
        | [] => None
        end
      else if byte_in 0 31 c then None
      else lex_string t (c :: acc)
  end.

(** utf8.EncodeRune *)
Definition utf8 (r : Z) : gostring :=
  let b (n : Z) := ascii_of_nat (Z.to_nat n) in
  if r <? 128 then [b r]
  else if r <? 2048 then [b (192 + r / 64); b (128 + r mod 64)]
  else if r <? 65536
  then [b (224 + r / 4096); b (128 + r / 64 mod 64); b (128 + r mod 64)]
  else [b (240 + r / 262144); b (128 + r / 4096 mod 64);
        b (128 + r / 64 mod 64); b (128 + r mod 64)].

(** U+FFFD *)
Definition replacement : gostring := utf8 65533.

(** The width of the well-formed UTF-8 sequence at the head of [s]; 0 when
    there is none. *)
Definition utf8_width (s : gostring) : nat :=
  match s with
  | [] => 0
  | a :: t =>
      let x := nat_of_ascii a in
      if (x <? 128)%nat then 1
      else if byte_in 194 223 a then
        match t with
        | b :: _ => if byte_in 128 191 b then 2 else 0
        | _ => 0
        end
      else if byte_in 224 239 a then
        match t with
        | b :: c :: _ =>
            if byte_in (if (x =? 224)%nat then 160 else 128)
                       (if (x =? 237)%nat then 159 else 191) b
               && byte_in 128 191 c
            then 3 else 0
        | _ => 0
        end
      else if byte_in 240 244 a then
        match t with
        | b :: c :: d :: _ =>
            if byte_in (if (x =? 240)%nat then 144 else 128)
                       (if (x =? 244)%nat then 143 else 191) b
               && byte_in 128 191 c && byte_in 128 191 d
            then 4 else 0
        | _ => 0
        end
      else 0
  end%nat.

(** Every byte that does not belong to a well-formed sequence becomes
    U+FFFD. *)
Fixpoint coerce_utf8 (skip : nat) (s : gostring) : gostring :=
  match s with
  | [] => []
  | c :: t =>
      match skip with
      | S k => c :: coerce_utf8 k t
      | O =>
          match utf8_width s with
          | O => replacement ++ coerce_utf8 0 t
          | S k => c :: coerce_utf8 k t
          end
      end
  end.

Definition escape_char (e : ascii) : ascii :=
  if Ascii.eqb e "b"%char then "008"%char
  else if Ascii.eqb e "f"%char then "012"%char
  else if Ascii.eqb e "n"%char then "010"%char
  else if Ascii.eqb e "r"%char then "013"%char
  else if Ascii.eqb e "t"%char then "009"%char
  else e.

(** The escapes of a checked raw text are replaced by what they denote. *)
Fixpoint unescape (s : gostring) : gostring :=
  match s with
  | [] => []
  | c :: t =>
      if Ascii.eqb c backslash then
        match t with
        | e :: u =>
            if Ascii.eqb e "u"%char then
              match u with
              | h1 :: h2 :: h3 :: h4 :: v =>
                  let r := hex4 h1 h2 h3 h4 in
                  if (55296 <=? r) && (r <? 57344) then
                    match v with
                    | b1 :: b2 :: g1 :: g2 :: g3 :: g4 :: x =>
                        let r2 := hex4 g1 g2 g3 g4 in
                        if Ascii.eqb b1 backslash && Ascii.eqb b2 "u"%char
                           && hex g1 && hex g2 && hex g3 && hex g4
                           && (r <? 56320) && (56320 <=? r2) && (r2 <? 57344)
                        then utf8 ((r - 55296) * 1024 + (r2 - 56320) + 65536)
                               ++ unescape x
                        else replacement ++ unescape v
                    | _ => replacement ++ unescape v
                    end
                  else utf8 r ++ unescape v
              | _ => []
              end
            else escape_char e :: unescape u
        | [] => []
        end
      else c :: unescape t
  end.

Definition unquote (raw : gostring) : gostring :=
  unescape (coerce_utf8 0 raw).

(** The deepest nesting the scanner of encoding/json accepts. *)
Definition maxNestingDepth : Z := 10000.

(** A value at the head of [s], and the rest.  The fuel bounds the number
    of nested calls; a call consumes a byte before it calls again. *)
Fixpoint value (fuel : nat) (depth : Z) (s : gostring)
  : option (jvalue * gostring) :=
  match fuel with
  | O => None
  | S f =>
      match skip_ws s with
      | [] => None
      | c :: t =>
          if Ascii.eqb c "{"%char then
            if maxNestingDepth <? depth + 1 then None
            else match skip_ws t with
                 | d :: u =>
                     if Ascii.eqb d "}"%char then Some (JObj [], u)
                     else members f (depth + 1) (d :: u) []
                 | [] => None
                 end
          else if Ascii.eqb c "["%char then
            if maxNestingDepth <? depth + 1 then None
            else match skip_ws t with
                 | d :: u =>
                     if Ascii.eqb d "]"%char then Some (JArr [], u)
                     else elements f (depth + 1) (d :: u) []
                 | [] => None
                 end
          else if quote c then
            '(raw, r) ← lex_string t []; Some (JStr (unquote raw), r)
          else if Strings.HasPrefix (c :: t) (str "true")
          then Some (JBool true, drop 4 (c :: t))
          else if Strings.HasPrefix (c :: t) (str "false")
          then Some (JBool false, drop 5 (c :: t))
          else if Strings.HasPrefix (c :: t) (str "null")
          then Some (JNull, drop 4 (c :: t))
          else '(lexeme, r) ← lex_number (c :: t); Some (JNum lexeme, r)
      end
  end
with elements (fuel : nat) (depth : Z) (s : gostring) (acc : list jvalue)
  : option (jvalue * gostring) :=
  match fuel with
  | O => None
  | S f =>
      '(v, r) ← value f depth s;
      match skip_ws r with
      | c :: t =>
          if Ascii.eqb c ","%char then elements f depth t (v :: acc)
          else if Ascii.eqb c "]"%char then Some (JArr (rev (v :: acc)), t)
          else None
      | [] => None
      end
  end
with members (fuel : nat) (depth : Z) (s : gostring)
             (acc : list (gostring * jvalue))
  : option (jvalue * gostring) :=
  match fuel with
  | O => None
  | S f =>
      match skip_ws s with
      | q :: t =>
          if quote q then
            '(raw, r) ← lex_string t [];
            match skip_ws r with
            | c :: u =>
                if Ascii.eqb c ":"%char then
                  '(v, r) ← value f depth u;
                  match skip_ws r with
                  | d :: x =>
                      if Ascii.eqb d ","%char
                      then members f depth x ((unquote raw, v) :: acc)
                      else if Ascii.eqb d "}"%char
                      then Some (JObj (rev ((unquote raw, v) :: acc)), x)
                      else None
                  | [] => None
                  end
                else None
            | [] => None
            end
          else None
      | [] => None
      end
  end.

(** A whole JSON text. *)
Definition parse (s : gostring) : option jvalue :=
  '(v, r) ← value (2 * length s + 2) 0 s;
  match skip_ws r with
  | [] => Some v
  | _ :: _ => None
  end.

(** *** Decoding into interface values and maps *)

(** Every number must be in the range of float64. *)
Fixpoint floats_ok (v : jvalue) : bool :=
  match v with
  | JNum lexeme => bool_decide (is_Some (parse_decimal lexeme))
  | JArr l => forallb floats_ok l
  | JObj l => forallb (fun kv => floats_ok kv.2) l
  | _ => true
  end.

(** The order of strings.Compare. *)
Fixpoint bytes_ltb (a b : gostring) : bool :=
  match a, b with
  | [], _ :: _ => true
  | _, [] => false
  | x :: a', y :: b' =>
      (nat_of_ascii x <? nat_of_ascii y)%nat
      || ((nat_of_ascii x =? nat_of_ascii y)%nat && bytes_ltb a' b')
  end.

(** A map entry: a later value of a key replaces the earlier one; the
    entries are kept in the order json.Marshal writes them. *)
Fixpoint put (k : gostring) (v : jvalue) (m : list (gostring * jvalue))
  : list (gostring * jvalue) :=
  match m with
  | [] => [(k, v)]
  | (k', v') :: rest =>
      if gostring_eqb k k' then (k, v) :: rest
      else if bytes_ltb k k' then (k, v) :: m
      else (k', v') :: put k v rest
  end.

(** Objects become maps, at every depth. *)
Fixpoint canon (v : jvalue) : jvalue :=
  match v with
  | JArr l => JArr (map canon l)
  | JObj l =>
      JObj (fold_left (fun m kv => put kv.1 kv.2 m)
              (map (fun kv => (kv.1, canon kv.2)) l) [])
  | _ => v
  end.

Definition Unmarshal_interfaces_ref (data : gostring) : option Z :=
  v ← parse data;
  if floats_ok v then
    match v with
    | JArr l => Some (Z.of_nat (length l))
    | JNull => Some 0
    | _ => None
    end
  else None.

(** [None] is the nil map, which a JSON null leaves in place. *)
Definition Unmarshal_map_ref (data : gostring)
  : option (option (list (gostring * jvalue))) :=
  v ← parse data;
  if floats_ok v then
    match canon v with
    | JObj l => Some (Some l)
    | JNull => Some None
    | _ => None
    end
  else None.

(** *** Encoding *)

Definition digit_char (d : Z) : ascii := ascii_of_nat (Z.to_nat (48 + d)).

Fixpoint digits_of (fuel : nat) (m : Z) (acc : gostring) : gostring :=
  match fuel with
  | O => acc
  | S f =>
      if m <? 10 then digit_char m :: acc
      else digits_of f (m / 10) (digit_char (m mod 10) :: acc)
  end.

(** The decimal digits of a natural number. *)
Definition itoa (m : Z) : gostring :=
  digits_of (S (Z.to_nat (Z.log2 m))) m [].

Definition zeros (n : Z) : gostring := replicate (Z.to_nat n) "0"%char.

(** The float encoder of encoding/json: format [f] unless the magnitude
    is below 1e-6 or at least 1e21, then format [e] with the exponent
    written without padding. *)
Definition format_float (d : Decimal) : gostring :=
  let sign := if neg d then str "-" else [] in
  if mant d =? 0 then sign ++ str "0"
  else
    let ds := itoa (mant d) in
    let nd := Z.of_nat (length ds) in
    let p := nd + exp10 d in
    if (p <? -5) || (21 <? p) then
      let x := p - 1 in
      sign ++ take 1 ds
      ++ (if 1 <? nd then str "." ++ drop 1 ds else [])
      ++ str "e" ++ (if x <? 0 then str "-" else str "+") ++ itoa (Z.abs x)
    else if p <=? 0 then sign ++ str "0." ++ zeros (- p) ++ ds
    else if nd <=? p then sign ++ ds ++ zeros (p - nd)
    else sign ++ take (Z.to_nat p) ds ++ str "." ++ drop (Z.to_nat p) ds.

Definition hex_digit (n : Z) : ascii :=
  ascii_of_nat (Z.to_nat (if n <? 10 then 48 + n else 87 + n)).

Definition encode_byte (c : ascii) : gostring :=
  let n := Z.of_nat (nat_of_ascii c) in
  if quote c || Ascii.eqb c backslash then [backslash; c]
  else if Ascii.eqb c "008"%char then [backslash; "b"%char]
  else if Ascii.eqb c "012"%char then [backslash; "f"%char]
  else if Ascii.eqb c "010"%char then [backslash; "n"%char]
  else if Ascii.eqb c "013"%char then [backslash; "r"%char]
  else if Ascii.eqb c "009"%char then [backslash; "t"%char]
  else if (n <? 32) || one_of "<>&" c
  then backslash :: str "u00" ++ [hex_digit (n / 16); hex_digit (n mod 16)]
  else [c].

(** The string encoder of json.Marshal (HTML escaping on) over well-formed
    UTF-8; U+2028 and U+2029 are written as escapes. *)
Fixpoint encode_string (s : gostring) : gostring :=
  match s with
  | [] => []
  | c :: t =>
      match t with
      | a :: b :: u =>
          if Strings.byte_is c 226 && Strings.byte_is a 128 && (Strings.byte_is b 168 || Strings.byte_is b 169)
          then backslash :: str "u202"
               ++ [if Strings.byte_is b 168 then "8"%char else "9"%char]
               ++ encode_string u
          else encode_byte c ++ encode_string t
      | _ => encode_byte c ++ encode_string t
      end
  end.

Definition quoted (s : gostring) : gostring := dq :: encode_string s ++ [dq].

(** json.Marshal of a decoded value. *)
Fixpoint marshal (v : jvalue) : gostring :=
  match v with
  | JNull => str "null"
  | JBool b => if b then str "true" else str "false"
  | JNum lexeme =>
      match parse_decimal lexeme with
      | Some d => format_float d
      | None => []
      end
  | JStr s => quoted s
  | JArr l => str "[" ++ Strings.Join (map marshal l) (str ",") ++ str "]"
  | JObj l =>
      str "{"
      ++ Strings.Join (map (fun kv => quoted kv.1 ++ str ":" ++ marshal kv.2) l)
           (str ",")
      ++ str "}"
  end.

Definition Marshal_map_ref (obj : option (list (gostring * jvalue)))
  : gostring :=
  match obj with
  | None => str "null"
  | Some l => marshal (JObj l)
  end.

(** *** Decoding into storage.Content *)

(** The folding of field names: ASCII letters to upper case, and the two
    runes that fold to an ASCII letter (U+017F to S, U+212A to K). *)
Fixpoint foldName (s : gostring) : gostring :=
  match s with
  | [] => []
  | c :: t =>
      match t with
      | a :: u =>
          if Strings.byte_is c 197 && Strings.byte_is a 191 then "S"%char :: foldName u
          else match u with
               | b :: x =>
                   if Strings.byte_is c 226 && Strings.byte_is a 132 && Strings.byte_is b 170
                   then "K"%char :: foldName x
                   else (if byte_in 97 122 c
                         then ascii_of_nat (nat_of_ascii c - 32) else c)
                        :: foldName t
               | [] => (if byte_in 97 122 c
                        then ascii_of_nat (nat_of_ascii c - 32) else c)
                       :: foldName t
               end
      | [] => [if byte_in 97 122 c
               then ascii_of_nat (nat_of_ascii c - 32) else c]
      end
  end.

Definition is_field (name : string) (key : gostring) : bool :=
  gostring_eqb (foldName key) (foldName (str name)).

(** A struct being filled, and whether a type error was met. *)
Definition filling : Type := Content * bool.

Definition set_string (v : jvalue) (old : gostring) : gostring * bool :=
  match v with
  | JStr s => (s, true)
  | JNull => (old, true)
  | _ => (old, false)
  end.

Definition set_string_ptr (v : jvalue) (old : option gostring)
  : option gostring * bool :=
  match v with
  | JStr s => (Some s, true)
  | JNull => (None, true)
  | _ => (old, false)
  end.

Definition set_int_ptr (v : jvalue) (old : option Z) : option Z * bool :=
  match v with
  | JNum lexeme =>
      match Atoi lexeme with
      | Some n => (Some n, true)
      | None => (old, false)
      end
  | JNull => (None, true)
  | _ => (old, false)
  end.

Definition set_float_ptr (v : jvalue) (old : option Decimal)
  : option Decimal * bool :=
  match v with
  | JNum lexeme =>
      match parse_decimal lexeme with
      | Some d => (Some d, true)
      | None => (old, false)
      end
  | JNull => (None, true)
  | _ => (old, false)
  end.

(** One member of an object decoded into a Content. *)
Definition set_field (cf : filling) (kv : gostring * jvalue) : filling :=
  let '(c, ok) := cf in
  let '(k, v) := kv in
  if is_field "title" k then
    let '(x, ok') := set_string v (Title c) in
    (mkContent _ x (Year c) (Category c) (ExtraInfo c) (Type_ c) (Rating c)
       (SourceURL c), ok && ok')
  else if is_field "year" k then
    let '(x, ok') := set_int_ptr v (Year c) in
    (mkContent _ (Title c) x (Category c) (ExtraInfo c) (Type_ c) (Rating c)
       (SourceURL c), ok && ok')
  else if is_field "category" k then
    let '(x, ok') := set_string v (Category c) in
    (mkContent _ (Title c) (Year c) x (ExtraInfo c) (Type_ c) (Rating c)
       (SourceURL c), ok && ok')
  else if is_field "extra_info" k then
    let '(x, ok') := set_string v (ExtraInfo c) in
    (mkContent _ (Title c) (Year c) (Category c) x (Type_ c) (Rating c)
       (SourceURL c), ok && ok')
  else if is_field "type" k then
    let '(x, ok') := set_string v (Type_ c) in
    (mkContent _ (Title c) (Year c) (Category c) (ExtraInfo c) x (Rating c)
       (SourceURL c), ok && ok')
  else if is_field "rating" k then
    let '(x, ok') := set_float_ptr v (Rating c) in
    (mkContent _ (Title c) (Year c) (Category c) (ExtraInfo c) (Type_ c) x
       (SourceURL c), ok && ok')
  else if is_field "source_url" k then
    let '(x, ok') := set_string_ptr v (SourceURL c) in
    (mkContent _ (Title c) (Year c) (Category c) (ExtraInfo c) (Type_ c)
       (Rating c) x, ok && ok')
  else cf.

Definition zero_Content : Content := mkContent _ [] None [] [] [] None None.

(** An element of the array decoded into a Content. *)
Definition decode_Content (v : jvalue) : filling :=
  match v with
  | JObj l => fold_left set_field l (zero_Content, true)
  | JNull => (zero_Content, true)
  | _ => (zero_Content, false)
  end.

(** The decoder goes on after a type error and reports it at the end. *)
Definition Unmarshal_contents_ref (data : gostring) : option (list Content) :=
  v ← parse data;
  match v with
  | JArr l =>
      let decoded := map decode_Content l in
      if forallb snd decoded then Some (map fst decoded) else None
  | JNull => Some []
  | _ => None
  end.

#[export] Instance encoding_json : EncodingJSON :=
  {| Unmarshal_interfaces := Unmarshal_interfaces_ref;
     jsonmap := option (list (gostring * jvalue));
     Unmarshal_map := Unmarshal_map_ref;
     Marshal_map := Marshal_map_ref;
     Unmarshal_contents := Unmarshal_contents_ref |}.

End Reference.

(* ===================================================================== *)
(** * The vocabulary of the properties *)
(* ===================================================================== *)

(** What the statements below are written with: the words of the
    specification (the validator of section 4.1, the steps of Tier B), the
    projections of a logging computation, and names for lines of the log. *)
Section Vocabulary.
Context `{Float64} `{!Strconv} `{!EncodingJSON}.
Variable w : World.

(** ** The scheduler *)

Definition morning : gostring := str "0 0 10 * * *".
Definition evening : gostring := str "0 0 17 * * *".

Definition already_registered (name : gostring) : gostring :=
  str "job " ++ name ++ str " already registered".

(** ** The upsert *)

(** The row an update leaves in place of [r]. *)
Definition upserted (now : Z) (content : Content) (r : Row) : Row :=
  if same_key content r then update_row now content r else r.

(** ** The validator *)

(** The field bag of the specification: the value found for each label,
    if any. *)
Record FieldBag := mkBag {
  bag_title : option gostring;
  bag_year : option gostring;
  bag_category : option gostring;
  bag_extra_info : option gostring;
  bag_type : option gostring;
  bag_rating : option gostring;
}.

Definition group1 (r : re) (obj : gostring) : option gostring :=
  snd <$> FindStringSubmatch r obj.

(** The field bag Tier A reads off an object block, label by label. *)
Definition bag_of (obj : gostring) : FieldBag :=
  {| bag_title := group1 titlePattern obj;
     bag_year := group1 yearPattern obj;
     bag_category := group1 categoryPattern obj;
     bag_extra_info := group1 extraInfoPattern obj;
     bag_type := group1 typePattern obj;
     bag_rating := group1 ratingPattern obj |}.

Inductive Rejection : Type :=
| missing_title
| missing_category
| excluded_category
| invalid_type.

Definition present (v : option gostring) : option gostring :=
  match v with
  | Some (c :: t) => Some (c :: t)
  | _ => None
  end.

(** RecordValidator as section 4.1 of the specification words it: the six
    rules in their order, the first failure deciding. *)
Definition RecordValidator_spec (b : FieldBag) : Content + Rejection :=
  match present (bag_title b) with
  | None => inr missing_title
  | Some title =>
      match present (bag_category b) with
      | None => inr missing_category
      | Some category =>
          if gostring_eqb category (str "Korean") then inr excluded_category
          else
            match bag_type b with
            | None => inr invalid_type
            | Some type =>
                if gostring_eqb type (str "movie")
                   || gostring_eqb type (str "series")
                then inl {| Title := title;
                            Year := bag_year b ≫= Atoi;
                            Category := category;
                            ExtraInfo := default [] (bag_extra_info b);
                            Type_ := type;
                            Rating := bag_rating b ≫= ParseFloat;
                            SourceURL := None |}
                else inr invalid_type
            end
      end
  end.

Definition accepted (r : Content + Rejection) : option Content :=
  match r with
  | inl c => Some c
  | inr _ => None
  end.

(** ** Logging computations *)

(** The value of a computation, its log dropped. *)
Definition result_of {A} (m : W A) : option A := fst <$> m.

(** The lines a computation logs. *)
Definition log_of {A} (m : W A) : list Event :=
  match m with
  | Some (_, evs) => evs
  | None => []
  end.

(** ** Tier B and Tier C *)

(** The first step of Tier B: the code-fence markers are stripped. *)
Definition strip_fences (response : gostring) : gostring :=
  Strings.ReplaceAll (Strings.ReplaceAll response (str "```json") [])
    (str "```") [].

(** The slice from the first [opener] to the last [closer], when the text
    has both and in that order. *)
Definition enclosed (opener closer : string) (r : gostring) : option gostring :=
  let i := Strings.Index r (str opener) in
  let j := Strings.LastIndex r (str closer) in
  if negb (i =? -1) && negb (j =? -1) && (i <? j)
  then slice r i (j + 1) else None.

(** The six repairs of step 3 of the specification, by name. *)
Definition remove_backticks (s : gostring) : gostring :=
  Strings.ReplaceAll s (str "`") [].
Definition normalize_space_before_colon (s : gostring) : gostring :=
  ReplaceAllString spaceColonPattern s [T [dq]; G1; T (jstr "':")].

(** The third repair is written from the words of the specification, not
    from the expressions of the program: quote bare scalar values that
    precede a comma or the end of a value position.  A value is what
    follows a colon outside of a string; it is bare when it is written
    without quotes, and a scalar when it is neither an object nor an
    array; its position ends at a comma, at a closing brace or bracket, or
    with the text.  What JSON reads as it stands (a number, true, false,
    null) needs no quotes and gets none. *)
Fixpoint span (p : ascii -> bool) (s : gostring) : gostring * gostring :=
  match s with
  | [] => ([], [])
  | c :: t =>
      if p c then let '(a, b) := span p t in (c :: a, b) else ([], s)
  end.

(** A character of a value written without quotes. *)
Definition bare_char (c : ascii) : bool :=
  negb (quote c || one_of "{}[]," c || space c).

(** JSON reads the token as it stands. *)
Definition json_scalar (tok : gostring) : bool :=
  match tok with
  | [] => false
  | c :: _ =>
      digit c || Ascii.eqb c "-"%char || gostring_eqb tok (str "true")
      || gostring_eqb tok (str "false") || gostring_eqb tok (str "null")
  end.

(** The bare scalar at the head of [t], the text after a colon, if there
    is one and its position ends after it: the scalar, and the number of
    characters of [t] up to its end. *)
Definition bare_value (t : gostring) : option (nat * gostring) :=
  let '(blank, r) := span space t in
  let '(tok, r') := span bare_char r in
  let '(_, after) := span space r' in
  match tok with
  | [] => None
  | _ :: _ =>
      if json_scalar tok then None
      else
        match after with
        | [] => Some ((length blank + length tok)%nat, tok)
        | c :: _ =>
            if one_of ",}]" c
            then Some ((length blank + length tok)%nat, tok) else None
        end
  end.

(** The scan: [in_string] says whether the text read so far has left a
    string open, [escaped] whether the last character was a backslash in
    it, and [skip] counts the characters of a value that has just been
    written out in quotes. *)
Fixpoint quote_bare (skip : nat) (in_string escaped : bool) (s : gostring)
  : gostring :=
  match s with
  | [] => []
  | c :: t =>
      match skip with
      | S k => quote_bare k in_string escaped t
      | O =>
          if in_string then
            if escaped then c :: quote_bare 0 true false t
            else if Ascii.eqb c (ascii_of_nat 92)
                 then c :: quote_bare 0 true true t
            else if quote c then c :: quote_bare 0 false false t
            else c :: quote_bare 0 true false t
          else if quote c then c :: quote_bare 0 true false t
          else if Ascii.eqb c ":"%char then
            match bare_value t with
            | Some (n, tok) =>
                c :: dq :: tok ++ dq :: quote_bare n false false t
            | None => c :: quote_bare 0 false false t
            end
          else c :: quote_bare 0 false false t
      end
  end.

Definition quote_bare_scalars (s : gostring) : gostring :=
  quote_bare 0 false false s.

Definition collapse_escaped_quotes (s : gostring) : gostring :=
  Strings.ReplaceAll s (jstr "\'") [dq].
Definition strip_control_characters (s : gostring) : gostring :=
  ReplaceAllString controlPattern s [].
Definition remove_trailing_commas (s : gostring) : gostring :=
  ReplaceAllString commaBracketPattern
    (ReplaceAllString commaBracePattern s [T (str "}")]) [T (str "]")].

Definition repair_sequence_spec : list (gostring -> gostring) :=
  [remove_backticks; normalize_space_before_colon; quote_bare_scalars;
   collapse_escaped_quotes; strip_control_characters; remove_trailing_commas].

(** The narrower pass of step 4. *)
Definition collapse_doubled_quotes (s : gostring) : gostring :=
  Strings.ReplaceAll (Strings.ReplaceAll s [dq; dq] [dq]) (str "''") (str "'").
Definition normalize_ellipsis (s : gostring) : gostring :=
  Strings.ReplaceAll s ellipsis (str "...").

Definition narrow_sequence_spec : list (gostring -> gostring) :=
  [collapse_doubled_quotes; normalize_ellipsis].

Definition apply_in_order (fs : list (gostring -> gostring)) (s : gostring)
  : gostring :=
  fold_left (fun acc f => f acc) fs s.

Definition parses (s : gostring) : bool :=
  bool_decide (is_Some (Unmarshal_interfaces s)).

(** Step 4: parse; on failure the narrower pass and one more parse; when
    that fails too, Tier C. *)
Definition parse_or_retry (jsonPart : gostring) : option gostring :=
  if parses jsonPart then Some jsonPart
  else
    let jsonPart := apply_in_order narrow_sequence_spec jsonPart in
    if parses jsonPart then Some jsonPart
    else result_of (reformatJSON jsonPart).

(** Tier B as the specification words it: the bracket pair if there is
    one, else the object pair wrapped as an array, else the empty array. *)
Definition tierB_spec (response : gostring) : option gostring :=
  let r := strip_fences response in
  match enclosed "[" "]" r with
  | Some jsonPart => parse_or_retry (apply_in_order repair_sequence_spec jsonPart)
  | None =>
      match enclosed "{" "}" r with
      | Some jsonObj => Some (str "[" ++ jsonObj ++ str "]")
      | None => Some (str "[]")
      end
  end.

(** The first line Tier B logs. *)
Definition tierB_first_line (e : Event) : Prop :=
  exists t, e = Printf "Raw model response (first 200 chars): %s" [AStr t].

(** The fragments Tier C tries to parse, for an input in brackets. *)
Definition fragments (input : gostring) : list gostring :=
  match slice input 1 (len input - 1) with
  | Some inner => map as_object (parts_of inner)
  | None => []
  end.

(** ** The run *)

Definition summary_format : string :=
  "Content scraper job complete. Scraped %d content items from %d sources".

(** A line that is neither the summary of a run nor a call of the
    notifier. *)
Definition quiet (e : Event) : Prop :=
  match e with
  | Printf format _ => format <> summary_format
  | Println _ _ => True
  | NotifyContentUpdate _ _ => False
  end.

(** Every line a computation logs satisfies [P]. *)
Definition logs_only (P : Event -> Prop) {A} (m : W A) : Prop :=
  Forall P (log_of m).

(** The sources of a stretch of the list processed one after the other,
    no checkpoint in between. *)
Fixpoint process_sources (i : nat) (urls : list gostring) (s : Sys)
         (l : Locals) : option (Sys * Locals) :=
  match urls with
  | [] => Some (s, l)
  | url :: rest =>
      '(s, l) ← process_source w i url
                  (logged [Printf "Scraping content from %s" [AStr url]] s) l;
      process_sources (S i) rest s l
  end.

Definition scraping_line (url : gostring) : Event :=
  Printf "Scraping content from %s" [AStr url].

Definition summary_line (total sources : Z) : Event :=
  Printf summary_format [AInt total; AInt sources].

(** The lines of the finalization: the summary, or a call of the
    notifier. *)
Definition final_event (e : Event) : Prop :=
  (exists total sources, e = summary_line total sources)
  \/ (exists contents urls, e = NotifyContentUpdate contents urls).

(** The sources Run works on: the configured ones, or the default one. *)
Definition effective_sources (j : ContentScraperJob) : list gostring :=
  if (Z.of_nat (length (sourceURLs j)) =? 0)
  then [str "https://nkiri.com/"] else sourceURLs j.

Definition geminiConfig (i : nat) : ModelConfig :=
  {| APIKey := Getenv w i "GEMINI_API_KEY"; BaseURL := [];
     ModelName := str "gemini-1.5-flash"; Timeout := 0; MaxRetries := 0 |}.

Definition openaiConfig (i : nat) : ModelConfig :=
  {| APIKey := Getenv w i "OPENAI_API_KEY"; BaseURL := [];
     ModelName := str "gpt-4o"; Timeout := 0; MaxRetries := 0 |}.

End Vocabulary.

(** ** The providers and the run, in the words of the claims *)

(** The elements of a list with their positions, counted from [k]. *)
Fixpoint numbered {A} (k : nat) (l : list A) : list (nat * A) :=
  match l with
  | [] => []
  | x :: rest => (k, x) :: numbered (S k) rest
  end.

Section RunWords.
Context `{Float64} `{!Strconv} `{!EncodingJSON}.
Variable w : World.

(** The driver fails the save of the [k]-th record of source [i]. *)
Definition save_fails (i k : nat) : bool :=
  match db_fault w i k with
  | NoFault => false
  | _ => true
  end.

(** What the records of a source leave, the first of them being the
    [k]-th: every record whose own save does not fail is saved, in the
    order of the records, whatever happened to the records before it; the
    others are skipped.  The result is the table and the records saved. *)
Definition persist_records (i k : nat) (contents : list Content)
           (tbl : list Row) : list Row * list Content :=
  let kept :=
    List.filter (fun a => negb (save_fails i a.1)) (numbered k contents) in
  (fold_left (fun t a => (SaveContent (db_now w i a.1) NoFault a.2 t).1)
     kept tbl,
   map snd kept).

(** What a source leaves: nothing when its page cannot be fetched;
    otherwise the records the providers extract from the page, each
    carrying the URL of the source, persisted as above.  The state is the
    table, the model manager and the records saved so far. *)
Definition source_outcome (st : list Row * ModelManager * list Content)
           (a : nat * gostring) : list Row * ModelManager * list Content :=
  match Scrape w a.1 a.2 with
  | Err _ => st
  | Ok scrapedText =>
      match result_of (extractWithProviders w a.1 st.1.2 scrapedText) with
      | Some (mgr, contents) =>
          let r := persist_records a.1 0 (map (with_source a.2) contents)
                     st.1.1 in
          (r.1, mgr, st.2 ++ r.2)
      | None => st
      end
  end.

(** What a run that is not cancelled leaves: every source has its turn,
    in the order of the list, whatever happened to the sources before
    it. *)
Definition run_outcome (urls : list gostring) (tbl : list Row)
           (mgr : ModelManager) : list Row * ModelManager * list Content :=
  fold_left source_outcome (numbered 0 urls) (tbl, mgr, []).

End RunWords.

Section ProviderWords.
Context `{Float64} `{!Strconv} `{!EncodingJSON} `{!Unicode}.
Variable w : World.

(** What an attempt at a provider yields: the records its answer
    normalizes to.  A provider without an API key is not tried; a provider
    whose model cannot be made, whose call fails or whose answer
    normalizes to no record yields no record, and the three are not told
    apart.  The manager is the one the attempt leaves. *)
Definition provider_yield (modelType : gostring) (config : ModelConfig)
           (normalize : gostring -> W (list Content)) (i : nat)
           (mgr : ModelManager) (input : gostring)
  : ModelManager * list Content :=
  if gostring_eqb (APIKey config) [] then (mgr, [])
  else
    let made := CreateModel mgr modelType config in
    match made.2 with
    | Err _ => (made.1, [])
    | Ok model =>
        match GenerateText w i model input with
        | Err _ => (made.1, [])
        | Ok response =>
            (made.1,
             match result_of (normalize response) with
             | Some contents => contents
             | None => []
             end)
        end
    end.

(** The records of a source: those of the first of Gemini and OpenAI, in
    that order, that yields a record; none when neither does. *)
Definition first_non_empty (i : nat) (mgr : ModelManager)
           (scrapedText : gostring) : ModelManager * list Content :=
  let input := buildContentExtractionPrompt ++ scrapedText in
  let fromGemini :=
    provider_yield ModelTypeGemini (geminiConfig w i) geminiContents i mgr
      input in
  match fromGemini.2 with
  | _ :: _ => fromGemini
  | [] =>
      provider_yield ModelTypeOpenAI (openaiConfig w i) openaiContents i
        fromGemini.1 input
  end.

(** The manager GenerateWithBestModel is left with when it has gone past
    a configuration: the model it asked for is cached, if the name is
    that of a provider and the model could be made. *)
Definition passed (m : ModelManager) (config : ModelConfig) : ModelManager :=
  let modelType := detectModelType (ModelName config) in
  if gostring_eqb modelType [] then m
  else (GetOrCreateModel m modelType config).1.

(** Every call GenerateWithBestModel makes for a configuration of [pre]
    fails: the [k]-th configuration has no provider, or its model cannot
    be made, or the call with its model returns an error. *)
Definition calls_fail (generate : nat -> Model -> gostring -> result gostring)
           (prompt : gostring) (m : ModelManager) (pre : list ModelConfig)
  : Prop :=
  forall (k : nat) (config : ModelConfig) (model : Model),
    pre !! k = Some config ->
    detectModelType (ModelName config) <> [] ->
    (GetOrCreateModel (fold_left passed (take k pre) m)
       (detectModelType (ModelName config)) config).2 = Ok model ->
    exists e, generate k model prompt = Err e.

End ProviderWords.


(** ** Concrete inputs *)

Module Inputs.
Import Reference.

(** A well-formed answer with one record. *)
Definition one_movie : gostring :=
  jstr "[{'title':'Movie 1','year':2023,'category':'Hollywood','extra_info':'Action','type':'movie'}]".

Definition movie_1 : Content :=
  {| Title := str "Movie 1"; Year := Some 2023; Category := str "Hollywood";
     ExtraInfo := str "Action"; Type_ := str "movie"; Rating := None;
     SourceURL := None |}.

(** A well-formed answer whose only record is of the excluded category. *)
Definition only_korean : gostring :=
  jstr "[{'title':'Parasite','category':'Korean','extra_info':'Drama','type':'movie'}]".

Definition parasite : Content :=
  {| Title := str "Parasite"; Year := None; Category := str "Korean";
     ExtraInfo := str "Drama"; Type_ := str "movie"; Rating := None;
     SourceURL := None |}.

(** An answer that no repair makes parse as a whole (the second object
    lacks a comma): only its first object survives, as a fragment. *)
Definition korean_and_broken : gostring :=
  jstr "[{'title':'Parasite','category':'Korean','type':'movie'},{'title':'Q' 'category':'Korean'}]".

Definition parasite_fragment : Content :=
  {| Title := str "Parasite"; Year := None; Category := str "Korean";
     ExtraInfo := []; Type_ := str "movie"; Rating := None;
     SourceURL := None |}.

(** A well-formed answer written with a space after each colon and each
    comma, as an encoder that indents writes it. *)
Definition spaced_values : gostring :=
  jstr "[{'title': 'A', 'category': 'Action', 'type': 'movie'}]".

Definition movie_a : Content :=
  {| Title := str "A"; Year := None; Category := str "Action";
     ExtraInfo := []; Type_ := str "movie"; Rating := None;
     SourceURL := None |}.

(** An answer whose last value is written without quotes. *)
Definition bare_before_brace : gostring :=
  jstr "[{'title':'T','category':'Anime','type':movie}]".

Definition movie_t : Content :=
  {| Title := str "T"; Year := None; Category := str "Anime";
     ExtraInfo := []; Type_ := str "movie"; Rating := None;
     SourceURL := None |}.

(** An object whose title holds an opening bracket. *)
Definition bracket_in_title : gostring :=
  jstr "{'title':'a [b','category':'c','type':'movie'}".

(** Text that is no JSON at all. *)
Definition no_json : gostring := str "Sorry, I cannot help with that.".

Definition deadline : gostring := str "context deadline exceeded".

Definition source_a : gostring := str "https://a.example/".
Definition source_b : gostring := str "https://b.example/".

Definition two_sources : ContentScraperJob :=
  {| sourceURLs := [source_a; source_b];
     emailNotifier := true; sendEmails := true |}.

Definition empty_sys : Sys :=
  {| table := []; modelMgr := NewModelManager; trace := [] |}.

Definition no_locals : Locals :=
  {| totalContentScraped := 0; allScrapedContent := [] |}.

(** Only Gemini is configured and it answers [one_movie]; the context is
    done when the second source is reached. *)
Definition cancelled_at_second : World :=
  {| ctx_Err := fun i => if (i =? 1)%nat then Some deadline else None;
     Scrape := fun _ _ => Ok (str "page");
     Getenv := fun _ name =>
       if String.eqb name "GEMINI_API_KEY" then str "key" else [];
     GenerateText := fun _ _ _ => Ok one_movie;
     db_now := fun i _ => 100 + Z.of_nat i;
     db_fault := fun _ _ => NoFault;
     notify_err := None |}.

(** The same, but the context is never done and the first source cannot
    be fetched. *)
Definition first_fetch_fails : World :=
  {| ctx_Err := fun _ => None;
     Scrape := fun i _ =>
       if (i =? 0)%nat then Err (str "timeout") else Ok (str "page");
     Getenv := fun _ name =>
       if String.eqb name "GEMINI_API_KEY" then str "key" else [];
     GenerateText := fun _ _ _ => Ok one_movie;
     db_now := fun i _ => 100 + Z.of_nat i;
     db_fault := fun _ _ => NoFault;
     notify_err := None |}.

Definition movie_1_row (url : gostring) (now : Z) : Row :=
  {| title := str "Movie 1"; year := Some 2023; category := str "Hollywood";
     extra_info := str "Action"; type := str "movie"; rating := None;
     source_url := Some url;
     scraped_at := now; created_at := now; updated_at := now |}.

Definition gemini_flash : ModelConfig :=
  {| APIKey := str "key"; BaseURL := []; ModelName := str "gemini-1.5-flash";
     Timeout := 0; MaxRetries := 0 |}.

Definition z_2020 : Content :=
  {| Title := str "Z"; Year := Some 2020; Category := str "Hollywood";
     ExtraInfo := []; Type_ := str "movie"; Rating := None;
     SourceURL := Some source_a |}.

Definition z_2021 : Content :=
  {| Title := str "Z"; Year := Some 2021; Category := str "Hollywood";
     ExtraInfo := []; Type_ := str "movie"; Rating := None;
     SourceURL := Some source_b |}.

(** A well-formed answer with two records. *)
Definition two_records : gostring :=
  jstr "[{'title':'Movie 1','year':2023,'category':'Hollywood','extra_info':'Action','type':'movie'},{'title':'Show 2','category':'Anime','extra_info':'Complete','type':'series'}]".

Definition source_c : gostring := str "https://c.example/".

Definition three_sources : ContentScraperJob :=
  {| sourceURLs := [source_a; source_b; source_c];
     emailNotifier := true; sendEmails := true |}.

(** Only Gemini is configured and it answers [two_records]; the first
    source cannot be fetched, and the driver fails the save of the first
    record of the second source. *)
Definition flaky : World :=
  {| ctx_Err := fun _ => None;
     Scrape := fun i _ =>
       if (i =? 0)%nat then Err (str "timeout") else Ok (str "page");
     Getenv := fun _ name =>
       if String.eqb name "GEMINI_API_KEY" then str "key" else [];
     GenerateText := fun _ _ _ => Ok two_records;
     db_now := fun i k => 100 + 10 * Z.of_nat i + Z.of_nat k;
     db_fault := fun i k =>
       if (i =? 1)%nat && (k =? 0)%nat then ExecFault (str "disk full")
       else NoFault;
     notify_err := None |}.

Definition show_2 (url : gostring) : Content :=
  {| Title := str "Show 2"; Year := None; Category := str "Anime";
     ExtraInfo := str "Complete"; Type_ := str "series"; Rating := None;
     SourceURL := Some url |}.

Definition movie_1_from (url : gostring) : Content :=
  {| Title := str "Movie 1"; Year := Some 2023; Category := str "Hollywood";
     ExtraInfo := str "Action"; Type_ := str "movie"; Rating := None;
     SourceURL := Some url |}.

(** Both providers are configured; the call of Gemini fails and OpenAI
    answers [one_movie]. *)
Definition gemini_down : World :=
  {| ctx_Err := fun _ => None;
     Scrape := fun _ _ => Ok (str "page");
     Getenv := fun _ name =>
       if String.eqb name "GEMINI_API_KEY" then str "gkey"
       else if String.eqb name "OPENAI_API_KEY" then str "okey" else [];
     GenerateText := fun _ model _ =>
       match model with
       | GeminiModel _ _ _ => Err (str "quota exceeded")
       | OpenAIModel _ _ _ _ => Ok one_movie
       end;
     db_now := fun i _ => 100 + Z.of_nat i;
     db_fault := fun _ _ => NoFault;
     notify_err := None |}.

Definition gpt_4o : ModelConfig :=
  {| APIKey := str "key"; BaseURL := []; ModelName := str "gpt-4o";
     Timeout := 0; MaxRetries := 0 |}.

(** A cron that takes every specification. *)
#[export] Instance any_spec : Cron := {| parse_spec := fun _ => None |}.

End Inputs.

(* ===================================================================== *)
(** * The rest of the program *)
(* ===================================================================== *)

(* ===================================================================== *)
(** ** storage: the queries *)
(* ===================================================================== *)

(** ORDER BY created_at DESC.  SQL fixes what the engine may return: the
    rows it was given, in an order in which created_at never increases;
    the order among rows of equal created_at is the engine's choice. *)
Class OrderBy `{Float64} := {
  order_by_created_at_desc : list Row -> list Row;
  order_by_permutation rows : order_by_created_at_desc rows ≡ₚ rows;
  order_by_descending rows :
    StronglySorted (fun a b => created_at b <= created_at a)
      (order_by_created_at_desc rows);
}.

Section Queries.
Context `{Float64} `{!OrderBy}.

(** rows.Scan(&content.Title, &content.Year, &content.Category,
    &content.ExtraInfo, &content.Type, &content.Rating, &content.SourceURL)
    on a row written by SaveContent (its text columns are not NULL, so the
    scan does not fail). *)
Definition scan (r : Row) : Content :=
  {| Title := title r; Year := year r; Category := category r;
     ExtraInfo := extra_info r; Type_ := type r; Rating := rating r;
     SourceURL := source_url r |}.

(** GetAllContent; [fault] is the error of db.Query, if any. *)
Definition GetAllContent (fault : option gostring) (table : list Row)
  : result (list Content) :=
  match fault with
  | Some e => Err (str "failed to query content: " ++ e)
  | None => Ok (map scan (order_by_created_at_desc table))
  end.

(** WHERE type = ? *)
Definition of_type (contentType : gostring) (r : Row) : bool :=
  gostring_eqb (type r) contentType.

(** GetContentByType *)
Definition GetContentByType (fault : option gostring)
           (contentType : gostring) (table : list Row)
  : result (list Content) :=
  match fault with
  | Some e => Err (str "failed to query content by type: " ++ e)
  | None =>
      Ok (map scan
            (order_by_created_at_desc (List.filter (of_type contentType) table)))
  end.

(** SELECT COUNT( * ) FROM content WHERE ... *)
Definition count (p : Row -> bool) (table : list Row) : Z :=
  Z.of_nat (length (List.filter p table)).

(** GetStats; [fault k] is the error of the [k]-th query, if any.  The
    table is the same for the three queries (no writer in between). *)
Definition GetStats (fault : nat -> option gostring) (table : list Row)
  : result (gmap gostring Z) :=
  let stats : gmap gostring Z := ∅ in
  match fault 0%nat with
  | Some e => Err (str "failed to get total count: " ++ e)
  | None =>
      let stats := <[str "total" := count (fun _ => true) table]> stats in
      match fault 1%nat with
      | Some e => Err (str "failed to get movies count: " ++ e)
      | None =>
          let stats :=
            <[str "movies" := count (of_type (str "movie")) table]> stats in
          match fault 2%nat with
          | Some e => Err (str "failed to get series count: " ++ e)
          | None =>
              Ok (<[str "series" := count (of_type (str "series")) table]>
                    stats)
          end
      end
  end.

End Queries.

(** The tables SaveContent builds: from the empty table of the schema, by
    calls of SaveContent, whatever they are given and whether they fail. *)
Inductive saved_table `{Float64} : list Row -> Prop :=
| saved_empty : saved_table []
| saved_more now fault content tbl :
    saved_table tbl -> saved_table (SaveContent now fault content tbl).1.

(** [len(contents)] *)
Definition len_of {A} (l : list A) : Z := Z.of_nat (length l).

(** The natural key of a row. *)
Definition key_of `{Float64} (r : Row) : gostring * gostring :=
  (title r, type r).

(** The records of a result that have the natural key of [c]. *)
Definition has_key `{Float64} (c c' : Content) : bool :=
  gostring_eqb (Title c') (Title c) && gostring_eqb (Type_ c') (Type_ c).

(** ** Words for the run *)

Section RunVocabulary.
Context `{Float64}.

(** The record carries the URL of one of the sources. *)
Definition stamped (urls : list gostring) (c : Content) : Prop :=
  exists url, In url urls /\ SourceURL c = Some url.

(** A row of the table has the natural key of the record. *)
Definition stored (tbl : list Row) (c : Content) : Prop :=
  existsb (same_key c) tbl = true.

(** Every row of [tbl] is still in [tbl'], at its place, with its key and
    the instants of its creation. *)
Definition persists (tbl tbl' : list Row) : Prop :=
  forall (n : nat) (r : Row), tbl !! n = Some r ->
    exists r', tbl' !! n = Some r'
      /\ title r' = title r /\ type r' = type r
      /\ created_at r' = created_at r /\ scraped_at r' = scraped_at r.

End RunVocabulary.

(** What SaveContent keeps true of the table: no two rows have the same
    title and type, and a row is scraped when it is created. *)
Definition well_keyed `{Float64} (tbl : list Row) : Prop :=
  NoDup (map key_of tbl) /\ Forall (fun r => scraped_at r = created_at r) tbl.

(** What the loop of Run over the sources keeps true of its locals: the
    count is the number of records collected, and each of them carries the
    URL of a source and has its key in the table. *)
Definition accounted `{Float64} (urls : list gostring) (s : Sys) (l : Locals)
  : Prop :=
  totalContentScraped l = len_of (allScrapedContent l)
  /\ Forall (fun c => stamped urls c /\ stored (table s) c)
       (allScrapedContent l).

(** Neither API key is set, whenever the environment is read. *)
Definition no_keys `{Float64} (w : World) : Prop :=
  forall i, Getenv w i "GEMINI_API_KEY" = [] /\ Getenv w i "OPENAI_API_KEY" = [].

Definition not_a_notification `{Float64} (e : Event) : Prop :=
  match e with NotifyContentUpdate _ _ => False | _ => True end.

(* ===================================================================== *)
(** ** scheduler: Start, Stop and RunJobNow *)
(* ===================================================================== *)

(** What the scheduler lets the outside see: the lines it hands to package
    log and its calls of cron.Start and cron.Stop. *)
Inductive SchedulerEvent : Type :=
| Logged (format : string) (args : list Arg)
| CronStart
| CronStop.

Section SchedulerRun.
Context {J St : Type} `{Job J} `{Cron}.

(** [job.Run(ctx)], with the context the caller made, on the state the job
    works on: the state it leaves and the error it returns; [None] is a
    panic. *)
Variable run : J -> St -> option (St * option gostring).

(** Scheduler.Start *)
Definition Start (s : Scheduler J) : Scheduler J * list SchedulerEvent :=
  if isRunning s then (s, [])
  else ({| cron := cron s; jobs := jobs s; isRunning := true |},
        [CronStart; Logged "Scheduler started" []]).

(** Scheduler.Stop; the wait for the context of cron.Stop ends when the
    jobs that are running have returned. *)
Definition Stop (s : Scheduler J) : Scheduler J * list SchedulerEvent :=
  if negb (isRunning s) then (s, [])
  else ({| cron := cron s; jobs := jobs s; isRunning := false |},
        [CronStop; Logged "Scheduler stopped" []]).

(** Scheduler.RunJobNow: the lines logged, and what the run leaves and
    returns. *)
Definition RunJobNow (s : Scheduler J) (name : gostring) (st : St)
  : list SchedulerEvent * option (St * option gostring) :=
  match jobs s !! name with
  | None => ([], Some (st, Some (str "job " ++ name ++ str " not registered")))
  | Some job =>
      ([Logged "Manually running job: %s" [AStr name]], run job st)
  end.

(** The calls a program can make on a scheduler. *)
Inductive Call : Type :=
| CallAddJob (spec : gostring) (job : J)
| CallAddMorningEveningJob (job : J)
| CallStart
| CallStop.

Definition call (s : Scheduler J) (c : Call) : Scheduler J :=
  match c with
  | CallAddJob spec job => (AddJob s spec job).1
  | CallAddMorningEveningJob job => (AddMorningEveningJob s job).1
  | CallStart => (Start s).1
  | CallStop => (Stop s).1
  end.

(** The scheduler after a sequence of calls on a new one. *)
Definition after (calls : list Call) : Scheduler J :=
  fold_left call calls NewScheduler.

(** What a call logs and asks of cron.  (AddJob only hands cron a
    function; that function logs when the schedule fires.) *)
Definition call_events (s : Scheduler J) (c : Call) : list SchedulerEvent :=
  match c with
  | CallStart => (Start s).2
  | CallStop => (Stop s).2
  | _ => []
  end.

(** The events of a sequence of calls made on [s]. *)
Fixpoint events_from (s : Scheduler J) (calls : list Call)
  : list SchedulerEvent :=
  match calls with
  | [] => []
  | c :: rest => call_events s c ++ events_from (call s c) rest
  end.

(** cron is started only when it is not running and stopped only when it
    is; [running] is its state before the events. *)
Fixpoint in_turn (running : bool) (evs : list SchedulerEvent) : bool :=
  match evs with
  | [] => true
  | CronStart :: rest => negb running && in_turn true rest
  | CronStop :: rest => running && in_turn false rest
  | Logged _ _ :: rest => in_turn running rest
  end.

(** The names of the jobs cron holds an entry for. *)
Definition scheduled_names (s : Scheduler J) : list gostring :=
  map (fun e => Name e.2) (cron s).

End SchedulerRun.

(** The invariant of the scheduler: cron holds one entry for each job of
    the map, and none for any other. *)
Definition one_entry_each {J : Type} `{Job J} (s : Scheduler J) : Prop :=
  NoDup (scheduled_names s)
  /\ (forall spec job, (spec, job) ∈ cron s -> jobs s !! Name job = Some job)
  /\ (forall name job, jobs s !! name = Some job ->
        name = Name job /\ exists spec, (spec, job) ∈ cron s).

(* ===================================================================== *)
(** ** model: the rest of ModelManager *)
(* ===================================================================== *)

(** ModelManager.RegisterFactory *)
Definition RegisterFactory (m : ModelManager) (modelType : gostring)
           (factory : ModelFactory) : ModelManager :=
  {| factories := <[modelType := factory]> (factories m);
     models := models m |}.

(** ModelFactory.GetSupportedModels *)
Definition GetSupportedModels (f : ModelFactory) : list gostring :=
  match f with
  | OpenAIFactory =>
      [str "gpt-4"; str "gpt-4-turbo"; str "gpt-3.5-turbo";
       str "gpt-3.5-turbo-16k"]
  | GeminiFactory =>
      [str "gemini-1.5-flash"; str "gemini-1.5-pro"; str "gemini-1.0-pro"]
  end.

(** ModelManager.ListSupportedModels *)
Definition ListSupportedModels (m : ModelManager)
  : gmap gostring (list gostring) :=
  GetSupportedModels <$> factories m.

(** ModelInterface.Close: both implementations return nil. *)
Definition Close (model : Model) : option gostring :=
  match model with
  | OpenAIModel _ _ _ _ => None
  | GeminiModel _ _ _ => None
  end.

(** ModelManager.CloseAll: the manager after the call and the error
    returned.  The models are closed in the order in which Go ranges over
    the map, which is any order; [map_to_list] is one. *)
Definition CloseAll (m : ModelManager) : ModelManager * option gostring :=
  let errors :=
    omap (fun '(key, model) =>
            (fun err => key ++ str ": " ++ err) <$> Close model)
         (map_to_list (models m)) in
  if (0 <? Z.of_nat (length errors))
  then (m, Some (str "errors closing models: "
                 ++ Strings.Join errors (str ", ")))
  else ({| factories := factories m; models := ∅ |}, None).

(** The key a model is stored under: fmt.Sprintf("%s:%s", modelType,
    modelName). *)
Definition model_key (modelType modelName : gostring) : gostring :=
  modelType ++ str ":" ++ modelName.

(** An ASCII capital letter. *)
Definition capital (c : ascii) : bool :=
  let n := nat_of_ascii c in (65 <=? n)%nat && (n <=? 90)%nat.

(** An ASCII character that is no capital letter. *)
Definition ascii_no_capital (c : ascii) : bool :=
  (nat_of_ascii c <? 128)%nat && negb (capital c).

(** What strings.ToLower does to an ASCII text without capital letters:
    nothing. *)
Definition keeps_lower_ascii `{Unicode} : Prop :=
  forall s : gostring, forallb ascii_no_capital s = true -> ToLower s = s.

(* ===================================================================== *)
(** ** notifier: the e-mail notifier *)
(* ===================================================================== *)

Module Notifier.

(** notifier.EmailConfig *)
Record EmailConfig := mkEmailConfig {
  SMTPHost : gostring;
  SMTPPort : Z;
  SenderEmail : gostring;
  SenderPassword : gostring;
  RecipientEmail : gostring;
}.

(** notifier.EmailNotifier; its template is the constant of
    NewEmailNotifier. *)
Record EmailNotifier := mkEmailNotifier {
  smtpHost : gostring;
  smtpPort : Z;
  senderEmail : gostring;
  senderPass : gostring;
  recipientEmail : gostring;
}.

(** The result of fmt.Sprintf, kept as its format and arguments. *)
Record Formatted := Sprintf {
  format_of : string;
  args_of : list Arg;
}.

Section Notifier.
Context `{Float64}.

(** The data handed to the template. *)
Record TemplateData := mkTemplateData {
  Date : gostring;
  TotalCount : Z;
  Movies : list Content;
  Series : list Content;
  HasRatings : bool;
  SourcesCount : Z;
  SourceURLs : gostring;
}.

(** The gomail message: its headers and its two bodies. *)
Record Message := mkMessage {
  From : gostring;
  To : gostring;
  Subject : Formatted;
  text_plain : Formatted;
  text_html : gostring;
}.

(** gomail.NewDialer(host, port, username, password) *)
Record Dialer := NewDialer {
  dial_host : gostring;
  dial_port : Z;
  dial_username : gostring;
  dial_password : gostring;
}.

(** What the notifier gets from outside: the environment, the result of
    fmt.Sscanf(portStr, "%d", &smtpPort) (the count, the error and the
    value left in the variable, which held [old]), the error of parsing
    the constant template, the clock, the rendering of the template and
    the SMTP dialogue. *)
Record MailWorld := mkMailWorld {
  os_Getenv : string -> gostring;
  Sscanf_d : gostring -> Z -> Z * option gostring * Z;
  template_Parse : option gostring;
  time_Now_Format : gostring;
  template_Execute : TemplateData -> result gostring;
  DialAndSend : Dialer -> Message -> option gostring;
}.

Variable mw : MailWorld.

(** NewEmailNotifier *)
Definition NewEmailNotifier (config : EmailConfig) : result EmailNotifier :=
  match template_Parse mw with
  | Some e => Err (str "failed to parse email template: " ++ e)
  | None =>
      Ok {| smtpHost := SMTPHost config; smtpPort := SMTPPort config;
            senderEmail := SenderEmail config;
            senderPass := SenderPassword config;
            recipientEmail := RecipientEmail config |}
  end.

(** The password as GetEmailConfigFromEnv logs it; [None] is the panic of
    a slice out of range. *)
Definition passwordDisplay (password : gostring) : option gostring :=
  if (0 <? len password) then
    if (8 <? len password) then
      a ← slice password 0 4;
      b ← slice password (len password - 4) (len password);
      Some (a ++ str "..." ++ b)
    else Some (str "***")
  else Some [].

(** GetEmailConfigFromEnv *)
Definition GetEmailConfigFromEnv : W EmailConfig :=
  let smtpPort := 587 in
  let portStr := os_Getenv mw "EMAIL_SMTP_PORT" in
  smtpPort <--
    (if negb (gostring_eqb portStr []) then
       let '(p, err, smtpPort) := Sscanf_d mw portStr smtpPort in
       if bool_decide (err <> None) || negb (p =? 1) then
         wlog (Printf "Invalid SMTP port '%s', using default 587"
                 [AStr portStr]) ;;;
         wret 587
       else wret smtpPort
     else wret smtpPort) ;;
  let smtpHost := os_Getenv mw "EMAIL_SMTP_HOST" in
  let senderEmail := os_Getenv mw "EMAIL_SENDER" in
  let password := os_Getenv mw "EMAIL_PASSWORD" in
  let recipient := os_Getenv mw "EMAIL_RECIPIENT" in
  shown <-- wlift (passwordDisplay password) ;;
  wlog (Printf "Email Configuration: Host=%s, Port=%d, Sender=%s, Token=%s, Recipient=%s"
          [AStr smtpHost; AInt smtpPort; AStr senderEmail; AStr shown;
           AStr recipient]) ;;;
  wret {| SMTPHost := smtpHost; SMTPPort := smtpPort;
          SenderEmail := senderEmail; SenderPassword := password;
          RecipientEmail := recipient |}.

Definition is_movie (c : Content) : bool := gostring_eqb (Type_ c) (str "movie").
Definition is_series (c : Content) : bool :=
  gostring_eqb (Type_ c) (str "series").

(** What a call of NotifyContentUpdate leaves: the lines logged, the call
    of DialAndSend if one was made, and the error returned. *)
Record Notification := mkNotification {
  notify_log : list Event;
  dialed : option (Dialer * Message);
  notify_error : option gostring;
}.

(** EmailNotifier.NotifyContentUpdate *)
Definition NotifyContentUpdate (n : EmailNotifier) (contents : list Content)
           (sourceURLs : list gostring) : Notification :=
  if (len_of contents =? 0) then
    {| notify_log := [Println "No content to notify about" []];
       dialed := None; notify_error := None |}
  else if gostring_eqb (recipientEmail n) [] then
    {| notify_log :=
         [Println "No recipient email configured, skipping notification" []];
       dialed := None; notify_error := None |}
  else
    let line1 :=
      Printf "Email configuration - SMTP Host: %s, Port: %d, Sender: %s, Auth Credentials Length: %d chars"
        [AStr (smtpHost n); AInt (smtpPort n); AStr (senderEmail n);
         AInt (len (senderPass n))] in
    let movies := List.filter is_movie contents in
    let series :=
      List.filter (fun c => negb (is_movie c) && is_series c) contents in
    let hasRatings := existsb (fun c => bool_decide (is_Some (Rating c))) contents in
    let data :=
      {| Date := time_Now_Format mw;
         TotalCount := len_of contents;
         Movies := movies;
         Series := series;
         HasRatings := hasRatings;
         SourcesCount := len_of sourceURLs;
         SourceURLs := Strings.Join sourceURLs (str ", ") |} in
    match template_Execute mw data with
    | Err e =>
        {| notify_log := [line1]; dialed := None;
           notify_error := Some (str "failed to render email template: " ++ e) |}
    | Ok emailBody =>
        let m :=
          {| From := senderEmail n;
             To := recipientEmail n;
             Subject :=
               Sprintf "Cine Pulse: %d New Content Items (%d Movies, %d Series)"
                 [AInt (len_of contents); AInt (len_of movies);
                  AInt (len_of series)];
             text_plain :=
               Sprintf "Cine Pulse Content Update

New content scraped on %s from %d source(s).
Total items: %d (%d movies, %d series)

Sources: %s

This is an automated email from Cine Pulse. Please do not reply."
                 [AStr (Date data); AInt (SourcesCount data);
                  AInt (TotalCount data); AInt (len_of movies);
                  AInt (len_of series); AStr (SourceURLs data)];
             text_html := emailBody |} in
        let d := NewDialer (smtpHost n) (smtpPort n) (str "api") (senderPass n) in
        match DialAndSend mw d m with
        | Some e =>
            {| notify_log := [line1]; dialed := Some (d, m);
               notify_error := Some (str "failed to send email: " ++ e) |}
        | None =>
            {| notify_log :=
                 [line1;
                  Printf "Email notification sent to %s with %d content items"
                    [AStr (recipientEmail n); AInt (len_of contents)]];
               dialed := Some (d, m); notify_error := None |}
        end
    end.

End Notifier.

End Notifier.

(* ===================================================================== *)
(** ** scheduler: NewContentScraperJob; main *)
(* ===================================================================== *)

(** package encoding/json again: json.Unmarshal(data, &v) with [v] a nil
    [[]string]; [None] stands for [err != nil]. *)
Class JSONStrings := {
  Unmarshal_strings : gostring -> option (list gostring);
}.

(** How a call of log.Fatalf ends the program, or what it goes on with. *)
Inductive Ending (A : Type) : Type :=
| Fatalf (format : string) (args : list Arg)
| Goes_on (a : A).
Arguments Fatalf {A} format args.
Arguments Goes_on {A} a.

Section Startup.
Import Notifier.
Context `{Float64} `{!Cron} `{!JSONStrings} `{!OrderBy}.
Variable mw : MailWorld.

(** NewContentScraperJob, as far as it reads the environment: the job, the
    notifier its [emailNotifier] points to (if any), and the lines
    logged. *)
Definition NewContentScraperJob (sourceURLs : list gostring)
  : W (ContentScraperJob * option EmailNotifier) :=
  emailConfig <-- GetEmailConfigFromEnv mw ;;
  if negb (gostring_eqb (SMTPHost emailConfig) [])
     && negb (gostring_eqb (RecipientEmail emailConfig) []) then
    match NewEmailNotifier mw emailConfig with
    | Err e =>
        wlog (Printf "Failed to create email notifier: %v" [AStr e]) ;;;
        wret ({| sourceURLs := sourceURLs; emailNotifier := false;
                 sendEmails := false |}, None)
    | Ok emailNotifier =>
        wlog (Printf "Email notifications will be sent to: %s"
                [AStr (RecipientEmail emailConfig)]) ;;;
        wret ({| sourceURLs := sourceURLs; emailNotifier := true;
                 sendEmails := true |}, Some emailNotifier)
    end
  else
    wlog (Println "Email notifications disabled: missing configuration" []) ;;;
    wret ({| sourceURLs := sourceURLs; emailNotifier := false;
             sendEmails := false |}, None).

(** getSourceURLs *)
Definition getSourceURLs : W (list gostring) :=
  let sourceURLs := [str "https://nkiri.com/"] in
  let sources := os_Getenv mw "SOURCE_URLS" in
  if negb (gostring_eqb sources []) then
    match Unmarshal_strings sources with
    | None =>
        wlog (Printf "Error parsing SOURCE_URLS: %v" []) ;;;
        wret sourceURLs
    | Some additionalSources => wret additionalSources
    end
  else wret sourceURLs.

(** Lines 46 to 58 of main, the scheduler mode up to the start of the
    scheduler: the scheduler and the job are made and the job is added.
    [rest] is what main goes on with from line 60 (the start of the
    scheduler, the run at startup, the wait for a signal). *)
Definition main_scheduler_mode {A} (sourceURLs : list gostring)
           (rest : Scheduler ContentScraperJob -> ContentScraperJob ->
                   option EmailNotifier -> A)
  : W (Ending A) :=
  wlog (Println "Starting in scheduler mode" []) ;;;
  let sched := NewScheduler in
  made <-- NewContentScraperJob sourceURLs ;;
  match AddMorningEveningJob sched made.1 with
  | (_, Some err) =>
      wret (Fatalf "Failed to schedule content scraper job: %v" [AStr err])
  | (sched, None) => wret (Goes_on (rest sched made.1 made.2))
  end.

(** strconv.Itoa, the verb [%d]. *)
Definition Itoa (n : Z) : gostring :=
  if n <? 0 then str "-" ++ Reference.itoa (- n) else Reference.itoa n.

(** The line of displayDatabaseStats for a record: the year is shown in
    parentheses when the record has one. *)
Definition recent_line (content : Content) : Event :=
  let year :=
    match Year content with
    | Some y => str " (" ++ Itoa y ++ str ")"
    | None => []
    end in
  Printf "- %s%s [%s] - %s"
    [AStr (Title content); AStr year; AStr (Type_ content);
     AStr (Category content)].

(** The loop of displayDatabaseStats over the first [limit] records, from
    the [i]-th on; [None] is the panic of an index out of range. *)
Fixpoint recent_lines (allContent : list Content) (i : nat) (n : nat)
  : W unit :=
  match n with
  | O => wret tt
  | S n' =>
      content <-- wlift (allContent !! i) ;;
      wlog (recent_line content) ;;;
      recent_lines allContent (S i) n'
  end.

(** displayDatabaseStats; [stats_fault] and [query_fault] are the errors
    of the database, if any. *)
Definition displayDatabaseStats (stats_fault : nat -> option gostring)
           (query_fault : option gostring) (table : list Row) : W unit :=
  wlog (Println "Database Statistics" []) ;;;
  match GetStats stats_fault table with
  | Err e => wlog (Printf "Error getting database stats: %v" [AStr e])
  | Ok stats =>
      wlog (Printf "Total content: %d" [AInt (stats !!! str "total")]) ;;;
      wlog (Printf "Movies: %d" [AInt (stats !!! str "movies")]) ;;;
      wlog (Printf "Series: %d" [AInt (stats !!! str "series")]) ;;;
      match GetAllContent query_fault table with
      | Err e => wlog (Printf "Error getting content: %v" [AStr e])
      | Ok allContent =>
          let limit := 5 in
          let limit :=
            if (len_of allContent <? limit) then len_of allContent
            else limit in
          wlog (Printf "Recent Content (last %d):" [AInt limit]) ;;;
          recent_lines allContent 0 (Z.to_nat limit)
      end
  end.

End Startup.

(** Two passwords the log line of GetEmailConfigFromEnv cannot tell apart:
    both empty, both of eight bytes or less, or both longer with the same
    first four and last four bytes. *)
Definition same_display (p q : gostring) : Prop :=
  (p = [] /\ q = [])
  \/ (0 < len p <= 8 /\ 0 < len q <= 8)
  \/ (8 < len p /\ 8 < len q /\ take 4 p = take 4 q
      /\ drop (length p - 4) p = drop (length q - 4) q).

(* ===================================================================== *)
(** ** Words for the shape of a response *)
(* ===================================================================== *)

(** ** Words for the texts *)

(** What a pattern can match: [denotes r m rest] says that [r] matches the
    text [m] when [rest] follows it. *)
Fixpoint denotes (r : re) (m rest : gostring) : Prop :=
  match r with
  | Lit l => m = l
  | Cls p => exists c, m = [c] /\ p c = true
  | Star p => forallb p m = true
  | Plus p => m <> [] /\ forallb p m = true
  | Opt r1 => denotes r1 m rest \/ m = []
  | Grp r1 => denotes r1 m rest
  | Seq r1 r2 =>
      exists m1 m2,
        m = m1 ++ m2 /\ denotes r1 m1 (m2 ++ rest) /\ denotes r2 m2 rest
  | Eot => m = [] /\ rest = []
  end.

(** A text that starts with an opening bracket and ends with a closing
    one. *)
Definition bracketed (s : gostring) : Prop :=
  Strings.HasPrefix s (str "[") = true /\ Strings.HasSuffix s (str "]") = true.

(** A record Tier A lets through: the fields it requires are there, the
    category is not the excluded one, no text field holds a double quote,
    the year is a natural number that fits an [int], and the source is not
    set yet. *)
Definition valid_record `{Float64} (c : Content) : Prop :=
  Title c <> [] /\ Category c <> [] /\ Category c <> str "Korean"
  /\ (Type_ c = str "movie" \/ Type_ c = str "series")
  /\ ~ In dq (Title c) /\ ~ In dq (Category c) /\ ~ In dq (ExtraInfo c)
  /\ (forall y, Year c = Some y -> 0 <= y <= MaxInt)
  /\ SourceURL c = None.

(** The line reformatJSON logs when its input is not in brackets. *)
Definition not_an_array_line `{Float64} : Event :=
  Println "Input is not a proper JSON array, returning empty array" [].

(** A line other than that one. *)
Definition another_line `{Float64} (e : Event) : Prop :=
  e <> not_an_array_line.

(** The function leaves a closing bracket at the end of a text that ends
    with one. *)
Definition closing : ascii := "]"%char.
Definition keeps_end (f : gostring -> gostring) : Prop :=
  forall s, last s = Some closing -> last (f s) = Some closing.

(** The function leaves an opening bracket at the head of a text that
    starts with one. *)
Definition opening : ascii := "["%char.
Definition keeps_head (f : gostring -> gostring) : Prop :=
  forall t, exists t', f (opening :: t) = opening :: t'.

(** A byte that is neither a backtick nor a control character. *)
Definition backtick : ascii := "`"%char.
Definition plain (c : ascii) : Prop := c <> backtick /\ control c = false.

(** The literal texts of a replacement template. *)
Definition literals (tm : list titem) : gostring :=
  concat (map (fun i => match i with T l => l | G1 => [] end) tm).

(** ** A reference engine for ORDER BY *)

Module Engine.
Section Engine.
Context `{Float64}.

(** The row is put before the first row that was created earlier. *)
Fixpoint insert_desc (r : Row) (rows : list Row) : list Row :=
  match rows with
  | [] => [r]
  | x :: rest =>
      if created_at x <? created_at r then r :: rows
      else x :: insert_desc r rest
  end.

Definition sort_desc (rows : list Row) : list Row :=
  foldr insert_desc [] rows.

End Engine.
End Engine.

Module MoreInputs.
Import Reference Inputs Notifier.

(** A world in which no API key is set. *)
Definition keyless : World :=
  {| ctx_Err := fun _ => None;
     Scrape := fun _ _ => Ok (str "page");
     Getenv := fun _ _ => [];
     GenerateText := fun _ _ _ => Ok one_movie;
     db_now := fun i _ => 100 + Z.of_nat i;
     db_fault := fun _ _ => NoFault;
     notify_err := None |}.

(** An environment with the mail settings of a deployment. *)
Definition mail_env (password : string) (name : string) : gostring :=
  if String.eqb name "EMAIL_SMTP_HOST" then str "smtp.example"
  else if String.eqb name "EMAIL_SENDER" then str "pulse@example"
  else if String.eqb name "EMAIL_RECIPIENT" then str "me@example"
  else if String.eqb name "EMAIL_PASSWORD" then str password
  else [].

Definition mail_world (password : string) : MailWorld :=
  {| os_Getenv := mail_env password;
     Sscanf_d := fun _ old => (0, Some (str "unexpected EOF"), old);
     template_Parse := None;
     time_Now_Format := str "January 2, 2006 at 3:04 PM";
     template_Execute := fun _ => Ok (str "<html></html>");
     DialAndSend := fun _ _ => None |}.

(** A response with a bracketed array in prose. *)
Definition array_in_prose : gostring :=
  jstr "Here you are: [{'title':'T','type':movie}] Enjoy".

End MoreInputs.

(* ===================================================================== *)
(** * Properties *)
(* ===================================================================== *)

(** ** The scheduler *)

Section SchedulerFacts.
Context {J : Type} `{Job J} `{Cron}.

Lemma AddJob_registered (s : Scheduler J) (spec : gostring) (job : J) :
  is_Some (jobs s !! Name job) ->
  AddJob s spec job = (s, Some (already_registered (Name job))).
Proof.
  intros [j' Hj]. unfold AddJob. rewrite Hj. reflexivity.
Qed.

Lemma AddJob_fresh_ok (s : Scheduler J) (spec : gostring) (job : J) :
  jobs s !! Name job = None ->
  parse_spec spec = None ->
  AddJob s spec job =
    ({| cron := cron s ++ [(spec, job)];
        jobs := <[Name job := job]> (jobs s);
        isRunning := isRunning s |}, None).
Proof.
  intros Hj Hp. unfold AddJob, AddFunc. rewrite Hj, Hp. reflexivity.
Qed.

Lemma AddJob_fresh_refused (s : Scheduler J) (spec e : gostring) (job : J) :
  jobs s !! Name job = None ->
  parse_spec spec = Some e ->
  AddJob s spec job =
    (s, Some (str "failed to add job " ++ Name job ++ str ": " ++ e)).
Proof.
  intros Hj Hp. unfold AddJob, AddFunc. rewrite Hj, Hp. reflexivity.
Qed.

(** C10.  AddMorningEveningJob always returns an error.  When the name is
    not registered yet and cron takes the 10:00 specification, the first
    AddJob registers the name and adds the 10:00 entry, and the error is
    the second AddJob's "job ... already registered"; in every other case
    the scheduler is left as it was.  So the 17:00 specification never
    reaches cron through this method. *)
Theorem AddMorningEveningJob_always_fails (s : Scheduler J) (job : J) :
  let '(s', err) := AddMorningEveningJob s job in
  is_Some err
  /\ match jobs s !! Name job, parse_spec morning with
     | None, None =>
         err = Some (already_registered (Name job))
         /\ jobs s' = <[Name job := job]> (jobs s)
         /\ cron s' = cron s ++ [(morning, job)]
     | None, Some e =>
         err = Some (str "failed to add job " ++ Name job ++ str ": " ++ e)
         /\ s' = s
     | Some _, _ =>
         err = Some (already_registered (Name job)) /\ s' = s
     end
  /\ (forall j', (evening, j') ∈ cron s' -> (evening, j') ∈ cron s).
Proof.
  unfold AddMorningEveningJob. fold morning evening.
  destruct (jobs s !! Name job) as [j0|] eqn:Hj.
  - rewrite AddJob_registered by (rewrite Hj; eauto).
    repeat split; eauto.
  - destruct (parse_spec morning) as [e|] eqn:Hp.
    + rewrite (AddJob_fresh_refused s morning e job Hj Hp).
      repeat split; eauto.
    + rewrite (AddJob_fresh_ok s morning job Hj Hp).
      rewrite AddJob_registered by (cbn; rewrite lookup_insert_eq; eauto).
      cbn. repeat split; eauto.
      intros j' Hin. apply elem_of_app in Hin as [Hin|Hin]; [exact Hin|].
      apply list_elem_of_singleton in Hin. inversion Hin.
Qed.

End SchedulerFacts.

(** ** The upsert *)

Section StorageFacts.
Context `{Float64} `{!Strconv}.

Lemma gostring_eqb_eq (a b : gostring) : gostring_eqb a b = true <-> a = b.
Proof. unfold gostring_eqb. apply bool_decide_eq_true. Qed.

Lemma gostring_eqb_neq (a b : gostring) : gostring_eqb a b = false <-> a <> b.
Proof. unfold gostring_eqb. apply bool_decide_eq_false. Qed.

Lemma gostring_eqb_refl (a : gostring) : gostring_eqb a a = true.
Proof. apply gostring_eqb_eq. reflexivity. Qed.

Lemma SaveContent_present (now : Z) (content : Content) (tbl : list Row) :
  existsb (same_key content) tbl = true ->
  SaveContent now NoFault content tbl = (map (upserted now content) tbl, None).
Proof. intros E. unfold SaveContent. rewrite E. reflexivity. Qed.

Lemma SaveContent_absent (now : Z) (content : Content) (tbl : list Row) :
  existsb (same_key content) tbl = false ->
  SaveContent now NoFault content tbl = (tbl ++ [insert_row now content], None).
Proof. intros E. unfold SaveContent. rewrite E. reflexivity. Qed.

Lemma upserted_absent (now : Z) (content : Content) (tbl : list Row) :
  existsb (same_key content) tbl = false ->
  map (upserted now content) tbl = tbl.
Proof.
  induction tbl as [|r tbl IH]; cbn; [reflexivity|].
  intros E. apply orb_false_iff in E as [E1 E2].
  unfold upserted at 1. rewrite E1, IH by exact E2. reflexivity.
Qed.

Lemma same_key_ext (c1 c2 : Content) (r : Row) :
  Title c2 = Title c1 -> Type_ c2 = Type_ c1 ->
  same_key c2 r = same_key c1 r.
Proof. intros E1 E2. unfold same_key. rewrite E1, E2. reflexivity. Qed.

Lemma existsb_same_key_ext (c1 c2 : Content) (tbl : list Row) :
  Title c2 = Title c1 -> Type_ c2 = Type_ c1 ->
  existsb (same_key c2) tbl = existsb (same_key c1) tbl.
Proof.
  intros E1 E2. induction tbl as [|r tbl IH]; cbn; [reflexivity|].
  rewrite IH, (same_key_ext c1 c2) by assumption. reflexivity.
Qed.

(** C7.  The upsert by natural key (title, type), when the database does
    not fail.  (1) No stored row has the key: one row is appended, with
    every field of the record, its source URL included, and the three
    timestamps equal to the current time.  (2) A stored row has the key:
    no row is added or removed; a row with the key gets the record's year,
    category, extra_info, rating and source_url and the current time as
    updated_at, and keeps its title, type, created_at and scraped_at; every
    other row is untouched.  (3) So a second save of the same key at [t2]
    after a first save at [t1] leaves created_at and scraped_at at [t1]
    while year and updated_at are those of the second save. *)
Theorem SaveContent_upsert (t1 t2 : Z) (c1 c2 : Content) (tbl : list Row) :
  (existsb (same_key c1) tbl = false ->
   exists r,
     SaveContent t1 NoFault c1 tbl = (tbl ++ [r], None)
     /\ title r = Title c1 /\ year r = Year c1 /\ category r = Category c1
     /\ extra_info r = ExtraInfo c1 /\ type r = Type_ c1
     /\ rating r = Rating c1 /\ source_url r = SourceURL c1
     /\ created_at r = t1 /\ updated_at r = t1 /\ scraped_at r = t1)
  /\ (existsb (same_key c1) tbl = true ->
      exists tbl',
        SaveContent t1 NoFault c1 tbl = (tbl', None)
        /\ length tbl' = length tbl
        /\ forall (n : nat) (r : Row), tbl !! n = Some r ->
             exists r', tbl' !! n = Some r'
               /\ title r' = title r /\ type r' = type r
               /\ created_at r' = created_at r /\ scraped_at r' = scraped_at r
               /\ (same_key c1 r = true ->
                   year r' = Year c1 /\ category r' = Category c1
                   /\ extra_info r' = ExtraInfo c1 /\ rating r' = Rating c1
                   /\ source_url r' = SourceURL c1 /\ updated_at r' = t1)
               /\ (same_key c1 r = false -> r' = r))
  /\ (existsb (same_key c1) tbl = false ->
      Title c2 = Title c1 -> Type_ c2 = Type_ c1 ->
      (SaveContent t2 NoFault c2 (SaveContent t1 NoFault c1 tbl).1).1
      = tbl ++ [ {| title := Title c1; year := Year c2;
                    category := Category c2; extra_info := ExtraInfo c2;
                    type := Type_ c1; rating := Rating c2;
                    source_url := SourceURL c2;
                    scraped_at := t1; created_at := t1;
                    updated_at := t2 |} ]).
Proof.
  split; [|split].
  - intros E. exists (insert_row t1 c1). rewrite SaveContent_absent by exact E.
    cbn. repeat split; reflexivity.
  - intros E. exists (map (upserted t1 c1) tbl).
    rewrite SaveContent_present by exact E.
    split; [reflexivity|]. split; [apply length_map|].
    intros n r Hn. exists (upserted t1 c1 r).
    change (map (upserted t1 c1) tbl) with (upserted t1 c1 <$> tbl).
    rewrite list_lookup_fmap, Hn. split; [reflexivity|].
    unfold upserted. destruct (same_key c1 r); cbn;
      repeat split; intros; try discriminate; reflexivity.
  - intros E HT HY.
    rewrite (SaveContent_absent t1 c1 tbl E). cbn [fst].
    rewrite SaveContent_present.
    + cbn [fst]. rewrite map_app, upserted_absent.
      * cbn. unfold upserted, same_key, insert_row. cbn.
        rewrite HT, HY, !gostring_eqb_refl. cbn. reflexivity.
      * rewrite (existsb_same_key_ext c1 c2) by assumption. exact E.
    + rewrite existsb_app. cbn. unfold same_key at 2. cbn.
      rewrite HT, HY, !gostring_eqb_refl. cbn. apply orb_true_r.
Qed.

End StorageFacts.

(** ** The validator of Tier A *)

Section MatcherFacts.

Lemma star_k_inv {A} (p : ascii -> bool) (s : gostring)
      (k : gostring -> option A) (x : A) :
  star_k p s k = Some x ->
  exists rest, (length rest <= length s)%nat /\ k rest = Some x.
Proof.
  induction s as [|c t IH]; cbn; intros E.
  - exists []. split; [cbn; lia|exact E].
  - destruct (p c).
    + destruct (star_k p t k) as [y|] eqn:Ek.
      * injection E as <-. destruct (IH eq_refl) as (rest & Hl & Hk).
        exists rest. split; [cbn; lia|exact Hk].
      * exists (c :: t). split; [cbn; lia|exact E].
    + exists (c :: t). split; [cbn; lia|exact E].
Qed.

Lemma FindStringSubmatch_inv (r : re) (s m g : gostring) :
  FindStringSubmatch r s = Some (m, g) ->
  exists s', match_here r s' = Some (m, g).
Proof.
  induction s as [|c t IH]; cbn; intros E.
  - destruct (match_here r []) eqn:Em; [|discriminate].
    injection E as ->. eauto.
  - destruct (match_here r (c :: t)) eqn:Em.
    + injection E as ->. eauto.
    + auto.
Qed.

(** A quoted field never captures the empty string: the group is one or
    more characters. *)
Lemma quoted_field_nonempty (label : string) (s m g : gostring) :
  FindStringSubmatch (quoted_field label) s = Some (m, g) -> g <> [].
Proof.
  intros E. apply FindStringSubmatch_inv in E as [s' E].
  unfold match_here, quoted_field in E. cbn [rmatch] in E.
  destruct (Strings.HasPrefix s' (jstr label)); [|discriminate].
  apply star_k_inv in E as (r1 & _ & E).
  destruct (Strings.HasPrefix r1 [dq]); [|discriminate].
  destruct (drop (length [dq]) r1) as [|c t] eqn:Ed; [discriminate|].
  destruct (non quote c); [|discriminate].
  apply star_k_inv in E as (r2 & Hl & E).
  destruct (Strings.HasPrefix r2 [dq]); [|discriminate].
  injection E as _ <-. cbn [default].
  replace (S (length t) - length r2)%nat
    with (S (length t - length r2)) by lia.
  cbn. discriminate.
Qed.

End MatcherFacts.

Section ValidatorFacts.
Context `{Float64} `{!Strconv}.

Lemma group1_quoted_present (label : string) (obj : gostring) :
  present (group1 (quoted_field label) obj) = group1 (quoted_field label) obj.
Proof.
  unfold group1.
  destruct (FindStringSubmatch (quoted_field label) obj) as [[m g]|] eqn:E;
    [|reflexivity].
  apply quoted_field_nonempty in E. cbn. destruct g; [contradiction|reflexivity].
Qed.

(** C4.  The loop body of extractContentManually is the validator of the
    specification applied to the field bag of the block: a block is
    rejected exactly when its title is absent or empty, its category is
    absent, empty or equal to Korean (an exact, case-sensitive
    comparison), or its type is not exactly movie or series.  An absent
    extra_info is the empty string, a year or rating that does not parse
    is dropped, and neither rejects the record.  So every accepted record
    has a non-empty title, a non-empty category other than Korean, and the
    type movie or series. *)
Theorem extractObject_validates (obj : gostring) :
  extractObject obj = accepted (RecordValidator_spec (bag_of obj))
  /\ (forall c, extractObject obj = Some c ->
        Title c <> [] /\ Category c <> []
        /\ Category c <> str "Korean"
        /\ (Type_ c = str "movie" \/ Type_ c = str "series")
        /\ ExtraInfo c = default [] (bag_extra_info (bag_of obj))
        /\ Year c = bag_year (bag_of obj) ≫= Atoi
        /\ Rating c = bag_rating (bag_of obj) ≫= ParseFloat).
Proof.
  assert (Heq : extractObject obj = accepted (RecordValidator_spec (bag_of obj))).
  { unfold extractObject, RecordValidator_spec, bag_of; cbn [bag_title
      bag_year bag_category bag_extra_info bag_type bag_rating].
    unfold titlePattern, categoryPattern.
    rewrite !group1_quoted_present. unfold group1.
    destruct (FindStringSubmatch (quoted_field "'title':") obj)
      as [[m1 title]|]; [|reflexivity]. cbn [fmap option_fmap option_map snd].
    destruct (FindStringSubmatch (quoted_field "'category':") obj)
      as [[m2 category]|]; [|reflexivity]. cbn [fmap option_fmap option_map snd].
    destruct (gostring_eqb category (str "Korean")); [reflexivity|].
    destruct (FindStringSubmatch typePattern obj) as [[m3 type]|];
      [|reflexivity]. cbn [fmap option_fmap option_map snd].
    destruct (gostring_eqb type (str "movie")),
      (gostring_eqb type (str "series")); cbn [negb andb orb accepted];
      try reflexivity;
      destruct (FindStringSubmatch yearPattern obj) as [[? ?]|],
        (FindStringSubmatch extraInfoPattern obj) as [[? ?]|],
        (FindStringSubmatch ratingPattern obj) as [[? ?]|]; reflexivity. }
  split; [exact Heq|].
  intros c Hc. rewrite Heq in Hc. unfold RecordValidator_spec in Hc.
  destruct (present (bag_title (bag_of obj))) as [title|] eqn:Et;
    [|discriminate].
  destruct (present (bag_category (bag_of obj))) as [category|] eqn:Ec;
    [|discriminate].
  destruct (gostring_eqb category (str "Korean")) eqn:Ek; [discriminate|].
  destruct (bag_type (bag_of obj)) as [type|]; [|discriminate].
  destruct (gostring_eqb type (str "movie")) eqn:Em;
    [|destruct (gostring_eqb type (str "series")) eqn:Es; [|discriminate]];
    injection Hc as <-; cbn.
  all: repeat split; try reflexivity.
  all: try (destruct (bag_title (bag_of obj)) as [[|? ?]|];
            cbn in Et; congruence).
  all: try (destruct (bag_category (bag_of obj)) as [[|? ?]|];
            cbn in Ec; congruence).
  all: try (apply gostring_eqb_neq; exact Ek).
  - left. apply gostring_eqb_eq. exact Em.
  - right. apply gostring_eqb_eq. exact Es.
Qed.

End ValidatorFacts.

(** ** Strings and slices *)

Section StringFacts.

Lemma HasPrefix_length (s p : gostring) :
  Strings.HasPrefix s p = true -> (length p <= length s)%nat.
Proof.
  revert s. induction p as [|a p IH]; intros [|c s]; cbn; try lia;
    try discriminate.
  intros E. apply andb_true_iff in E as [_ E]. apply IH in E. lia.
Qed.

Lemma index_from_bounds (sub s : gostring) (i : Z) :
  let r := Strings.index_from sub s i in
  r = -1 \/ (i <= r /\ r - i + len sub <= len s).
Proof.
  revert i. induction s as [|c t IH]; intros i; cbn [Strings.index_from].
  - destruct sub; cbn; [right; unfold len; cbn; lia|left; reflexivity].
  - destruct (Strings.HasPrefix (c :: t) sub) eqn:E.
    + right. apply HasPrefix_length in E. unfold len. lia.
    + destruct (IH (i + 1)) as [->|[H1 H2]]; [left; reflexivity|].
      right. unfold len in *. cbn [length]. lia.
Qed.

Lemma last_index_from_bounds (sub s : gostring) (i last : Z) :
  let r := Strings.last_index_from sub s i last in
  r = last \/ (i <= r /\ r - i + len sub <= len s).
Proof.
  revert i last. induction s as [|c t IH]; intros i last;
    cbn [Strings.last_index_from].
  - destruct sub; cbn; [right; unfold len; cbn; lia|left; reflexivity].
  - destruct (Strings.HasPrefix (c :: t) sub) eqn:E.
    + destruct (IH (i + 1) i) as [->|[H1 H2]].
      * right. apply HasPrefix_length in E. unfold len. lia.
      * right. unfold len in *. cbn [length]. lia.
    + destruct (IH (i + 1) last) as [->|[H1 H2]]; [left; reflexivity|].
      right. unfold len in *. cbn [length]. lia.
Qed.

(** An index that is not -1 lies inside the string. *)
Lemma Index_bounds (s sub : gostring) :
  Strings.Index s sub = -1
  \/ (0 <= Strings.Index s sub /\ Strings.Index s sub + len sub <= len s).
Proof.
  unfold Strings.Index.
  destruct (index_from_bounds sub s 0) as [E|[H1 H2]]; [left; exact E|].
  right. lia.
Qed.

Lemma LastIndex_bounds (s sub : gostring) :
  Strings.LastIndex s sub = -1
  \/ (0 <= Strings.LastIndex s sub
      /\ Strings.LastIndex s sub + len sub <= len s).
Proof.
  unfold Strings.LastIndex.
  destruct (last_index_from_bounds sub s 0 (-1)) as [E|[H1 H2]];
    [left; exact E|].
  right. lia.
Qed.

Lemma index_from_first (sub s : gostring) (i : Z) :
  0 <= i ->
  let r := Strings.index_from sub s i in
  (r = -1 /\ forall k, (k <= length s)%nat ->
                       Strings.HasPrefix (drop k s) sub = false)
  \/ (i <= r
      /\ Strings.HasPrefix (drop (Z.to_nat (r - i)) s) sub = true
      /\ forall k, (k < Z.to_nat (r - i))%nat ->
                   Strings.HasPrefix (drop k s) sub = false).
Proof.
  revert i. induction s as [|c t IH]; intros i Hi; cbn [Strings.index_from].
  - destruct (Strings.HasPrefix [] sub) eqn:E.
    + right. rewrite Z.sub_diag. cbn [Z.to_nat drop].
      split; [lia|]. split; [exact E|]. intros k Hk. lia.
    + left. split; [reflexivity|]. intros k _. rewrite drop_nil. exact E.
  - destruct (Strings.HasPrefix (c :: t) sub) eqn:E.
    + right. rewrite Z.sub_diag. cbn [Z.to_nat drop].
      split; [lia|]. split; [exact E|]. intros k Hk. lia.
    + destruct (IH (i + 1) ltac:(lia)) as [[E1 Hn]|(H1 & H2 & H3)].
      * left. split; [exact E1|]. intros [|k] Hk; [exact E|].
        cbn [drop]. apply Hn. cbn in Hk. lia.
      * right. split; [lia|].
        replace (Z.to_nat (Strings.index_from sub t (i + 1) - i))
          with (S (Z.to_nat (Strings.index_from sub t (i + 1) - (i + 1))))
          by lia.
        cbn [drop]. split; [exact H2|].
        intros [|k] Hk; [exact E|]. cbn [drop]. apply H3. lia.
Qed.

(** strings.Index is the first occurrence: the substring is there, and at
    no smaller offset; -1 means it is nowhere. *)
Lemma Index_first (s sub : gostring) :
  let i := Strings.Index s sub in
  (i = -1 /\ forall k, (k <= length s)%nat ->
                       Strings.HasPrefix (drop k s) sub = false)
  \/ (0 <= i
      /\ Strings.HasPrefix (drop (Z.to_nat i) s) sub = true
      /\ forall k, (k < Z.to_nat i)%nat ->
                   Strings.HasPrefix (drop k s) sub = false).
Proof.
  unfold Strings.Index.
  destruct (index_from_first sub s 0 ltac:(lia)) as [H|H]; [left; exact H|].
  right. rewrite Z.sub_0_r in H. exact H.
Qed.

Lemma last_index_from_last (sub s : gostring) (i last : Z) :
  0 <= i -> last < i ->
  let r := Strings.last_index_from sub s i last in
  (r = last /\ forall k, (k <= length s)%nat ->
                         Strings.HasPrefix (drop k s) sub = false)
  \/ (i <= r
      /\ Strings.HasPrefix (drop (Z.to_nat (r - i)) s) sub = true
      /\ forall k, (Z.to_nat (r - i) < k <= length s)%nat ->
                   Strings.HasPrefix (drop k s) sub = false).
Proof.
  revert i last. induction s as [|c t IH]; intros i last Hi Hl;
    cbn [Strings.last_index_from].
  - destruct (Strings.HasPrefix [] sub) eqn:E.
    + right. rewrite Z.sub_diag. cbn [Z.to_nat drop length].
      split; [lia|]. split; [exact E|]. intros k Hk. lia.
    + left. split; [reflexivity|]. intros k _. rewrite drop_nil. exact E.
  - destruct (Strings.HasPrefix (c :: t) sub) eqn:E.
    + right.
      destruct (IH (i + 1) i ltac:(lia) ltac:(lia)) as [[E1 Hn]|(H1 & H2 & H3)].
      * rewrite E1, Z.sub_diag. cbn [Z.to_nat drop].
        split; [lia|]. split; [exact E|].
        intros [|k] Hk; [lia|]. cbn [drop]. apply Hn. cbn in Hk. lia.
      * split; [lia|].
        replace (Z.to_nat (Strings.last_index_from sub t (i + 1) i - i))
          with (S (Z.to_nat (Strings.last_index_from sub t (i + 1) i - (i + 1))))
          by lia.
        cbn [drop]. split; [exact H2|].
        intros [|k] Hk; [lia|]. cbn [drop]. apply H3. cbn in Hk. lia.
    + destruct (IH (i + 1) last ltac:(lia) ltac:(lia))
        as [[E1 Hn]|(H1 & H2 & H3)].
      * left. split; [exact E1|]. intros [|k] Hk; [exact E|].
        cbn [drop]. apply Hn. cbn in Hk. lia.
      * right. split; [lia|].
        replace (Z.to_nat (Strings.last_index_from sub t (i + 1) last - i))
          with (S (Z.to_nat (Strings.last_index_from sub t (i + 1) last - (i + 1))))
          by lia.
        cbn [drop]. split; [exact H2|].
        intros [|k] Hk; [lia|]. cbn [drop]. apply H3. cbn in Hk. lia.
Qed.

(** strings.LastIndex is the last occurrence: the substring is there, and
    at no greater offset; -1 means it is nowhere. *)
Lemma LastIndex_last (s sub : gostring) :
  let j := Strings.LastIndex s sub in
  (j = -1 /\ forall k, (k <= length s)%nat ->
                       Strings.HasPrefix (drop k s) sub = false)
  \/ (0 <= j
      /\ Strings.HasPrefix (drop (Z.to_nat j) s) sub = true
      /\ forall k, (Z.to_nat j < k <= length s)%nat ->
                   Strings.HasPrefix (drop k s) sub = false).
Proof.
  unfold Strings.LastIndex.
  destruct (last_index_from_last sub s 0 (-1) ltac:(lia) ltac:(lia))
    as [H|H]; [left; exact H|].
  right. rewrite Z.sub_0_r in H. exact H.
Qed.

Lemma slice_in_range (s : gostring) (lo hi : Z) :
  0 <= lo -> lo <= hi -> hi <= len s ->
  slice s lo hi = Some (take (Z.to_nat (hi - lo)) (drop (Z.to_nat lo) s)).
Proof.
  intros H1 H2 H3. unfold slice.
  destruct (0 <=? lo) eqn:E1; [|lia].
  destruct (lo <=? hi) eqn:E2; [|lia].
  destruct (hi <=? len s) eqn:E3; [|lia]. reflexivity.
Qed.

(** truncateString does not panic. *)
Lemma truncateString_total (s : gostring) (maxLen : Z) :
  0 <= maxLen -> is_Some (truncateString s maxLen).
Proof.
  intros Hm. unfold truncateString.
  destruct (len s <=? maxLen) eqn:E; [eauto|].
  rewrite slice_in_range by lia. cbn. eauto.
Qed.

(** A string that starts with one byte and ends with another has two
    bytes at least. *)
Lemma bracketed_length (s : gostring) :
  Strings.HasPrefix s (str "[") = true ->
  Strings.HasSuffix s (str "]") = true ->
  2 <= len s.
Proof.
  unfold len. destruct s as [|a [|b t]].
  - discriminate.
  - intros E1 E2.
    destruct a as [[] [] [] [] [] [] [] []]; vm_compute in E1, E2;
      discriminate.
  - intros _ _. cbn [length]. lia.
Qed.

End StringFacts.

(** ** Computations that log *)

Section WFacts.
Context `{Float64} `{!Strconv}.

Lemma result_of_bind {A B} (m : W A) (f : A -> W B) :
  result_of (wbind m f) = result_of m ≫= (fun a => result_of (f a)).
Proof.
  destruct m as [[a l]|]; cbn; [|reflexivity].
  destruct (f a) as [[b l']|]; reflexivity.
Qed.

Lemma result_of_log {B} (e : Event) (k : unit -> W B) :
  result_of (wbind (wlog e) k) = result_of (k tt).
Proof. rewrite result_of_bind. reflexivity. Qed.

Lemma result_of_ret {A} (a : A) : result_of (wret a) = Some a.
Proof. reflexivity. Qed.

Lemma result_of_lift {A} (o : option A) : result_of (wlift o) = o.
Proof. destruct o; reflexivity. Qed.

Lemma is_Some_result_of {A} (m : W A) : is_Some (result_of m) <-> is_Some m.
Proof. destruct m as [[a l]|]; cbn; split; intros [x E]; eauto; discriminate. Qed.

Lemma wbind_total {A B} (m : W A) (f : A -> W B) :
  is_Some m -> (forall a, is_Some (f a)) -> is_Some (wbind m f).
Proof.
  intros [[a l] ->] Hf. cbn. destruct (Hf a) as [[b l'] ->]. eauto.
Qed.

Lemma wlog_total (e : Event) : is_Some (wlog e).
Proof. cbn. eauto. Qed.

Lemma wret_total {A} (a : A) : is_Some (wret a).
Proof. cbn. eauto. Qed.

Lemma wlift_total {A} (o : option A) : is_Some o -> is_Some (wlift o).
Proof. intros [a ->]. cbn. eauto. Qed.

End WFacts.

Ltac total :=
  repeat first
    [ apply wret_total
    | apply wlog_total
    | apply wbind_total; [|intros ?]
    | apply wlift_total ].

(** ** The normalization pipeline never panics *)

Section Totality.
Context `{Float64} `{!Strconv} `{!EncodingJSON}.

Lemma reformat_parts_total (parts : list gostring) :
  is_Some (reformat_parts parts).
Proof.
  induction parts as [|part rest IH]; cbn [reformat_parts]; [total|].
  destruct (Unmarshal_map (as_object part)); total; exact IH.
Qed.

Lemma reformatJSON_total (input : gostring) : is_Some (reformatJSON input).
Proof.
  unfold reformatJSON.
  destruct (Strings.HasPrefix input (str "[")) eqn:E1; cbn [negb orb];
    [|total].
  destruct (Strings.HasSuffix input (str "]")) eqn:E2; cbn [negb]; [|total].
  pose proof (bracketed_length input E1 E2).
  total.
  - rewrite slice_in_range by lia. eauto.
  - apply reformat_parts_total.
  - destruct (0 <? Z.of_nat (length a0)); total.
Qed.

Lemma preprocessModelResponse_total (response : gostring) :
  is_Some (preprocessModelResponse response).
Proof.
  unfold preprocessModelResponse.
  set (r := Strings.ReplaceAll (Strings.ReplaceAll response _ _) _ _).
  total; [apply truncateString_total; lia|].
  destruct (Z.eqb_spec (Strings.Index r (str "[")) (-1)) as [Ei|Ei].
  - total.
    destruct (Z.eqb_spec (Strings.Index r (str "{")) (-1)) as [Eo|Eo];
      cbn [negb]; [total|].
    total.
    destruct (Z.eqb_spec (Strings.LastIndex r (str "}")) (-1)) as [Ep|Ep];
      cbn [negb andb]; [total|].
    destruct (Z.ltb_spec (Strings.Index r (str "{"))
                (Strings.LastIndex r (str "}"))) as [Elt|Elt]; [|total].
    total.
    destruct (Index_bounds r (str "{")) as [?|[? ?]]; [lia|].
    destruct (LastIndex_bounds r (str "}")) as [?|[? Hj]]; [lia|].
    change (len (str "}")) with 1 in Hj.
    rewrite slice_in_range by lia. eauto.
  - destruct (Z.eqb_spec (Strings.LastIndex r (str "]")) (-1)) as [Ej|Ej];
      cbn [orb]; [total|].
    destruct (Z.leb_spec (Strings.LastIndex r (str "]"))
                (Strings.Index r (str "["))) as [Ele|Ele]; [total|].
    destruct (Index_bounds r (str "[")) as [?|[? ?]]; [lia|].
    destruct (LastIndex_bounds r (str "]")) as [?|[? Hj]]; [lia|].
    change (len (str "]")) with 1 in Hj.
    rewrite slice_in_range by lia. cbn [wlift].
    total; [apply truncateString_total; lia|].
    destruct (Unmarshal_interfaces _); [total|]. total.
    destruct (Unmarshal_interfaces _); [total|]. total.
    apply reformatJSON_total.
Qed.

Lemma geminiContents_total (response : gostring) :
  is_Some (geminiContents response).
Proof.
  unfold geminiContents. apply wbind_total.
  - unfold extractContentManually. total.
  - intros contents.
    destruct (Z.of_nat (length contents) =? 0); [|total].
    apply wbind_total; [apply preprocessModelResponse_total|].
    intros processed. destruct (Unmarshal_contents processed); total;
      apply truncateString_total; lia.
Qed.

Lemma openaiContents_total (response : gostring) :
  is_Some (openaiContents response).
Proof.
  unfold openaiContents.
  apply wbind_total; [apply preprocessModelResponse_total|].
  intros processed. destruct (Unmarshal_contents processed); total.
Qed.

End Totality.

(** ** Tier B against the specification *)

Section TierBFacts.
Context `{Float64} `{!Strconv} `{!EncodingJSON}.

Lemma fix_quotes_is_sequence (s : gostring) :
  fix_quotes s = apply_in_order narrow_sequence_spec s.
Proof. reflexivity. Qed.

Lemma parse_or_retry_code (jsonPart : gostring) :
  let success (n : Z) (s : gostring) : W gostring :=
    wlog (Printf "Successfully extracted valid JSON array with %d items"
            [AInt n]) ;;;
    wret s in
  result_of
    match Unmarshal_interfaces jsonPart with
    | Some n => success n jsonPart
    | None =>
        wlog (Printf "Extracted JSON is not valid: %v" []) ;;;
        match Unmarshal_interfaces (fix_quotes jsonPart) with
        | Some n => success n (fix_quotes jsonPart)
        | None =>
            wlog (Printf "JSON is still invalid after fixes: %v" []) ;;;
            wlog (Println "Full JSON extract: " [AStr (fix_quotes jsonPart)]) ;;;
            reformatJSON (fix_quotes jsonPart)
        end
    end
  = parse_or_retry jsonPart.
Proof.
  intros success. unfold parse_or_retry, parses.
  change (apply_in_order narrow_sequence_spec jsonPart)
    with (fix_quotes jsonPart).
  destruct (Unmarshal_interfaces jsonPart) as [n|].
  - rewrite bool_decide_eq_true_2 by eauto. reflexivity.
  - rewrite bool_decide_eq_false_2 by (intros [? ?]; discriminate).
    rewrite result_of_log.
    destruct (Unmarshal_interfaces (fix_quotes jsonPart)) as [n|].
    + rewrite bool_decide_eq_true_2 by eauto. reflexivity.
    + rewrite bool_decide_eq_false_2 by (intros [? ?]; discriminate).
      rewrite !result_of_log. reflexivity.
Qed.

End TierBFacts.

(** ** The pipeline: short circuit and graceful degradation *)

Section PipelineFacts.
Context `{Float64} `{!Strconv} `{!EncodingJSON}.

Lemma wbind_wlift_Some {A B} (a : A) (f : A -> W B) :
  wbind (wlift (Some a)) f = f a.
Proof. cbn. destruct (f a) as [[b l]|]; reflexivity. Qed.

Lemma wbind_wlog_inv {B} (e : Event) (k : unit -> W B) (out : B)
      (evs : list Event) :
  wbind (wlog e) k = Some (out, evs) -> exists rest, evs = e :: rest.
Proof.
  cbn. destruct (k tt) as [[b l]|]; [|discriminate].
  intros E. injection E as _ <-. eauto.
Qed.

(** Tier B cannot run unseen: its first statement logs. *)
Lemma preprocessModelResponse_logs_first (response : gostring) :
  exists e rest,
    log_of (preprocessModelResponse response) = e :: rest
    /\ tierB_first_line e.
Proof.
  destruct (preprocessModelResponse_total response) as [[out evs] E].
  rewrite E. unfold preprocessModelResponse in E.
  destruct (truncateString_total response 200 ltac:(lia)) as [t Ht].
  rewrite Ht, wbind_wlift_Some in E.
  apply wbind_wlog_inv in E as [rest ->].
  cbn. eexists _, _. split; [reflexivity|]. exists t. reflexivity.
Qed.

(** C6.  When Tier A yields at least one record for a response, what
    becomes of the response is Tier A's result, value and log: the records
    are Tier A's sequence, and the log holds the two lines of Tier A and
    nothing else, so no statement of Tier B (whose first statement always
    logs) or of Tier C (which only Tier B calls) was executed. *)
Theorem tierA_short_circuit (response : gostring) :
  let objects := FindAllString objectPattern response in
  let contents := omap extractObject objects in
  contents <> [] ->
  geminiContents response = extractContentManually response
  /\ result_of (geminiContents response) = Some contents
  /\ log_of (geminiContents response)
     = [Printf "Found %d potential content objects in response"
          [AInt (Z.of_nat (length objects))];
        Printf "Manually extracted %d valid content items"
          [AInt (Z.of_nat (length contents))]]
  /\ Forall (fun e => ~ tierB_first_line e) (log_of (geminiContents response)).
Proof.
  intros objects contents Hne.
  assert (E : geminiContents response = extractContentManually response).
  { unfold geminiContents, extractContentManually. fold objects. fold contents.
    cbn. destruct contents as [|c cs]; [contradiction|].
    cbn. reflexivity. }
  rewrite E. unfold extractContentManually. fold objects. fold contents. cbn.
  repeat split.
  repeat constructor; intros [t Ht]; discriminate.
Qed.

Lemma reformat_parts_none (parts : list gostring) :
  Forall (fun part => Unmarshal_map (as_object part) = None) parts ->
  result_of (reformat_parts parts) = Some [].
Proof.
  induction 1 as [|part rest Hp _ IH]; cbn [reformat_parts]; [reflexivity|].
  rewrite Hp, result_of_log. exact IH.
Qed.

Lemma reformatJSON_none (input : gostring) :
  Forall (fun fragment => Unmarshal_map fragment = None) (fragments input) ->
  result_of (reformatJSON input) = Some (str "[]").
Proof.
  intros Hall. unfold reformatJSON.
  destruct (Strings.HasPrefix input (str "[")) eqn:E1; cbn [negb orb];
    [|rewrite result_of_log; reflexivity].
  destruct (Strings.HasSuffix input (str "]")) eqn:E2; cbn [negb];
    [|rewrite result_of_log; reflexivity].
  pose proof (bracketed_length input E1 E2).
  unfold fragments in Hall. rewrite slice_in_range in * by lia.
  rewrite result_of_bind, result_of_lift. cbn [mbind option_bind].
  rewrite result_of_bind, reformat_parts_none.
  - reflexivity.
  - apply Forall_map in Hall. exact Hall.
Qed.

(** C9.  Whatever the response, what becomes of it is a value: neither
    the pipeline of a Gemini response nor that of an OpenAI response
    panics, and each returns a sequence of records.  When none of the
    fragments of Tier C parses, Tier C returns the empty array; and when
    preprocessModelResponse returns the empty array, the records are the
    empty sequence (for Gemini: when Tier A found none either). *)
Theorem pipeline_degrades_gracefully (response : gostring) :
  Unmarshal_contents (str "[]") = Some [] ->
  (exists contents evs, geminiContents response = Some (contents, evs))
  /\ (exists contents evs, openaiContents response = Some (contents, evs))
  /\ (forall input,
        Forall (fun fragment => Unmarshal_map fragment = None)
          (fragments input) ->
        result_of (reformatJSON input) = Some (str "[]"))
  /\ (result_of (preprocessModelResponse response) = Some (str "[]") ->
      result_of (openaiContents response) = Some []
      /\ (result_of (extractContentManually response) = Some [] ->
          result_of (geminiContents response) = Some [])).
Proof.
  intros Hempty. split; [|split; [|split]].
  - destruct (geminiContents_total response) as [[cs evs] E]. eauto.
  - destruct (openaiContents_total response) as [[cs evs] E]. eauto.
  - apply reformatJSON_none.
  - intros HB. split.
    + unfold openaiContents. rewrite result_of_bind, HB.
      cbn [mbind option_bind]. rewrite Hempty. reflexivity.
    + intros HA. unfold geminiContents. rewrite result_of_bind, HA.
      cbn [mbind option_bind].
      change (Z.of_nat (length (@nil Content)) =? 0) with true. cbn iota.
      rewrite result_of_bind, HB. cbn [mbind option_bind].
      rewrite Hempty. reflexivity.
Qed.

End PipelineFacts.

(** ** What the tiers and the providers log *)

Section LogFacts.
Context `{Float64} `{!Strconv} `{!EncodingJSON}.

Lemma logs_only_ret P {A} (a : A) : logs_only P (wret a).
Proof. constructor. Qed.

Lemma logs_only_lift P {A} (o : option A) : logs_only P (wlift o).
Proof. destruct o; constructor. Qed.

Lemma logs_only_log (P : Event -> Prop) (e : Event) : P e -> logs_only P (wlog e).
Proof. intros He. repeat constructor. exact He. Qed.

Lemma logs_only_bind P {A B} (m : W A) (f : A -> W B) :
  logs_only P m -> (forall a, logs_only P (f a)) -> logs_only P (wbind m f).
Proof.
  unfold logs_only. destruct m as [[a l]|]; cbn; [|constructor].
  intros Hm Hf. specialize (Hf a).
  destruct (f a) as [[b l']|]; cbn in *; [|constructor].
  apply Forall_app. split; assumption.
Qed.

Ltac quiet_line := cbn; first [exact Logic.I | discriminate].

Ltac logs :=
  repeat first
    [ apply logs_only_ret
    | apply logs_only_lift
    | apply logs_only_log; quiet_line
    | apply logs_only_bind; [|intros ?] ].

Lemma reformat_parts_quiet (parts : list gostring) :
  logs_only quiet (reformat_parts parts).
Proof.
  induction parts as [|part rest IH]; cbn [reformat_parts]; [logs|].
  destruct (Unmarshal_map (as_object part)).
  - apply logs_only_bind; [exact IH|intros; logs].
  - apply logs_only_bind; [logs|intros; exact IH].
Qed.

Lemma reformatJSON_quiet (input : gostring) :
  logs_only quiet (reformatJSON input).
Proof.
  unfold reformatJSON. destruct (_ || _); [logs|].
  apply logs_only_bind; [logs|intros inner].
  apply logs_only_bind; [apply reformat_parts_quiet|intros vs].
  destruct (0 <? _); logs.
Qed.

Lemma preprocessModelResponse_quiet (response : gostring) :
  logs_only quiet (preprocessModelResponse response).
Proof.
  unfold preprocessModelResponse.
  apply logs_only_bind; [logs|intros t].
  apply logs_only_bind; [logs|intros _].
  destruct (_ =? -1).
  - apply logs_only_bind; [logs|intros _].
    destruct (negb _); [|logs].
    apply logs_only_bind; [logs|intros _].
    destruct (_ && _); logs.
  - destruct (_ || _); [logs|].
    apply logs_only_bind; [logs|intros jsonPart].
    apply logs_only_bind; [logs|intros t'].
    apply logs_only_bind; [logs|intros _].
    destruct (Unmarshal_interfaces _); [logs|].
    apply logs_only_bind; [logs|intros _].
    destruct (Unmarshal_interfaces _); [logs|].
    apply logs_only_bind; [logs|intros _].
    apply logs_only_bind; [logs|intros _].
    apply reformatJSON_quiet.
Qed.

Lemma extractContentManually_quiet (response : gostring) :
  logs_only quiet (extractContentManually response).
Proof. unfold extractContentManually. logs. Qed.

Lemma geminiContents_quiet (response : gostring) :
  logs_only quiet (geminiContents response).
Proof.
  unfold geminiContents.
  apply logs_only_bind; [apply extractContentManually_quiet|intros contents].
  destruct (_ =? 0); [|logs].
  apply logs_only_bind; [apply preprocessModelResponse_quiet|intros p].
  destruct (Unmarshal_contents p); logs.
Qed.

Lemma openaiContents_quiet (response : gostring) :
  logs_only quiet (openaiContents response).
Proof.
  unfold openaiContents.
  apply logs_only_bind; [apply preprocessModelResponse_quiet|intros p].
  destruct (Unmarshal_contents p); logs.
Qed.

Variable w : World.

Lemma extractWithProviders_quiet (i : nat) (mgr : ModelManager)
      (scrapedText : gostring) :
  logs_only quiet (extractWithProviders w i mgr scrapedText).
Proof.
  unfold extractWithProviders.
  apply logs_only_bind; [|intros r].
  - unfold tryGemini. destruct (negb _); [|logs].
    destruct (CreateModel _ _ _) as [mgr' [model|e]]; [|logs].
    destruct (GenerateText w i model _); [|logs].
    apply logs_only_bind; [apply geminiContents_quiet|intros; logs].
  - unfold tryOpenAI. destruct (_ && _); [|logs].
    destruct (CreateModel _ _ _) as [mgr' [model|e]]; [|logs].
    destruct (GenerateText w i model _); [|logs].
    apply logs_only_bind; [apply openaiContents_quiet|intros; logs].
Qed.

Lemma save_loop_quiet (i : nat) (contents : list Content) (k : nat)
      (tbl : list Row) :
  Forall quiet (save_loop w i k contents tbl).2.
Proof.
  revert k tbl. induction contents as [|c rest IH]; intros k tbl;
    cbn [save_loop]; [constructor|].
  destruct (SaveContent _ _ c tbl) as [tbl1 [e|]];
    specialize (IH (S k) tbl1);
    destruct (save_loop w i (S k) rest tbl1) as [[tbl2 saved] evs]; cbn in *.
  - constructor; [cbn; discriminate|exact IH].
  - exact IH.
Qed.

End LogFacts.

(** ** The run over the sources *)

Section RunFacts.
Context `{Float64} `{!Strconv} `{!EncodingJSON}.
Variable w : World.

Lemma tryGemini_total (i : nat) (mgr : ModelManager) (input : gostring) :
  is_Some (tryGemini w i mgr input).
Proof.
  unfold tryGemini.
  destruct (negb _); [|total].
  destruct (CreateModel mgr ModelTypeGemini _) as [mgr' [model|e]]; [|total].
  destruct (GenerateText w i model input); [|total].
  apply wbind_total; [apply geminiContents_total|intros; total].
Qed.

Lemma tryOpenAI_total (i : nat) (mgr : ModelManager) (input : gostring)
      (contents : list Content) :
  is_Some (tryOpenAI w i mgr input contents).
Proof.
  unfold tryOpenAI.
  destruct (_ && _); [|total].
  destruct (CreateModel mgr ModelTypeOpenAI _) as [mgr' [model|e]]; [|total].
  destruct (GenerateText w i model input); [|total].
  apply wbind_total; [apply openaiContents_total|intros; total].
Qed.

Lemma extractWithProviders_total (i : nat) (mgr : ModelManager)
      (scrapedText : gostring) :
  is_Some (extractWithProviders w i mgr scrapedText).
Proof.
  unfold extractWithProviders. apply wbind_total.
  - apply tryGemini_total.
  - intros r. apply tryOpenAI_total.
Qed.

Lemma process_source_total (i : nat) (url : gostring) (s : Sys) (l : Locals) :
  is_Some (process_source w i url s l).
Proof.
  unfold process_source.
  destruct (Scrape w i url) as [text|e]; [|eauto].
  destruct (extractWithProviders_total i (modelMgr s) text)
    as [[[mgr contents] evs] ->].
  cbn [mbind option_bind].
  destruct (0 <? Z.of_nat (length contents)); [|eauto].
  destruct (save_loop w i 0 _ _) as [[tbl saved] evs']. eauto.
Qed.

(** A failed save leaves the table as it was. *)
Lemma SaveContent_error_frame (now : Z) (fault : DbFault) (content : Content)
      (tbl : list Row) (e : gostring) :
  (SaveContent now fault content tbl).2 = Some e ->
  (SaveContent now fault content tbl).1 = tbl.
Proof.
  unfold SaveContent.
  destruct fault; cbn; try reflexivity;
    destruct (existsb (same_key content) tbl); cbn; try reflexivity;
    discriminate.
Qed.

Lemma process_sources_total (urls : list gostring) (i : nat) (s : Sys)
      (l : Locals) :
  is_Some (process_sources w i urls s l).
Proof.
  revert i s l. induction urls as [|url rest IH]; intros i s l; cbn; [eauto|].
  destruct (process_source_total i url
              (logged [Printf "Scraping content from %s" [AStr url]] s) l)
    as [[s1 l1] ->].
  cbn. apply IH.
Qed.

(** While no checkpoint sees a cancellation, the loop of Run processes the
    sources one after the other. *)
Lemma run_loop_app (j : ContentScraperJob) (pre rest : list gostring)
      (i : nat) (s : Sys) (l : Locals) :
  (forall k, (k < length pre)%nat -> ctx_Err w (i + k) = None) ->
  run_loop w j i (pre ++ rest) s l
  = '(s1, l1) ← process_sources w i pre s l;
    run_loop w j (i + length pre) rest s1 l1.
Proof.
  revert i s l. induction pre as [|url pre IH]; intros i s l Hk.
  - cbn. rewrite Nat.add_0_r. reflexivity.
  - cbn [app run_loop process_sources].
    pose proof (Hk 0%nat ltac:(cbn; lia)) as H0'. rewrite Nat.add_0_r in H0'.
    rewrite H0'.
    destruct (process_source w i url _ l) as [[s1 l1]|]; [|reflexivity].
    cbn [mbind option_bind]. rewrite IH.
    + cbn [length]. replace (S i + length pre)%nat with (i + S (length pre))%nat
        by lia. reflexivity.
    + intros k Hlt. replace (S i + k)%nat with (i + S k)%nat by lia.
      apply Hk. cbn. lia.
Qed.

Lemma final_event_not_quiet (e : Event) : final_event e -> ~ quiet e.
Proof.
  intros [(t & n & ->)|(cs & us & ->)] Hq; cbn in Hq; [|exact Hq].
  apply Hq. reflexivity.
Qed.

Lemma process_source_trace (i : nat) (url : gostring) (s s' : Sys)
      (l l' : Locals) :
  process_source w i url s l = Some (s', l') ->
  exists evs, trace s' = trace s ++ evs /\ Forall quiet evs.
Proof.
  unfold process_source.
  destruct (Scrape w i url) as [text|e].
  - pose proof (extractWithProviders_quiet w i (modelMgr s) text) as Hq.
    unfold logs_only in Hq.
    destruct (extractWithProviders w i (modelMgr s) text)
      as [[[mgr contents] evs]|]; [|discriminate].
    cbn [mbind option_bind]. cbn in Hq.
    destruct (0 <? Z.of_nat (length contents)).
    + pose proof (save_loop_quiet w i (map (with_source url) contents) 0
                    (table s)) as Hs.
      destruct (save_loop w i 0 _ _) as [[tbl saved] evs'].
      intros E. injection E as <- _. cbn in *. eexists. split; [reflexivity|].
      apply Forall_app. split; [exact Hq|].
      constructor; [cbn; discriminate|exact Hs].
    + intros E. injection E as <- _. cbn. eexists. split; [reflexivity|].
      apply Forall_app. split; [exact Hq|].
      repeat constructor. cbn. discriminate.
  - intros E. injection E as <- _. cbn. eexists. split; [reflexivity|].
    repeat constructor. cbn. discriminate.
Qed.

Lemma process_sources_trace (urls : list gostring) (i : nat) (s s' : Sys)
      (l l' : Locals) :
  process_sources w i urls s l = Some (s', l') ->
  exists evs, trace s' = trace s ++ evs
              /\ Forall quiet evs
              /\ forall url, In url urls -> In (scraping_line url) evs.
Proof.
  revert i s l. induction urls as [|url rest IH]; intros i s l; cbn.
  - intros E. injection E as <- _. exists []. rewrite app_nil_r.
    split; [reflexivity|]. split; [constructor|]. intros ? [].
  - destruct (process_source w i url _ l) as [[s1 l1]|] eqn:E1; [|discriminate].
    cbn. intros E2.
    apply process_source_trace in E1 as (evs1 & E1 & Hq1). cbn in E1.
    apply IH in E2 as (evs2 & E2 & Hq2 & Hin).
    exists ([scraping_line url] ++ evs1 ++ evs2).
    split; [|split].
    + rewrite E2, E1, <- !app_assoc. reflexivity.
    + apply Forall_app. split; [repeat constructor; cbn; discriminate|].
      apply Forall_app. split; assumption.
    + intros u Hu. apply in_or_app.
      destruct Hu as [<-|Hu]; [left; left; reflexivity|].
      right. apply in_or_app. right. apply Hin, Hu.
Qed.

Lemma run_loop_returns (j : ContentScraperJob) (urls : list gostring)
      (i : nat) (s : Sys) (l : Locals) :
  exists s' r,
    run_loop w j i urls s l = Some (s', r)
    /\ forall e, r = Some e -> exists k, ctx_Err w k = Some e.
Proof.
  revert i s l. induction urls as [|url rest IH]; intros i s l; cbn.
  - eexists _, _. split; [reflexivity|]. discriminate.
  - destruct (ctx_Err w i) as [e|] eqn:Ec.
    + eexists _, _. split; [reflexivity|].
      intros e' E. injection E as <-. eauto.
    + destruct (process_source_total i url
                  (logged [Printf "Scraping content from %s" [AStr url]] s) l)
        as [[s1 l1] ->].
      cbn. apply IH.
Qed.

Lemma run_loop_no_cancel (j : ContentScraperJob) (urls : list gostring)
      (i : nat) (s : Sys) (l : Locals) :
  (forall k, ctx_Err w k = None) ->
  exists s1 l1,
    process_sources w i urls s l = Some (s1, l1)
    /\ run_loop w j i urls s l = Some (finish_run w j s1 l1, None).
Proof.
  intros Hnever.
  destruct (process_sources_total urls i s l) as [[s1 l1] E1].
  exists s1, l1. split; [exact E1|].
  rewrite <- (app_nil_r urls) at 1.
  rewrite run_loop_app by (intros; apply Hnever).
  rewrite E1. reflexivity.
Qed.

(** C2, as amended.  When the checkpoint before a source sees the
    cancellation (and none before it did), Run stops there: the sources
    before it have been processed, no later source is touched, the table
    is the one those sources left (what was persisted stays persisted),
    and Run returns the error of the context at once.  The run does not
    finalize: apart from the line of the checkpoint's source, the trace is
    the one the earlier sources left, and it holds no summary line and no
    call of the notifier that was not there before the run. *)
Theorem run_cancelled (j : ContentScraperJob) (pre : list gostring)
        (url : gostring) (post : list gostring) (i : nat) (s : Sys)
        (l : Locals) (e : gostring) :
  (forall k, (k < length pre)%nat -> ctx_Err w (i + k) = None) ->
  ctx_Err w (i + length pre) = Some e ->
  exists s1 l1,
    process_sources w i pre s l = Some (s1, l1)
    /\ run_loop w j i (pre ++ url :: post) s l
       = Some (logged [scraping_line url] s1, Some e)
    /\ table (logged [scraping_line url] s1) = table s1
    /\ forall ev, final_event ev ->
         In ev (trace (logged [scraping_line url] s1)) -> In ev (trace s).
Proof.
  intros Hpre Hcancel.
  destruct (process_sources_total pre i s l) as [[s1 l1] E1].
  exists s1, l1. split; [exact E1|]. split; [|split].
  - rewrite run_loop_app by exact Hpre. rewrite E1.
    cbn [mbind option_bind run_loop]. rewrite Hcancel. reflexivity.
  - reflexivity.
  - intros ev Hfinal Hin.
    apply process_sources_trace in E1 as (evs & E1 & Hq & _).
    cbn [logged trace] in Hin. rewrite E1 in Hin.
    apply in_app_or in Hin as [Hin|Hin].
    + apply in_app_or in Hin as [Hin|Hin]; [exact Hin|].
      exfalso. apply (final_event_not_quiet ev Hfinal).
      rewrite Forall_forall in Hq. apply Hq. apply list_elem_of_In. exact Hin.
    + destruct Hin as [<-|[]]. exfalso.
      apply (final_event_not_quiet _ Hfinal). cbn. discriminate.
Qed.

End RunFacts.

(** ** What a run that is not cancelled leaves *)

Section RunSkips.
Context `{Float64} `{!Strconv} `{!EncodingJSON}.
Variable w : World.

(** A save fails exactly when the driver fails it. *)
Lemma SaveContent_fails_iff (now : Z) (fault : DbFault) (content : Content)
      (tbl : list Row) :
  (SaveContent now fault content tbl).2 = None <-> fault = NoFault.
Proof.
  unfold SaveContent.
  destruct fault; destruct (existsb (same_key content) tbl); cbn;
    split; (reflexivity || discriminate).
Qed.

Lemma save_loop_persists (i : nat) (contents : list Content) :
  forall (k : nat) (tbl : list Row),
    (save_loop w i k contents tbl).1 = persist_records w i k contents tbl
    /\ length (save_loop w i k contents tbl).2
       = length (List.filter (fun a => save_fails w i a.1)
                   (numbered k contents)).
Proof.
  induction contents as [|c rest IH]; intros k tbl; [split; reflexivity|].
  cbn [save_loop]. unfold persist_records.
  cbn [numbered List.filter fst snd].
  destruct (save_fails w i k) eqn:Ef; cbn [negb].
  - assert (Es : exists e, SaveContent (db_now w i k) (db_fault w i k) c tbl
                           = (tbl, Some e)).
    { pose proof (SaveContent_fails_iff (db_now w i k) (db_fault w i k) c tbl)
        as Hiff.
      pose proof (SaveContent_error_frame (db_now w i k) (db_fault w i k) c
                    tbl) as Hframe.
      destruct (SaveContent (db_now w i k) (db_fault w i k) c tbl)
        as [tbl1 [e|]]; cbn [fst snd] in *.
      - rewrite (Hframe e eq_refl). eauto.
      - unfold save_fails in Ef. rewrite (proj1 Hiff eq_refl) in Ef.
        discriminate. }
    destruct Es as [e ->].
    destruct (IH (S k) tbl) as [E1 E2].
    destruct (save_loop w i (S k) rest tbl) as [[tbl' saved] evs].
    cbn [fst snd length] in *. rewrite E2. split; [exact E1|reflexivity].
  - assert (Ef' : db_fault w i k = NoFault)
      by (unfold save_fails in Ef; destruct (db_fault w i k);
          [reflexivity|discriminate..]).
    rewrite Ef'. cbn [fold_left map fst snd].
    pose proof (proj2 (SaveContent_fails_iff (db_now w i k) NoFault c tbl)
                  eq_refl) as Hok.
    destruct (SaveContent (db_now w i k) NoFault c tbl) as [tbl1 r];
      cbn [fst snd] in *. subst r.
    destruct (IH (S k) tbl1) as [E1 E2].
    destruct (save_loop w i (S k) rest tbl1) as [[tbl' saved] evs].
    cbn [fst snd length] in *. split; [|exact E2].
    unfold persist_records in E1. injection E1 as -> ->. reflexivity.
Qed.

(** The table, the manager and the records saved so far. *)
Lemma process_source_outcome (i : nat) (url : gostring) (s s' : Sys)
      (l l' : Locals) :
  process_source w i url s l = Some (s', l') ->
  (table s', modelMgr s', allScrapedContent l')
  = source_outcome w (table s, modelMgr s, allScrapedContent l) (i, url)
  /\ totalContentScraped l' - len_of (allScrapedContent l')
     = totalContentScraped l - len_of (allScrapedContent l).
Proof.
  unfold process_source, source_outcome. cbn [fst snd].
  destruct (Scrape w i url) as [text|e].
  - destruct (extractWithProviders w i (modelMgr s) text)
      as [[[mgr contents] evs]|]; [|discriminate].
    cbn [mbind option_bind result_of fmap option_fmap option_map fst].
    destruct (0 <? Z.of_nat (length contents)) eqn:Epos.
    + destruct (save_loop_persists i (map (with_source url) contents) 0
                  (table s)) as [E1 _].
      destruct (save_loop w i 0 (map (with_source url) contents) (table s))
        as [[tbl saved] evs']. cbn [fst] in E1.
      intros E. injection E as <- <-. cbn [table modelMgr allScrapedContent
                                          totalContentScraped].
      rewrite <- E1. cbn [fst snd]. split; [reflexivity|].
      unfold len_of. rewrite length_app. lia.
    + assert (contents = []) as ->
        by (destruct contents; [reflexivity|];
            apply Z.ltb_ge in Epos; cbn [length] in Epos; lia).
      intros E. injection E as <- <-. cbn. rewrite app_nil_r.
      split; [reflexivity|lia].
  - intros E. injection E as <- <-. split; reflexivity.
Qed.

Lemma process_sources_outcome (urls : list gostring) :
  forall (i : nat) (s s' : Sys) (l l' : Locals),
    process_sources w i urls s l = Some (s', l') ->
    (table s', modelMgr s', allScrapedContent l')
    = fold_left (source_outcome w) (numbered i urls)
        (table s, modelMgr s, allScrapedContent l)
    /\ totalContentScraped l' - len_of (allScrapedContent l')
       = totalContentScraped l - len_of (allScrapedContent l).
Proof.
  induction urls as [|url rest IH]; intros i s s' l l'; cbn [process_sources].
  - intros E. injection E as <- <-. split; reflexivity.
  - destruct (process_source w i url _ l) as [[s1 l1]|] eqn:E1;
      [|discriminate].
    cbn [mbind option_bind]. intros E2.
    apply process_source_outcome in E1 as [E1 Hc1]. cbn [logged table modelMgr] in E1.
    apply IH in E2 as [E2 Hc2].
    cbn [numbered fold_left]. rewrite <- E1. split; [exact E2|lia].
Qed.

(** What a run that no checkpoint cancels leaves. *)
Lemma Run_outcome (j : ContentScraperJob) (s : Sys) :
  (forall k, ctx_Err w k = None) ->
  exists s',
    Run w j s = Some (s', None)
    /\ (table s', modelMgr s')
       = (run_outcome w (effective_sources j) (table s) (modelMgr s)).1
    /\ In (summary_line
             (len_of (run_outcome w (effective_sources j) (table s)
                        (modelMgr s)).2)
             (len_of (effective_sources j))) (trace s')
    /\ (sendEmails j = true -> emailNotifier j = true ->
        (run_outcome w (effective_sources j) (table s) (modelMgr s)).2 <> [] ->
        In (NotifyContentUpdate
              (run_outcome w (effective_sources j) (table s) (modelMgr s)).2
              (effective_sources j)) (trace s'))
    /\ forall url, In url (effective_sources j) ->
         In (scraping_line url) (trace s').
Proof.
  intros Hnever. unfold Run.
  set (j' := if Z.of_nat (length (sourceURLs j)) =? 0
             then {| sourceURLs := [str "https://nkiri.com/"];
                     emailNotifier := emailNotifier j;
                     sendEmails := sendEmails j |}
             else j).
  assert (Hurls : sourceURLs j' = effective_sources j)
    by (unfold j', effective_sources;
        destruct (Z.of_nat (length (sourceURLs j)) =? 0); reflexivity).
  assert (Hmail : sendEmails j' = sendEmails j
                  /\ emailNotifier j' = emailNotifier j)
    by (unfold j'; destruct (Z.of_nat (length (sourceURLs j)) =? 0);
        split; reflexivity).
  destruct Hmail as [Hse Hen].
  set (s0 := logged _ s). set (l0 := {| totalContentScraped := 0;
                                        allScrapedContent := [] |}).
  destruct (run_loop_no_cancel w j' (sourceURLs j') 0 s0 l0 Hnever)
    as (s1 & l1 & E1 & ->).
  eexists. split; [reflexivity|].
  pose proof (process_sources_trace w _ _ _ _ _ _ E1) as (evs & Etr & _ & Hall).
  apply process_sources_outcome in E1 as [Eout Hcount].
  cbn [s0 l0 logged table modelMgr allScrapedContent totalContentScraped]
    in Eout, Hcount.
  rewrite Hurls in Eout, Hall.
  fold (run_outcome w (effective_sources j) (table s) (modelMgr s)) in Eout.
  set (out := run_outcome w (effective_sources j) (table s) (modelMgr s))
    in *.
  assert (Esaved : allScrapedContent l1 = out.2) by (rewrite <- Eout; reflexivity).
  assert (Etotal : totalContentScraped l1 = len_of out.2)
    by (rewrite <- Esaved; unfold len_of in *; cbn [length] in Hcount; lia).
  assert (Etm : (table s1, modelMgr s1) = out.1) by (rewrite <- Eout; reflexivity).
  assert (Hs1 : forall url, In url (effective_sources j) ->
                            In (scraping_line url) (trace s1))
    by (intros url Hin; rewrite Etr; apply in_or_app; right; apply Hall, Hin).
  unfold finish_run. rewrite Hse, Hen, Hurls, Etotal, Esaved.
  fold (len_of (effective_sources j)).
  fold (summary_line (len_of out.2) (len_of (effective_sources j))).
  destruct (sendEmails j && emailNotifier j
            && (0 <? Z.of_nat (length out.2))) eqn:Email;
    [|destruct (0 <? Z.of_nat (length out.2)) eqn:Epos];
    cbn [logged table modelMgr trace].
  - split; [exact Etm|]. split.
    + apply in_or_app. left. apply in_or_app. right. left. reflexivity.
    + split.
      * intros _ _ _. apply in_or_app. right. right. left. reflexivity.
      * intros url Hin. do 2 (apply in_or_app; left). apply Hs1, Hin.
  - split; [exact Etm|]. split.
    + apply in_or_app. left. apply in_or_app. right. left. reflexivity.
    + split.
      * intros Hs He _. rewrite Hs, He in Email. discriminate.
      * intros url Hin. do 2 (apply in_or_app; left). apply Hs1, Hin.
  - split; [exact Etm|]. split.
    + apply in_or_app. right. left. reflexivity.
    + split.
      * intros _ _ Hne. exfalso. destruct out.2; [contradiction|].
        apply Z.ltb_ge in Epos. cbn [length] in Epos. lia.
      * intros url Hin. apply in_or_app. left. apply Hs1, Hin.
Qed.

(** C8.  (1) A fetch failure skips the source and nothing else: the loop
    goes on with the next source, the table and the counters as they
    were.  (2) A failed save skips the record and nothing else: the table
    is as it was, the record is not counted, and the loop goes on with the
    next record.  (3) So the loop over the records of a source saves
    every record whose own save does not fail, in their order, counts
    exactly these, and logs one line for each of the others.  (4) Run
    always returns, and an error it returns is the one a checkpoint read
    from the context.  (5) So when no checkpoint sees a cancellation, Run
    returns nil after every source has had its turn, whatever failed on
    the way: the table and the manager are those the sources leave one
    after the other, a source that cannot be fetched leaving nothing and
    a source that can leaving its records as in (3); the summary counts
    the records saved, the notifier gets them when mails are enabled, and
    the line of every source is in the log. *)
Theorem run_skips_failures (j : ContentScraperJob) (s : Sys) :
  (forall i url rest s l e,
      ctx_Err w i = None -> Scrape w i url = Err e ->
      run_loop w j i (url :: rest) s l
      = run_loop w j (S i) rest
          (logged [Printf "Error scraping %s: %v" [AStr url; AStr e]]
             (logged [scraping_line url] s)) l)
  /\ (forall i k content rest tbl e,
        (SaveContent (db_now w i k) (db_fault w i k) content tbl).2 = Some e ->
        save_loop w i k (content :: rest) tbl
        = let '(tbl', saved, evs) := save_loop w i (S k) rest tbl in
          (tbl', saved,
           Printf "Error saving content %s: %v" [AStr (Title content); AStr e]
             :: evs))
  /\ (forall i k contents tbl,
        (save_loop w i k contents tbl).1 = persist_records w i k contents tbl
        /\ length (save_loop w i k contents tbl).2
           = length (List.filter (fun a => save_fails w i a.1)
                       (numbered k contents)))
  /\ (exists s' r,
        Run w j s = Some (s', r)
        /\ forall e, r = Some e -> exists k, ctx_Err w k = Some e)
  /\ ((forall k, ctx_Err w k = None) ->
      exists s',
        Run w j s = Some (s', None)
        /\ (table s', modelMgr s')
           = (run_outcome w (effective_sources j) (table s) (modelMgr s)).1
        /\ In (summary_line
                 (len_of (run_outcome w (effective_sources j) (table s)
                            (modelMgr s)).2)
                 (len_of (effective_sources j))) (trace s')
        /\ (sendEmails j = true -> emailNotifier j = true ->
            (run_outcome w (effective_sources j) (table s) (modelMgr s)).2
            <> [] ->
            In (NotifyContentUpdate
                  (run_outcome w (effective_sources j) (table s)
                     (modelMgr s)).2
                  (effective_sources j)) (trace s'))
        /\ forall url, In url (effective_sources j) ->
             In (scraping_line url) (trace s')).
Proof.
  split; [|split; [|split; [|split]]].
  - intros i url rest s0 l e Hc Hs. cbn [run_loop]. rewrite Hc.
    unfold process_source. rewrite Hs. reflexivity.
  - intros i k content rest tbl e He. cbn [save_loop].
    pose proof (SaveContent_error_frame _ _ _ _ _ He) as Hf.
    destruct (SaveContent _ _ content tbl) as [tbl1 [e'|]]; cbn in He, Hf.
    + injection He as ->. subst tbl1. reflexivity.
    + discriminate.
  - intros i k contents tbl. apply save_loop_persists.
  - unfold Run. apply run_loop_returns.
  - apply Run_outcome.
Qed.

End RunSkips.

(** ** The providers *)

Section ProviderFacts.
Context `{Float64} `{!Strconv} `{!EncodingJSON} `{Unicode}.
Variable w : World.

(** A Gemini call that fails and a Gemini response that normalizes to no
    record leave the same thing behind: no record. *)
Lemma tryGemini_empty (i : nat) (mgr mgr' : ModelManager) (model : Model)
      (input : gostring) :
  Getenv w i "GEMINI_API_KEY" <> [] ->
  CreateModel mgr ModelTypeGemini (geminiConfig w i) = (mgr', Ok model) ->
  (exists e, GenerateText w i model input = Err e)
  \/ (exists response, GenerateText w i model input = Ok response
                       /\ result_of (geminiContents response) = Some []) ->
  result_of (tryGemini w i mgr input) = Some (mgr', []).
Proof.
  intros Hkey Hcreate Hcase. unfold tryGemini. fold (geminiConfig w i).
  cbn [APIKey geminiConfig].
  rewrite (proj2 (gostring_eqb_neq _ _) Hkey). cbn [negb].
  rewrite Hcreate.
  destruct Hcase as [[e ->]|(response & -> & Hr)].
  - reflexivity.
  - erewrite result_of_bind, Hr. reflexivity.
Qed.

Lemma tryOpenAI_empty (i : nat) (mgr mgr' : ModelManager) (model : Model)
      (input : gostring) :
  Getenv w i "OPENAI_API_KEY" <> [] ->
  CreateModel mgr ModelTypeOpenAI (openaiConfig w i) = (mgr', Ok model) ->
  (exists e, GenerateText w i model input = Err e)
  \/ (exists response, GenerateText w i model input = Ok response
                       /\ result_of (openaiContents response) = Some []) ->
  result_of (tryOpenAI w i mgr input []) = Some (mgr', []).
Proof.
  intros Hkey Hcreate Hcase. unfold tryOpenAI. fold (openaiConfig w i).
  rewrite (proj2 (gostring_eqb_neq _ _) Hkey).
  change (Z.of_nat (length (@nil Content)) =? 0) with true. cbn [negb andb].
  rewrite Hcreate.
  destruct Hcase as [[e ->]|(response & -> & Hr)].
  - reflexivity.
  - erewrite result_of_bind, Hr. reflexivity.
Qed.

(** A provider without an API key is not tried. *)
Lemma tryGemini_no_key (i : nat) (mgr : ModelManager) (input : gostring) :
  Getenv w i "GEMINI_API_KEY" = [] ->
  tryGemini w i mgr input = wret (mgr, []).
Proof. intros Hkey. unfold tryGemini. cbn [APIKey]. rewrite Hkey. reflexivity. Qed.

Lemma tryOpenAI_no_key (i : nat) (mgr : ModelManager) (input : gostring) :
  Getenv w i "OPENAI_API_KEY" = [] ->
  tryOpenAI w i mgr input [] = wret (mgr, []).
Proof. intros Hkey. unfold tryOpenAI. rewrite Hkey. reflexivity. Qed.

Lemma best_model_loop_ok (generate : nat -> Model -> gostring -> result gostring)
      (prompt : gostring) (configs : list ModelConfig) (k : nat)
      (m m' : ModelManager) (lastErr : option gostring) (text name : gostring) :
  best_model_loop generate prompt k configs m lastErr = (m', Ok (text, name)) ->
  exists k' model,
    generate k' model prompt = Ok text /\ name = GetModelName model.
Proof.
  revert k m lastErr.
  induction configs as [|config rest IH]; intros k m lastErr; cbn.
  - destruct lastErr; discriminate.
  - destruct (gostring_eqb _ []); [apply IH|].
    destruct (GetOrCreateModel m _ config) as [m1 [model|e]]; [|apply IH].
    destruct (generate k model prompt) as [text'|e] eqn:Eg; [|apply IH].
    intros E. injection E as _ <- <-. eauto.
Qed.

Lemma best_model_loop_all_fail
      (generate : nat -> Model -> gostring -> result gostring)
      (prompt : gostring) (configs : list ModelConfig) (k : nat)
      (m : ModelManager) (lastErr : option gostring) :
  (forall k' model, exists e, generate k' model prompt = Err e) ->
  exists e, (best_model_loop generate prompt k configs m lastErr).2 = Err e.
Proof.
  intros Hfail. revert k m lastErr.
  induction configs as [|config rest IH]; intros k m lastErr; cbn.
  - destruct lastErr; cbn; eauto.
  - destruct (gostring_eqb _ []); [apply IH|].
    destruct (GetOrCreateModel m _ config) as [m1 [model|e]]; [|apply IH].
    destruct (Hfail k model) as [e ->]. apply IH.
Qed.

Lemma best_model_loop_first
      (generate : nat -> Model -> gostring -> result gostring)
      (prompt : gostring) (config : ModelConfig) (rest : list ModelConfig)
      (k : nat) (m m1 : ModelManager) (lastErr : option gostring)
      (model : Model) (text : gostring) :
  detectModelType (ModelName config) <> [] ->
  GetOrCreateModel m (detectModelType (ModelName config)) config
  = (m1, Ok model) ->
  generate k model prompt = Ok text ->
  best_model_loop generate prompt k (config :: rest) m lastErr
  = (m1, Ok (text, GetModelName model)).
Proof.
  intros Ht Hm Hg. cbn [best_model_loop].
  rewrite (proj2 (gostring_eqb_neq _ _) Ht), Hm, Hg. reflexivity.
Qed.

End ProviderFacts.

(** ** The providers in their order *)

Section ProviderYield.
Context `{Float64} `{!Strconv} `{!EncodingJSON} `{!Unicode}.
Variable w : World.

Lemma tryGemini_yield (i : nat) (mgr : ModelManager) (input : gostring) :
  result_of (tryGemini w i mgr input)
  = Some (provider_yield w ModelTypeGemini (geminiConfig w i) geminiContents
            i mgr input).
Proof.
  unfold tryGemini, provider_yield. fold (geminiConfig w i).
  destruct (gostring_eqb (APIKey (geminiConfig w i)) []); [reflexivity|].
  cbn [negb].
  destruct (CreateModel mgr ModelTypeGemini (geminiConfig w i))
    as [mgr' [model|e]]; cbn [fst snd]; [|reflexivity].
  destruct (GenerateText w i model input) as [response|e]; [|reflexivity].
  rewrite result_of_bind.
  destruct (geminiContents_total response) as [[contents evs] E].
  rewrite E. reflexivity.
Qed.

Lemma tryOpenAI_yield (i : nat) (mgr : ModelManager) (input : gostring) :
  result_of (tryOpenAI w i mgr input [])
  = Some (provider_yield w ModelTypeOpenAI (openaiConfig w i) openaiContents
            i mgr input).
Proof.
  unfold tryOpenAI, provider_yield. fold (openaiConfig w i).
  change (Z.of_nat (length (@nil Content)) =? 0) with true. cbn [andb].
  change (Getenv w i "OPENAI_API_KEY") with (APIKey (openaiConfig w i)).
  destruct (gostring_eqb (APIKey (openaiConfig w i)) []); [reflexivity|].
  cbn [negb].
  destruct (CreateModel mgr ModelTypeOpenAI (openaiConfig w i))
    as [mgr' [model|e]]; cbn [fst snd]; [|reflexivity].
  destruct (GenerateText w i model input) as [response|e]; [|reflexivity].
  rewrite result_of_bind.
  destruct (openaiContents_total response) as [[contents evs] E].
  rewrite E. reflexivity.
Qed.

Lemma tryOpenAI_not_tried (i : nat) (mgr : ModelManager) (input : gostring)
      (c : Content) (cs : list Content) :
  tryOpenAI w i mgr input (c :: cs) = wret (mgr, c :: cs).
Proof.
  unfold tryOpenAI.
  assert (En : (Z.of_nat (length (c :: cs)) =? 0) = false)
    by (apply Z.eqb_neq; cbn [length]; lia).
  rewrite En. reflexivity.
Qed.

(** The attempts of Run are the providers of the claim, in their order. *)
Lemma extractWithProviders_first_non_empty (i : nat) (mgr : ModelManager)
      (scrapedText : gostring) :
  result_of (extractWithProviders w i mgr scrapedText)
  = Some (first_non_empty w i mgr scrapedText).
Proof.
  unfold extractWithProviders, first_non_empty.
  set (input := buildContentExtractionPrompt ++ scrapedText).
  pose proof (tryGemini_yield i mgr input) as Hg.
  destruct (tryGemini w i mgr input) as [[[mgr1 contents] evs]|] eqn:Eg;
    [|discriminate].
  change (Some (mgr1, contents)
          = Some (provider_yield w ModelTypeGemini (geminiConfig w i)
                    geminiContents i mgr input)) in Hg.
  injection Hg as Hg. rewrite <- Hg.
  cbn [wbind fst snd].
  destruct contents as [|c cs].
  - pose proof (tryOpenAI_yield i mgr1 input) as Ho.
    destruct (tryOpenAI w i mgr1 input []) as [[r evs']|]; [|discriminate].
    change (Some r
            = Some (provider_yield w ModelTypeOpenAI (openaiConfig w i)
                      openaiContents i mgr1 input)) in Ho.
    injection Ho as ->. reflexivity.
  - rewrite tryOpenAI_not_tried. reflexivity.
Qed.

Lemma fold_left_passed_snoc (m : ModelManager) (pre : list ModelConfig)
      (config : ModelConfig) :
  fold_left passed (pre ++ [config]) m = passed (fold_left passed pre m) config.
Proof. apply fold_left_app. Qed.

(** GenerateWithBestModel goes past the configurations whose call is not
    made or fails. *)
Lemma best_model_loop_past
      (generate : nat -> Model -> gostring -> result gostring)
      (prompt : gostring) (pre rest : list ModelConfig) :
  forall (k : nat) (m : ModelManager) (lastErr : option gostring),
    calls_fail (fun j => generate (k + j)%nat) prompt m pre ->
    exists lastErr',
      best_model_loop generate prompt k (pre ++ rest) m lastErr
      = best_model_loop generate prompt (k + length pre) rest
          (fold_left passed pre m) lastErr'.
Proof.
  induction pre as [|config pre IH]; intros k m lastErr Hfail.
  - exists lastErr. cbn. rewrite Nat.add_0_r. reflexivity.
  - cbn [app best_model_loop fold_left length].
    replace (k + S (length pre))%nat with (S k + length pre)%nat by lia.
    assert (Hrest : forall m1, m1 = passed m config ->
              calls_fail (fun j => generate (S k + j)%nat) prompt m1 pre).
    { intros m1 -> j c model Hj Hd Hm.
      replace (S k + j)%nat with (k + S j)%nat by lia.
      apply (Hfail (S j) c model); [exact Hj|exact Hd|exact Hm]. }
    destruct (gostring_eqb (detectModelType (ModelName config)) []) eqn:Et.
    + assert (Hp : passed m config = m)
        by (unfold passed; rewrite Et; reflexivity).
      rewrite Hp. apply IH. apply Hrest. symmetry. exact Hp.
    + pose proof Et as Et'. apply gostring_eqb_neq in Et'.
      destruct (GetOrCreateModel m (detectModelType (ModelName config)) config)
        as [m1 [model|e]] eqn:Em.
      * assert (Hp : passed m config = m1)
          by (unfold passed; rewrite Et, Em; reflexivity).
        destruct (Hfail 0%nat config model eq_refl Et') as [e He].
        { cbn [take fold_left]. rewrite Em. reflexivity. }
        rewrite Nat.add_0_r in He. rewrite He, Hp.
        apply IH. apply Hrest. symmetry. exact Hp.
      * assert (Hp : passed m config = m1)
          by (unfold passed; rewrite Et, Em; reflexivity).
        rewrite Hp. apply IH. apply Hrest. symmetry. exact Hp.
Qed.

End ProviderYield.

Section ProviderFallback.
Context `{Float64} `{!Strconv} `{!EncodingJSON} `{!Unicode}.
Variable w : World.

(** C3, as amended.  In a run the providers are Gemini, then OpenAI, each
    tried only when its API key is set ((1) and (2)).  (3) The records of
    a source are those of the first of the two that yields a record, and
    none when neither does: a provider that is not tried, whose model
    cannot be made, whose call fails or whose answer normalizes to no
    record yields none.  In cases: (4) when the call of Gemini succeeds and
    its answer normalizes to records, these are the records, and (5)
    nothing of OpenAI runs then: value and log are those of the Gemini
    attempt; (6) when Gemini yields no record and the call of OpenAI
    succeeds, the records are those its answer normalizes to, and (7)
    whatever OpenAI yields is the result then.  (8) and (9) A provider
    whose call fails leaves exactly what a provider whose response
    normalizes to no record leaves: no record.  (10) The attempts always
    return records, possibly none: no failure reaches the caller, and Run
    is handed no provider identity.
    GenerateWithBestModel, which does return an identity, is another
    matter: (11) it goes past the configurations whose call is not made
    or fails, accepts the first whose call succeeds and returns its raw
    text with its name, unnormalized; (12) whatever it returns as text is
    the answer of a call that succeeded; (13) when every call it makes
    fails it returns an error. *)
Theorem providers_fallback (i : nat) (mgr : ModelManager)
        (scrapedText : gostring) :
  let input := buildContentExtractionPrompt ++ scrapedText in
  (Getenv w i "GEMINI_API_KEY" = [] ->
   tryGemini w i mgr input = wret (mgr, []))
  /\ (forall mgr0,
        Getenv w i "OPENAI_API_KEY" = [] ->
        tryOpenAI w i mgr0 input [] = wret (mgr0, []))
  /\ result_of (extractWithProviders w i mgr scrapedText)
     = Some (first_non_empty w i mgr scrapedText)
  /\ (forall mgr' model response contents,
        Getenv w i "GEMINI_API_KEY" <> [] ->
        CreateModel mgr ModelTypeGemini (geminiConfig w i) = (mgr', Ok model) ->
        GenerateText w i model input = Ok response ->
        result_of (geminiContents response) = Some contents ->
        contents <> [] ->
        result_of (extractWithProviders w i mgr scrapedText)
        = Some (mgr', contents))
  /\ (forall mgr1 contents evs,
        tryGemini w i mgr input = Some ((mgr1, contents), evs) ->
        contents <> [] ->
        extractWithProviders w i mgr scrapedText
        = Some ((mgr1, contents), evs))
  /\ (forall mgr1 mgr2 model response contents,
        result_of (tryGemini w i mgr input) = Some (mgr1, []) ->
        Getenv w i "OPENAI_API_KEY" <> [] ->
        CreateModel mgr1 ModelTypeOpenAI (openaiConfig w i)
        = (mgr2, Ok model) ->
        GenerateText w i model input = Ok response ->
        result_of (openaiContents response) = Some contents ->
        result_of (extractWithProviders w i mgr scrapedText)
        = Some (mgr2, contents))
  /\ (forall mgr1,
        result_of (tryGemini w i mgr input) = Some (mgr1, []) ->
        result_of (extractWithProviders w i mgr scrapedText)
        = result_of (tryOpenAI w i mgr1 input []))
  /\ (forall mgr' model,
        Getenv w i "GEMINI_API_KEY" <> [] ->
        CreateModel mgr ModelTypeGemini (geminiConfig w i) = (mgr', Ok model) ->
        (exists e, GenerateText w i model input = Err e)
        \/ (exists response,
               GenerateText w i model input = Ok response
               /\ result_of (geminiContents response) = Some []) ->
        result_of (tryGemini w i mgr input) = Some (mgr', []))
  /\ (forall mgr0 mgr' model,
        Getenv w i "OPENAI_API_KEY" <> [] ->
        CreateModel mgr0 ModelTypeOpenAI (openaiConfig w i) = (mgr', Ok model) ->
        (exists e, GenerateText w i model input = Err e)
        \/ (exists response,
               GenerateText w i model input = Ok response
               /\ result_of (openaiContents response) = Some []) ->
        result_of (tryOpenAI w i mgr0 input []) = Some (mgr', []))
  /\ (exists mgr' contents,
        result_of (extractWithProviders w i mgr scrapedText)
        = Some (mgr', contents))
  /\ (forall generate m m1 prompt pre config rest model text,
        calls_fail generate prompt m pre ->
        detectModelType (ModelName config) <> [] ->
        GetOrCreateModel (fold_left passed pre m)
          (detectModelType (ModelName config)) config
        = (m1, Ok model) ->
        generate (length pre) model prompt = Ok text ->
        GenerateWithBestModel generate m prompt (pre ++ config :: rest)
        = (m1, Ok (text, GetModelName model)))
  /\ (forall generate m m' prompt configs text name,
        GenerateWithBestModel generate m prompt configs = (m', Ok (text, name)) ->
        exists k model,
          generate k model prompt = Ok text /\ name = GetModelName model)
  /\ (forall generate m prompt configs,
        calls_fail generate prompt m configs ->
        exists e, (GenerateWithBestModel generate m prompt configs).2 = Err e).
Proof.
  intros input.
  assert (Hgem : forall mgr1 contents evs,
             tryGemini w i mgr input = Some ((mgr1, contents), evs) ->
             contents <> [] ->
             extractWithProviders w i mgr scrapedText
             = Some ((mgr1, contents), evs)).
  { intros mgr1 contents evs Hg Hne. unfold extractWithProviders. fold input.
    rewrite Hg. cbn [wbind fst snd].
    destruct contents as [|c cs]; [contradiction|].
    rewrite tryOpenAI_not_tried. cbn [wret]. rewrite app_nil_r. reflexivity. }
  assert (Hopen : forall mgr1,
             result_of (tryGemini w i mgr input) = Some (mgr1, []) ->
             result_of (extractWithProviders w i mgr scrapedText)
             = result_of (tryOpenAI w i mgr1 input [])).
  { intros mgr1 Hg. unfold extractWithProviders. fold input.
    erewrite result_of_bind, Hg. reflexivity. }
  repeat apply conj.
  - apply tryGemini_no_key.
  - intros mgr0. apply tryOpenAI_no_key.
  - apply extractWithProviders_first_non_empty.
  - intros mgr' model response contents Hkey Hcreate Hcall Hnorm Hne.
    assert (Hg : result_of (tryGemini w i mgr input) = Some (mgr', contents)).
    { rewrite tryGemini_yield. unfold provider_yield.
      cbn [APIKey geminiConfig].
      rewrite (proj2 (gostring_eqb_neq _ _) Hkey), Hcreate. cbn [fst snd].
      rewrite Hcall, Hnorm. reflexivity. }
    destruct (tryGemini w i mgr input) as [[[mgr1 cs] evs]|] eqn:Eg;
      [|discriminate].
    change (Some (mgr1, cs) = Some (mgr', contents)) in Hg.
    injection Hg as -> ->.
    rewrite (Hgem mgr' contents evs eq_refl Hne). reflexivity.
  - exact Hgem.
  - intros mgr1 mgr2 model response contents Hg Hkey Hcreate Hcall Hnorm.
    rewrite (Hopen mgr1 Hg), tryOpenAI_yield. unfold provider_yield.
    cbn [APIKey openaiConfig].
    rewrite (proj2 (gostring_eqb_neq _ _) Hkey), Hcreate. cbn [fst snd].
    rewrite Hcall, Hnorm. reflexivity.
  - exact Hopen.
  - intros mgr' model. apply tryGemini_empty.
  - intros mgr0 mgr' model. apply tryOpenAI_empty.
  - destruct (extractWithProviders_total w i mgr scrapedText)
      as [[[mgr' contents] evs] E].
    exists mgr', contents. rewrite E. reflexivity.
  - intros generate m m1 prompt pre config rest model text Hfail Ht Hm Hg.
    unfold GenerateWithBestModel.
    destruct (best_model_loop_past generate prompt pre (config :: rest)
                0%nat m None) as [lastErr' ->].
    { exact Hfail. }
    apply best_model_loop_first; assumption.
  - intros generate m m' prompt configs text name.
    unfold GenerateWithBestModel. apply best_model_loop_ok.
  - intros generate m prompt configs Hfail.
    unfold GenerateWithBestModel.
    destruct (best_model_loop_past generate prompt configs [] 0%nat m None)
      as [lastErr' E]; [exact Hfail|].
    rewrite app_nil_r in E. rewrite E. cbn [best_model_loop].
    destruct lastErr'; cbn; eauto.
Qed.

End ProviderFallback.

(* ===================================================================== *)
(** * Properties of the rest of the program *)
(* ===================================================================== *)

(** ** The queries of the storage *)

Section QueryFacts.
Context `{Float64} `{!OrderBy}.

Lemma same_key_key_of (c : Content) (r : Row) :
  same_key c r = true <-> key_of r = (Title c, Type_ c).
Proof.
  unfold same_key, key_of. rewrite andb_true_iff, !gostring_eqb_eq.
  split; [intros [-> ->]; reflexivity|intros E; injection E; auto].
Qed.

Lemma existsb_same_key (c : Content) (tbl : list Row) :
  existsb (same_key c) tbl = true <-> (Title c, Type_ c) ∈ map key_of tbl.
Proof.
  rewrite existsb_exists. change (map key_of tbl) with (key_of <$> tbl).
  rewrite list_elem_of_fmap. split.
  - intros (r & Hin & Hk). exists r. split.
    + symmetry. apply same_key_key_of, Hk.
    + apply list_elem_of_In, Hin.
  - intros (r & Hk & Hin). exists r. split.
    + apply list_elem_of_In, Hin.
    + apply same_key_key_of. symmetry. exact Hk.
Qed.

Lemma key_of_upserted (now : Z) (c : Content) (r : Row) :
  key_of (upserted now c r) = key_of r.
Proof. unfold upserted. destruct (same_key c r); reflexivity. Qed.

Lemma map_key_of_upserted (now : Z) (c : Content) (tbl : list Row) :
  map key_of (map (upserted now c) tbl) = map key_of tbl.
Proof.
  rewrite map_map. apply map_ext. intros r. apply key_of_upserted.
Qed.

(** What a call of SaveContent leaves, in every case. *)
Lemma SaveContent_cases (now : Z) (fault : DbFault) (c : Content)
      (tbl : list Row) :
  (exists e, SaveContent now fault c tbl = (tbl, Some e))
  \/ (existsb (same_key c) tbl = true
      /\ SaveContent now fault c tbl = (map (upserted now c) tbl, None))
  \/ (existsb (same_key c) tbl = false
      /\ SaveContent now fault c tbl = (tbl ++ [insert_row now c], None)).
Proof.
  unfold SaveContent.
  destruct fault; destruct (existsb (same_key c) tbl) eqn:E; eauto.
Qed.

Lemma SaveContent_well_keyed (now : Z) (fault : DbFault) (c : Content)
      (tbl : list Row) :
  well_keyed tbl -> well_keyed (SaveContent now fault c tbl).1.
Proof.
  intros [Hk Hs].
  destruct (SaveContent_cases now fault c tbl)
    as [[e ->]|[[E ->]|[E ->]]]; cbn [fst].
  - split; assumption.
  - split.
    + rewrite map_key_of_upserted. exact Hk.
    + rewrite Forall_forall in *. intros r' Hin.
      change (map (upserted now c) tbl) with (upserted now c <$> tbl) in Hin.
      apply list_elem_of_fmap in Hin as (r & -> & Hin).
      unfold upserted. destruct (same_key c r); cbn; apply Hs, Hin.
  - split.
    + rewrite map_app. apply NoDup_app. split; [exact Hk|].
      split; [|cbn; apply NoDup_singleton].
      intros k Hin Hin'. cbn in Hin'. apply list_elem_of_singleton in Hin'.
      subst k. unfold key_of, insert_row in Hin. cbn in Hin.
      apply existsb_same_key in Hin. congruence.
    + apply Forall_app. split; [exact Hs|].
      repeat constructor.
Qed.

Lemma saved_table_well_keyed (tbl : list Row) :
  saved_table tbl -> well_keyed tbl.
Proof.
  induction 1 as [|now fault c tbl _ IH].
  - split; constructor.
  - apply SaveContent_well_keyed, IH.
Qed.

Lemma well_keyed_at_most_one (tbl : list Row) (c : Content) :
  NoDup (map key_of tbl) ->
  (length (List.filter (same_key c) tbl) <= 1)%nat.
Proof.
  intros Hk. induction tbl as [|r tbl IH]; cbn; [lia|].
  apply NoDup_cons in Hk as [Hr Hk]. specialize (IH Hk).
  destruct (same_key c r) eqn:E; [|exact IH]. cbn.
  destruct (List.filter (same_key c) tbl) as [|r' rest] eqn:Ef; [cbn; lia|].
  exfalso. apply Hr.
  assert (Hin : In r' (List.filter (same_key c) tbl))
    by (rewrite Ef; left; reflexivity).
  apply filter_In in Hin as [Hin Hk'].
  apply same_key_key_of in E, Hk'. rewrite E, <- Hk'.
  change (map key_of tbl) with (key_of <$> tbl).
  apply list_elem_of_fmap. exists r'. split; [reflexivity|].
  apply list_elem_of_In, Hin.
Qed.

(** X1. Whatever SaveContent is given and however the driver fails, a table
    built from the empty one by calls of SaveContent never holds two rows
    with the same title and type (the schema declares no such constraint:
    the EXISTS query before the INSERT keeps it), every row has scraped_at
    equal to created_at, and so the UPDATE by title and type touches one row
    at most. *)
Theorem saved_table_keys_unique (tbl : list Row) :
  saved_table tbl ->
  NoDup (map key_of tbl)
  /\ Forall (fun r => scraped_at r = created_at r) tbl
  /\ forall c, (length (List.filter (same_key c) tbl) <= 1)%nat.
Proof.
  intros Hs. destruct (saved_table_well_keyed tbl Hs) as [Hk Hc].
  split; [exact Hk|]. split; [exact Hc|].
  intros c. apply well_keyed_at_most_one, Hk.
Qed.

Lemma scan_insert_row (now : Z) (c : Content) : scan (insert_row now c) = c.
Proof. destruct c; reflexivity. Qed.

Lemma scan_update_row (now : Z) (c : Content) (r : Row) :
  same_key c r = true -> scan (update_row now c r) = c.
Proof.
  intros E. apply andb_true_iff in E as [E1 E2].
  apply gostring_eqb_eq in E1, E2. destruct c. cbn in *.
  unfold scan, update_row. cbn. rewrite E1, E2. reflexivity.
Qed.

Lemma has_key_scan (c : Content) (r : Row) :
  has_key c (scan r) = same_key c r.
Proof. reflexivity. Qed.

Lemma filter_has_key_scan (c : Content) (rows : list Row) :
  List.filter (has_key c) (map scan rows)
  = map scan (List.filter (same_key c) rows).
Proof. apply filter_map_swap. Qed.

Lemma filter_Permutation {A} (f : A -> bool) (l l' : list A) :
  l ≡ₚ l' -> List.filter f l ≡ₚ List.filter f l'.
Proof.
  induction 1 as [|x l l' _ IH|x y l|l l' l'' _ IH1 _ IH2]; cbn.
  - reflexivity.
  - destruct (f x); [constructor|]; exact IH.
  - destruct (f x), (f y); try reflexivity. apply perm_swap.
  - etransitivity; eassumption.
Qed.

Lemma same_key_upserted (now : Z) (c c' : Content) (r : Row) :
  same_key c' (upserted now c r) = same_key c' r.
Proof. unfold upserted. destruct (same_key c r); reflexivity. Qed.

Lemma filter_same_key_upserted (now : Z) (c c' : Content) (tbl : list Row) :
  List.filter (same_key c') (map (upserted now c) tbl)
  = map (upserted now c) (List.filter (same_key c') tbl).
Proof.
  rewrite filter_map_swap. f_equal. apply filter_ext.
  intros r. apply same_key_upserted.
Qed.

Lemma filter_same_key_none (c : Content) (tbl : list Row) :
  existsb (same_key c) tbl = false -> List.filter (same_key c) tbl = [].
Proof.
  induction tbl as [|r tbl IH]; cbn; [reflexivity|].
  intros E. apply orb_false_iff in E as [-> E]. apply IH, E.
Qed.

Lemma filter_same_key_some (c : Content) (tbl : list Row) :
  existsb (same_key c) tbl = true -> List.filter (same_key c) tbl <> [].
Proof.
  induction tbl as [|r tbl IH]; cbn; [discriminate|].
  destruct (same_key c r); [discriminate|]. exact IH.
Qed.

(** X2. Read your write. On a table built by SaveContent, after a
    SaveContent that the driver does not fail, GetAllContent returns one
    record per row; exactly one of them has the title and type of the saved
    record, and it is the saved record, field for field; the records with
    another key are those GetAllContent returned before the call. *)
Theorem SaveContent_then_GetAllContent (now : Z) (c : Content)
        (tbl : list Row) :
  saved_table tbl ->
  exists tbl' before after,
    SaveContent now NoFault c tbl = (tbl', None)
    /\ GetAllContent None tbl = Ok before
    /\ GetAllContent None tbl' = Ok after
    /\ length after = length tbl'
    /\ List.filter (has_key c) after = [c]
    /\ List.filter (fun c' => negb (has_key c c')) after
       ≡ₚ List.filter (fun c' => negb (has_key c c')) before.
Proof.
  intros Hs.
  pose proof (well_keyed_at_most_one tbl c
                (proj1 (saved_table_well_keyed tbl Hs))) as Hone.
  destruct (existsb (same_key c) tbl) eqn:E.
  - (* update *)
    exists (map (upserted now c) tbl).
    eexists _, _. split; [apply SaveContent_present, E|].
    split; [reflexivity|]. split; [reflexivity|]. split; [|split].
    + rewrite length_map.
      apply Permutation_length, order_by_permutation.
    + rewrite filter_has_key_scan.
      pose proof (filter_Permutation (same_key c) _ _
                    (order_by_permutation (map (upserted now c) tbl))) as Hp.
      rewrite filter_same_key_upserted in Hp.
      pose proof (filter_same_key_some c tbl E) as Hne.
      destruct (List.filter (same_key c) tbl) as [|r [|r' rest]] eqn:Ef;
        [contradiction| |cbn in Hone; lia].
      cbn in Hp. apply Permutation_singleton_r in Hp. rewrite Hp. cbn.
      assert (Hr : same_key c r = true).
      { assert (Hin : In r (List.filter (same_key c) tbl))
          by (rewrite Ef; left; reflexivity).
        apply filter_In in Hin as [_ Hin]. exact Hin. }
      unfold upserted. rewrite Hr, scan_update_row by exact Hr. reflexivity.
    + rewrite !(filter_map_swap _ scan).
      apply Permutation_map.
      etransitivity;
        [apply filter_Permutation, order_by_permutation|].
      etransitivity;
        [|symmetry; apply filter_Permutation, order_by_permutation].
      rewrite filter_map_swap.
      erewrite (filter_ext _ (fun r => negb (has_key c (scan r)))).
      2:{ intros r. cbn. rewrite !has_key_scan, same_key_upserted.
          reflexivity. }
      apply Permutation_refl'.
      etransitivity; [|apply map_id]. apply map_ext_in.
      intros r Hin. apply filter_In in Hin as [_ Hin].
      rewrite has_key_scan in Hin. unfold upserted.
      destruct (same_key c r); [discriminate|reflexivity].
  - (* insert *)
    exists (tbl ++ [insert_row now c]).
    eexists _, _. split; [apply SaveContent_absent, E|].
    split; [reflexivity|]. split; [reflexivity|]. split; [|split].
    + rewrite length_map.
      apply Permutation_length, order_by_permutation.
    + rewrite filter_has_key_scan.
      pose proof (filter_Permutation (same_key c) _ _
                    (order_by_permutation (tbl ++ [insert_row now c]))) as Hp.
      rewrite List.filter_app, (filter_same_key_none c tbl E) in Hp.
      cbn in Hp. unfold same_key at 2 in Hp. cbn in Hp.
      rewrite !gostring_eqb_refl in Hp. cbn in Hp.
      apply Permutation_singleton_r in Hp. rewrite Hp. cbn.
      rewrite scan_insert_row. reflexivity.
    + rewrite !(filter_map_swap _ scan).
      apply Permutation_map.
      etransitivity;
        [apply filter_Permutation, order_by_permutation|].
      etransitivity;
        [|symmetry; apply filter_Permutation, order_by_permutation].
      rewrite List.filter_app. cbn. rewrite has_key_scan.
      unfold same_key. cbn. rewrite !gostring_eqb_refl. cbn.
      rewrite app_nil_r. reflexivity.
Qed.

Lemma count_nonneg (p : Row -> bool) (tbl : list Row) : 0 <= count p tbl.
Proof. unfold count. lia. Qed.

Lemma count_app (p : Row -> bool) (a b : list Row) :
  count p (a ++ b) = count p a + count p b.
Proof. unfold count. rewrite List.filter_app, length_app. lia. Qed.

Lemma count_upserted (now : Z) (c : Content) (t : gostring) (tbl : list Row) :
  count (of_type t) (map (upserted now c) tbl) = count (of_type t) tbl.
Proof.
  unfold count. rewrite filter_map_swap, length_map. f_equal. f_equal.
  apply filter_ext. intros r. unfold of_type, upserted.
  destruct (same_key c r); reflexivity.
Qed.

Lemma movie_not_series (r : Row) :
  of_type (str "movie") r = true -> of_type (str "series") r = false.
Proof.
  unfold of_type. intros E. apply gostring_eqb_eq in E. rewrite E.
  reflexivity.
Qed.

Lemma count_types (tbl : list Row) :
  count (of_type (str "movie")) tbl + count (of_type (str "series")) tbl
  = count (fun r => of_type (str "movie") r || of_type (str "series") r) tbl.
Proof.
  unfold count. induction tbl as [|r tbl IH]; [reflexivity|].
  cbn [List.filter].
  destruct (of_type (str "movie") r) eqn:Em.
  - rewrite (movie_not_series r Em). cbn [orb length]. lia.
  - destruct (of_type (str "series") r); cbn [orb length]; lia.
Qed.

Lemma count_all (p : Row -> bool) (tbl : list Row) :
  count p tbl = Z.of_nat (length tbl) <-> Forall (fun r => p r = true) tbl.
Proof.
  unfold count. split.
  - intros E. apply Nat2Z.inj in E. apply filter_length_forallb in E.
    apply Forall_forall. intros r Hin.
    rewrite forallb_forall in E. apply E, list_elem_of_In, Hin.
  - intros Hall. f_equal. f_equal. induction Hall as [|r t Hr _ IH]; cbn.
    + reflexivity.
    + rewrite Hr, IH. reflexivity.
Qed.

(** X3. When the driver does not fail, GetStats returns the keys total,
    movies and series and no other; total is the number of records of
    GetAllContent, movies and series are the numbers of records of
    GetContentByType for movie and for series, whose records all have the
    type asked for; movies plus series never exceeds total and equals it
    exactly when every row is a movie or a series. *)
Theorem GetStats_counts (tbl : list Row) :
  exists stats all movies series,
    GetStats (fun _ => None) tbl = Ok stats
    /\ GetAllContent None tbl = Ok all
    /\ GetContentByType None (str "movie") tbl = Ok movies
    /\ GetContentByType None (str "series") tbl = Ok series
    /\ stats !! str "total" = Some (len_of all)
    /\ stats !! str "movies" = Some (len_of movies)
    /\ stats !! str "series" = Some (len_of series)
    /\ (forall k, is_Some (stats !! k) ->
          k = str "total" \/ k = str "movies" \/ k = str "series")
    /\ len_of movies + len_of series <= len_of all
    /\ (len_of movies + len_of series = len_of all
        <-> Forall (fun r => type r = str "movie" \/ type r = str "series") tbl)
    /\ Forall (fun c => Type_ c = str "movie") movies
    /\ Forall (fun c => Type_ c = str "series") series.
Proof.
  eexists _, _, _, _.
  split; [reflexivity|]. split; [reflexivity|]. split; [reflexivity|].
  split; [reflexivity|].
  assert (Hlen : forall rows,
             len_of (map scan (order_by_created_at_desc rows))
             = Z.of_nat (length rows)).
  { intros rows. unfold len_of. rewrite length_map.
    f_equal. apply Permutation_length, order_by_permutation. }
  rewrite !Hlen. fold (count (of_type (str "movie")) tbl).
  fold (count (of_type (str "series")) tbl).
  assert (Htotal : count (fun _ => true) tbl = Z.of_nat (length tbl)).
  { apply count_all. apply Forall_forall. reflexivity. }
  split; [|split; [|split; [|split; [|split; [|split; [|split]]]]]].
  - rewrite !lookup_insert_ne by discriminate.
    rewrite lookup_insert_eq, Htotal. reflexivity.
  - rewrite lookup_insert_ne by discriminate.
    rewrite lookup_insert_eq. reflexivity.
  - rewrite lookup_insert_eq. reflexivity.
  - intros k Hk.
    destruct (decide (k = str "series")) as [->|N1]; [auto|].
    destruct (decide (k = str "movies")) as [->|N2]; [auto|].
    destruct (decide (k = str "total")) as [->|N3]; [auto|].
    rewrite !lookup_insert_ne, lookup_empty in Hk by congruence.
    destruct Hk as [? ?]. discriminate.
  - rewrite count_types. unfold count.
    pose proof (filter_length_le
                  (fun r => of_type (str "movie") r || of_type (str "series") r)
                  tbl). lia.
  - rewrite count_types, count_all. apply Forall_iff. intros r.
    unfold of_type. rewrite orb_true_iff, !gostring_eqb_eq. reflexivity.
  - apply Forall_forall. intros c Hin.
    change (map scan ?l) with (scan <$> l) in Hin.
    apply list_elem_of_fmap in Hin as (r & -> & Hin).
    rewrite order_by_permutation in Hin.
    apply list_elem_of_In, filter_In in Hin as [_ Hin].
    apply gostring_eqb_eq in Hin. exact Hin.
  - apply Forall_forall. intros c Hin.
    change (map scan ?l) with (scan <$> l) in Hin.
    apply list_elem_of_fmap in Hin as (r & -> & Hin).
    rewrite order_by_permutation in Hin.
    apply list_elem_of_In, filter_In in Hin as [_ Hin].
    apply gostring_eqb_eq in Hin. exact Hin.
Qed.

Lemma GetStats_ok_inv (f : nat -> option gostring) (tbl : list Row)
      (stats : gmap gostring Z) :
  GetStats f tbl = Ok stats ->
  stats = <[str "series" := count (of_type (str "series")) tbl]>
            (<[str "movies" := count (of_type (str "movie")) tbl]>
               (<[str "total" := count (fun _ => true) tbl]> ∅))
  /\ forall tbl', GetStats f tbl'
       = Ok (<[str "series" := count (of_type (str "series")) tbl']>
               (<[str "movies" := count (of_type (str "movie")) tbl']>
                  (<[str "total" := count (fun _ => true) tbl']> ∅))).
Proof.
  unfold GetStats.
  destruct (f 0%nat); [discriminate|]. destruct (f 1%nat); [discriminate|].
  destruct (f 2%nat); [discriminate|].
  intros E. injection E as <-. split; reflexivity.
Qed.

Lemma stats_total (a b c : Z) :
  (<[str "series" := c]> (<[str "movies" := b]> (<[str "total" := a]> ∅))
   : gmap gostring Z) !!! str "total" = a.
Proof.
  rewrite !lookup_total_insert_ne by discriminate.
  apply lookup_total_insert_eq.
Qed.

Lemma stats_movies (a b c : Z) :
  (<[str "series" := c]> (<[str "movies" := b]> (<[str "total" := a]> ∅))
   : gmap gostring Z) !!! str "movies" = b.
Proof.
  rewrite lookup_total_insert_ne by discriminate.
  apply lookup_total_insert_eq.
Qed.

Lemma stats_series (a b c : Z) :
  (<[str "series" := c]> (<[str "movies" := b]> (<[str "total" := a]> ∅))
   : gmap gostring Z) !!! str "series" = c.
Proof. apply lookup_total_insert_eq. Qed.

(** X4. What a save does to the statistics. Where GetStats succeeds before a
    call of SaveContent it succeeds after it; a save that fails and a save
    of a key that is present leave the statistics as they were; a successful
    save of a new key adds one to total, and one to movies or to series when
    the record has that type. *)
Theorem SaveContent_moves_stats (now : Z) (fault : DbFault) (c : Content)
        (tbl : list Row) (f : nat -> option gostring)
        (stats : gmap gostring Z) :
  GetStats f tbl = Ok stats ->
  let one (t : string) : Z :=
    if gostring_eqb (Type_ c) (str t) then 1 else 0 in
  exists stats',
    GetStats f (SaveContent now fault c tbl).1 = Ok stats'
    /\ (is_Some (SaveContent now fault c tbl).2 -> stats' = stats)
    /\ (existsb (same_key c) tbl = true -> stats' = stats)
    /\ ((SaveContent now fault c tbl).2 = None ->
        existsb (same_key c) tbl = false ->
        stats' !!! str "total" = stats !!! str "total" + 1
        /\ stats' !!! str "movies" = stats !!! str "movies" + one "movie"
        /\ stats' !!! str "series" = stats !!! str "series" + one "series").
Proof.
  intros Hs one. apply GetStats_ok_inv in Hs as [-> Hq].
  eexists. split; [apply Hq|].
  destruct (SaveContent_cases now fault c tbl)
    as [[e ->]|[[E ->]|[E ->]]]; cbn [fst snd].
  - split; [reflexivity|]. split; [reflexivity|]. discriminate.
  - assert (Ht : count (fun _ => true) (map (upserted now c) tbl)
                 = count (fun _ => true) tbl).
    { unfold count. rewrite filter_map_swap, length_map. reflexivity. }
    rewrite !count_upserted, Ht.
    split; [reflexivity|]. split; [reflexivity|]. congruence.
  - split; [intros [? ?]; discriminate|]. split; [congruence|].
    intros _ _. rewrite !stats_total, !stats_movies, !stats_series.
    rewrite !count_app.
    assert (Hone : forall t, count (of_type (str t)) [insert_row now c] = one t).
    { intros t. unfold count, of_type, one. cbn [List.filter insert_row type].
      destruct (gostring_eqb (Type_ c) (str t)); reflexivity. }
    rewrite !Hone. repeat split; reflexivity.
Qed.

Lemma Forall_Permutation_Prop {A} (P : A -> Prop) (l l' : list A) :
  l ≡ₚ l' -> Forall P l -> Forall P l'.
Proof. intros Hp. rewrite Hp. auto. Qed.

(** X5. A record saved under a new key, at an instant later than the
    creation of every row, is the first record GetAllContent returns; the
    others are the records of the rows that were there. *)
Theorem newest_is_first (now : Z) (c : Content) (tbl : list Row) :
  existsb (same_key c) tbl = false ->
  Forall (fun r => created_at r < now) tbl ->
  exists rest,
    GetAllContent None (SaveContent now NoFault c tbl).1 = Ok (c :: rest)
    /\ rest ≡ₚ map scan tbl.
Proof.
  intros E Hold. rewrite (SaveContent_absent now c tbl E). cbn [fst].
  unfold GetAllContent.
  pose proof (order_by_permutation (tbl ++ [insert_row now c])) as Hp.
  pose proof (order_by_descending (tbl ++ [insert_row now c])) as Hd.
  destruct (order_by_created_at_desc (tbl ++ [insert_row now c]))
    as [|h t] eqn:Eo.
  { apply Permutation_length in Hp. rewrite length_app in Hp.
    cbn in Hp. lia. }
  apply StronglySorted_inv in Hd as [_ Hh].
  assert (Hrow : insert_row now c ∈ h :: t).
  { rewrite Hp. apply elem_of_app. right. apply list_elem_of_singleton.
    reflexivity. }
  assert (Hhead : h = insert_row now c).
  { apply elem_of_cons in Hrow as [Hrow|Hrow]; [congruence|].
    assert (Hin : h ∈ tbl ++ [insert_row now c])
      by (rewrite <- Hp; left).
    apply elem_of_app in Hin as [Hin|Hin].
    - exfalso. rewrite Forall_forall in Hold, Hh.
      specialize (Hold h Hin). specialize (Hh _ Hrow). cbn in Hh. lia.
    - apply list_elem_of_singleton in Hin. exact Hin. }
  subst h. exists (map scan t). cbn [map]. rewrite scan_insert_row.
  split; [reflexivity|]. apply Permutation_map.
  apply (Permutation_cons_inv (a := insert_row now c)).
  rewrite Hp. symmetry. apply Permutation_cons_append.
Qed.

End QueryFacts.

(** ** What a run does to the table and to its log *)

Section MoreStorageFacts.
Context `{Float64}.

Lemma persists_refl (tbl : list Row) : persists tbl tbl.
Proof. intros n r Hn. exists r. auto. Qed.

Lemma persists_trans (a b c : list Row) :
  persists a b -> persists b c -> persists a c.
Proof.
  intros Hab Hbc n r Hn.
  destruct (Hab n r Hn) as (r1 & H1 & E1 & E2 & E3 & E4).
  destruct (Hbc n r1 H1) as (r2 & H2 & F1 & F2 & F3 & F4).
  exists r2. repeat split; congruence.
Qed.

Lemma persists_length (a b : list Row) :
  persists a b -> (length a <= length b)%nat.
Proof.
  intros Hp. destruct (decide (length a <= length b)%nat) as [|Hn]; [assumption|].
  destruct (lookup_lt_is_Some_2 a (length b) ltac:(lia)) as [r Hr].
  destruct (Hp _ _ Hr) as (r' & Hr' & _).
  apply lookup_lt_Some in Hr'. lia.
Qed.

Lemma SaveContent_persists (now : Z) (fault : DbFault) (c : Content)
      (tbl : list Row) :
  persists tbl (SaveContent now fault c tbl).1.
Proof.
  unfold SaveContent.
  destruct fault; cbn [fst]; try apply persists_refl;
    destruct (existsb (same_key c) tbl); cbn [fst];
    try apply persists_refl.
  - intros n r Hn. exists (upserted now c r).
    change (map ?f tbl) with (f <$> tbl).
    rewrite list_lookup_fmap, Hn. split; [reflexivity|].
    unfold upserted. destruct (same_key c r); cbn; auto.
  - intros n r Hn. exists r. split; [|auto].
    apply lookup_app_l_Some, Hn.
Qed.

Lemma stored_app (tbl more : list Row) (c : Content) :
  stored tbl c -> stored (tbl ++ more) c.
Proof. unfold stored. rewrite existsb_app. intros ->. reflexivity. Qed.

Lemma stored_upserted (now : Z) (c c' : Content) (tbl : list Row) :
  stored (map (upserted now c) tbl) c' <-> stored tbl c'.
Proof.
  unfold stored. induction tbl as [|r tbl IH]; cbn; [reflexivity|].
  unfold upserted at 1.
  assert (E : same_key c' (if same_key c r then update_row now c r else r)
              = same_key c' r) by (destruct (same_key c r); reflexivity).
  rewrite E, !orb_true_iff, IH. reflexivity.
Qed.

Lemma SaveContent_stored_mono (now : Z) (fault : DbFault) (c c' : Content)
      (tbl : list Row) :
  stored tbl c' -> stored (SaveContent now fault c tbl).1 c'.
Proof.
  intros Hs. unfold SaveContent.
  destruct fault; cbn [fst]; try exact Hs;
    destruct (existsb (same_key c) tbl); cbn [fst]; try exact Hs;
    try (apply stored_app, Hs);
    apply (stored_upserted now c c' tbl), Hs.
Qed.

Lemma SaveContent_ok_stored (now : Z) (fault : DbFault) (c : Content)
      (tbl : list Row) :
  (SaveContent now fault c tbl).2 = None ->
  stored (SaveContent now fault c tbl).1 c.
Proof.
  unfold SaveContent.
  destruct fault; cbn; try discriminate;
    destruct (existsb (same_key c) tbl) eqn:E; cbn; try discriminate;
    intros _.
  - apply stored_upserted. exact E.
  - unfold stored. rewrite existsb_app. cbn. unfold same_key at 2. cbn.
    rewrite !gostring_eqb_refl. cbn. apply orb_true_r.
Qed.

End MoreStorageFacts.

Section MoreRunFacts.
Context `{Float64} `{!Strconv} `{!EncodingJSON}.
Variable w : World.

(** The loop that saves the records of a source: the records it returns
    are among those it was given, each is stored when the loop ends, and
    what was stored before still is. *)
Lemma save_loop_saved (i : nat) (contents : list Content) (k : nat)
      (tbl : list Row) :
  let '(tbl', saved, evs) := save_loop w i k contents tbl in
  persists tbl tbl'
  /\ (forall c, stored tbl c -> stored tbl' c)
  /\ Forall (fun c => In c contents /\ stored tbl' c) saved.
Proof.
  revert k tbl. induction contents as [|c rest IH]; intros k tbl.
  - cbn. split; [apply persists_refl|]. split; [auto|constructor].
  - cbn [save_loop].
    pose proof (SaveContent_persists (db_now w i k) (db_fault w i k) c tbl)
      as Hp.
    pose proof (fun c' => SaveContent_stored_mono (db_now w i k)
                            (db_fault w i k) c c' tbl) as Hm.
    pose proof (SaveContent_ok_stored (db_now w i k) (db_fault w i k) c tbl)
      as Hok.
    destruct (SaveContent (db_now w i k) (db_fault w i k) c tbl)
      as [tbl1 [e|]]; cbn [fst snd] in *;
      specialize (IH (S k) tbl1);
      destruct (save_loop w i (S k) rest tbl1) as [[tbl2 saved] evs];
      destruct IH as (IH1 & IH2 & IH3).
    + split; [eapply persists_trans; eassumption|].
      split; [auto|].
      eapply Forall_impl; [exact IH3|]. cbn. intros c' [? ?]. auto.
    + split; [eapply persists_trans; eassumption|].
      split; [auto|].
      constructor; [split; [left; reflexivity|auto]|].
      eapply Forall_impl; [exact IH3|]. cbn. intros c' [? ?]. auto.
Qed.

Lemma process_source_accounted (urls : list gostring) (i : nat)
      (url : gostring) (s s' : Sys) (l l' : Locals) :
  In url urls ->
  process_source w i url s l = Some (s', l') ->
  accounted urls s l ->
  accounted urls s' l' /\ persists (table s) (table s').
Proof.
  intros Hin. unfold process_source.
  destruct (Scrape w i url) as [text|e].
  2:{ intros E Ha. injection E as <- <-. split; [exact Ha|apply persists_refl]. }
  destruct (extractWithProviders w i (modelMgr s) text)
    as [[[mgr contents] evs]|]; [|discriminate].
  cbn [mbind option_bind].
  destruct (0 <? Z.of_nat (length contents)).
  2:{ intros E Ha. injection E as <- <-. split; [exact Ha|apply persists_refl]. }
  pose proof (save_loop_saved i (map (with_source url) contents) 0 (table s))
    as Hs.
  destruct (save_loop w i 0 _ (table s)) as [[tbl saved] evs'].
  destruct Hs as (Hp & Hm & Hsaved).
  intros E [Ht Hall]. injection E as <- <-. cbn.
  split; [|exact Hp]. split.
  - cbn. unfold len_of in *. rewrite length_app. lia.
  - cbn. apply Forall_app. split.
    + eapply Forall_impl; [exact Hall|]. cbn. intros c [? ?]. auto.
    + eapply Forall_impl; [exact Hsaved|]. cbn. intros c [Hc ?].
      split; [|assumption]. apply in_map_iff in Hc as (c0 & <- & _).
      exists url. split; [exact Hin|reflexivity].
Qed.

Lemma logged_table (evs : list Event) (s : Sys) :
  table (logged evs s) = table s.
Proof. reflexivity. Qed.

Lemma process_sources_accounted (urls0 urls : list gostring) (i : nat)
      (s s' : Sys) (l l' : Locals) :
  incl urls urls0 ->
  process_sources w i urls s l = Some (s', l') ->
  accounted urls0 s l ->
  accounted urls0 s' l' /\ persists (table s) (table s').
Proof.
  revert i s l. induction urls as [|url rest IH]; intros i s l Hincl; cbn.
  - intros E Ha. injection E as <- <-. split; [exact Ha|apply persists_refl].
  - destruct (process_source w i url _ l) as [[s1 l1]|] eqn:E1; [|discriminate].
    cbn. intros E2 Ha.
    eapply process_source_accounted in E1 as [Ha1 Hp1];
      [|apply Hincl; left; reflexivity|exact Ha].
    eapply IH in E2 as [Ha2 Hp2];
      [|intros u Hu; apply Hincl; right; exact Hu|exact Ha1].
    split; [exact Ha2|]. eapply persists_trans; eassumption.
Qed.

(** A run that returns nil has gone through every source and then through
    the finalization. *)
Lemma run_loop_finished (j : ContentScraperJob) (urls : list gostring)
      (i : nat) (s s' : Sys) (l : Locals) :
  run_loop w j i urls s l = Some (s', None) ->
  exists s1 l1,
    process_sources w i urls s l = Some (s1, l1)
    /\ s' = finish_run w j s1 l1.
Proof.
  revert i s l. induction urls as [|url rest IH]; intros i s l; cbn.
  - intros E. injection E as <-. eauto.
  - destruct (ctx_Err w i); [discriminate|].
    destruct (process_source w i url _ l) as [[s1 l1]|]; [|discriminate].
    cbn. apply IH.
Qed.

Lemma run_loop_persists (j : ContentScraperJob) (urls : list gostring)
      (i : nat) (s s' : Sys) (l : Locals) (r : option gostring) :
  run_loop w j i urls s l = Some (s', r) ->
  persists (table s) (table s').
Proof.
  revert i s l. induction urls as [|url rest IH]; intros i s l; cbn.
  - intros E. injection E as <- _. unfold finish_run.
    destruct (_ && _); [|destruct (0 <? _)]; apply persists_refl.
  - destruct (ctx_Err w i).
    + intros E. injection E as <- _. apply persists_refl.
    + destruct (process_source w i url _ l) as [[s1 l1]|] eqn:E1;
        [|discriminate].
      cbn. intros E2. apply IH in E2.
      assert (Hp : persists (table s) (table s1)).
      { clear E2. unfold process_source in E1.
        destruct (Scrape w i url) as [text|e].
        2:{ injection E1 as <- _. apply persists_refl. }
        destruct (extractWithProviders w i _ text)
          as [[[mgr contents] evs]|]; [|discriminate].
        cbn [mbind option_bind] in E1.
        destruct (0 <? Z.of_nat (length contents)).
        2:{ injection E1 as <- _. apply persists_refl. }
        pose proof (save_loop_saved i (map (with_source url) contents) 0
                      (table (logged [Printf "Scraping content from %s"
                                        [AStr url]] s))) as Hs.
        destruct (save_loop w i 0 _ _) as [[tbl saved] evs'].
        destruct Hs as (Hp & _). injection E1 as <- _. exact Hp. }
      eapply persists_trans; eassumption.
Qed.

(** X6. A run deletes no row and changes neither the key nor the creation
    instants of one: every row of the table is, after Run, at its place with
    its title, type, created_at and scraped_at, whatever Run returns. *)
Theorem Run_keeps_rows (j : ContentScraperJob) (s s' : Sys)
        (r : option gostring) :
  Run w j s = Some (s', r) ->
  persists (table s) (table s')
  /\ (length (table s) <= length (table s'))%nat.
Proof.
  unfold Run. intros E. apply run_loop_persists in E. cbn in E.
  split; [exact E|]. apply persists_length, E.
Qed.

(** Nothing is taken out of the trace. *)
Lemma run_loop_trace_grows (j : ContentScraperJob) (urls : list gostring)
      (i : nat) (s s' : Sys) (l : Locals) (r : option gostring) (e : Event) :
  run_loop w j i urls s l = Some (s', r) ->
  In e (trace s) -> In e (trace s').
Proof.
  revert i s l. induction urls as [|url rest IH]; intros i s l; cbn [run_loop].
  - intros E Hin. injection E as <- _. unfold finish_run.
    destruct (_ && _); [|destruct (0 <? _)]; cbn;
      repeat (apply in_or_app; left); exact Hin.
  - destruct (ctx_Err w i).
    + intros E Hin. injection E as <- _. cbn. apply in_or_app. left.
      exact Hin.
    + destruct (process_source w i url _ _) as [[s1 l1]|] eqn:E1;
        [|discriminate].
      cbn [mbind option_bind]. intros E Hin.
      apply process_source_trace in E1 as (evs1 & E1 & _).
      apply (IH (S i) s1 l1 E). rewrite E1. cbn.
      apply in_or_app. left. apply in_or_app. left. exact Hin.
Qed.

(** Run on its effective sources. *)
Lemma Run_effective (j : ContentScraperJob) (s : Sys) :
  exists j',
    sourceURLs j' = effective_sources j
    /\ sendEmails j' = sendEmails j /\ emailNotifier j' = emailNotifier j
    /\ Run w j s
       = run_loop w j' 0 (effective_sources j)
           (logged [Printf "Running content scraper job with %d sources"
                      [AInt (Z.of_nat (length (sourceURLs j)))]] s)
           {| totalContentScraped := 0; allScrapedContent := [] |}.
Proof.
  unfold Run, effective_sources.
  destruct (Z.of_nat (length (sourceURLs j)) =? 0).
  - exists {| sourceURLs := [str "https://nkiri.com/"];
              emailNotifier := emailNotifier j; sendEmails := sendEmails j |}.
    repeat split; reflexivity.
  - exists j. repeat split; reflexivity.
Qed.

(** X7. When Run returns nil, the count of its summary line is the number of
    records it collected; each of them carries the URL of a source of the
    run and has its key in the table; the notifier is called with exactly
    these records and the sources of the run when mails are enabled and
    there is a record, and the run calls it in no other case. *)
Theorem Run_reports_what_it_saved (j : ContentScraperJob) (s s' : Sys) :
  Run w j s = Some (s', None) ->
  exists saved,
    In (summary_line (len_of saved) (len_of (effective_sources j))) (trace s')
    /\ Forall (fun c => stamped (effective_sources j) c
                        /\ stored (table s') c) saved
    /\ (sendEmails j = true -> emailNotifier j = true -> saved <> [] ->
        In (NotifyContentUpdate saved (effective_sources j)) (trace s'))
    /\ (forall cs urls,
          In (NotifyContentUpdate cs urls) (trace s') ->
          In (NotifyContentUpdate cs urls) (trace s)
          \/ (cs = saved /\ urls = effective_sources j /\ saved <> []
              /\ sendEmails j = true /\ emailNotifier j = true)).
Proof.
  destruct (Run_effective j s) as (j' & Eu & Es & En & ->).
  intros E. apply run_loop_finished in E as (s1 & l1 & E1 & ->).
  pose proof E1 as E1'.
  eapply process_sources_accounted in E1' as [[Ht Hall] _];
    [|apply incl_refl|split; [reflexivity|constructor]].
  apply process_sources_trace in E1 as (evs & Etr & Hq & _).
  cbn [logged trace] in Etr.
  exists (allScrapedContent l1).
  assert (Htable : table (finish_run w j' s1 l1) = table s1).
  { unfold finish_run. destruct (_ && _); [|destruct (0 <? _)]; reflexivity. }
  assert (Hnew : forall cs urls,
             In (NotifyContentUpdate cs urls) (trace s1) ->
             In (NotifyContentUpdate cs urls) (trace s)).
  { intros cs urls Hin. rewrite Etr in Hin.
    apply in_app_or in Hin as [Hin|Hin].
    - apply in_app_or in Hin as [Hin|Hin]; [exact Hin|].
      destruct Hin as [Hin|[]]. discriminate.
    - exfalso. rewrite Forall_forall in Hq.
      apply (Hq _ (proj2 (list_elem_of_In _ _) Hin)). }
  rewrite Htable. unfold summary_line, summary_format, len_of.
  rewrite <- Eu in Hall. rewrite <- Eu, <- Es, <- En. unfold len_of in Ht.
  unfold finish_run. rewrite Ht.
  destruct (0 <? Z.of_nat (length (allScrapedContent l1))) eqn:Epos.
  - assert (Hne : allScrapedContent l1 <> [])
      by (intros Hnil; rewrite Hnil in Epos; discriminate).
    destruct (sendEmails j' && emailNotifier j') eqn:Eflags; cbn [andb].
    + apply andb_true_iff in Eflags as [Ef1 Ef2].
      split; [|split; [exact Hall|split]].
      * cbn. apply in_or_app. left. apply in_or_app. right. left. reflexivity.
      * intros _ _ _. cbn. apply in_or_app. right. right. left. reflexivity.
      * intros cs urls Hin. cbn in Hin.
        apply in_app_or in Hin as [Hin|Hin].
        -- apply in_app_or in Hin as [Hin|Hin]; [left; auto|].
           destruct Hin as [Hin|[]]. discriminate.
        -- destruct Hin as [Hin|[Hin|Hin]]; [discriminate| |].
           ++ injection Hin as <- <-. right. auto.
           ++ destruct (notify_err w); [|destruct Hin].
              destruct Hin as [Hin|[]]. discriminate.
    + split; [|split; [exact Hall|split]].
      * cbn. apply in_or_app. left. apply in_or_app. right. left. reflexivity.
      * intros F1 F2. rewrite F1, F2 in Eflags. discriminate.
      * intros cs urls Hin. cbn in Hin.
        apply in_app_or in Hin as [Hin|Hin].
        -- apply in_app_or in Hin as [Hin|Hin]; [left; auto|].
           destruct Hin as [Hin|[]]. discriminate.
        -- destruct Hin as [Hin|[]]. discriminate.
  - rewrite andb_false_r.
    split; [|split; [exact Hall|split]].
    + cbn. apply in_or_app. right. left. reflexivity.
    + intros _ _ Hne. exfalso.
      destruct (allScrapedContent l1); [contradiction|].
      cbn in Epos. discriminate.
    + intros cs urls Hin. cbn in Hin.
      apply in_app_or in Hin as [Hin|Hin]; [left; auto|].
      destruct Hin as [Hin|[]]. discriminate.
Qed.

Lemma extractWithProviders_no_keys (i : nat) (mgr : ModelManager)
      (scrapedText : gostring) :
  no_keys w ->
  extractWithProviders w i mgr scrapedText = wret (mgr, []).
Proof.
  intros Hk. destruct (Hk i) as [Hg Ho]. unfold extractWithProviders.
  rewrite tryGemini_no_key by exact Hg. cbn [wret wbind fst snd].
  rewrite tryOpenAI_no_key by exact Ho. reflexivity.
Qed.

Lemma process_source_no_keys (i : nat) (url : gostring) (s s' : Sys)
      (l l' : Locals) :
  no_keys w ->
  process_source w i url s l = Some (s', l') ->
  l' = l /\ table s' = table s /\ modelMgr s' = modelMgr s
  /\ exists evs, trace s' = trace s ++ evs /\ Forall not_a_notification evs.
Proof.
  intros Hk. unfold process_source.
  destruct (Scrape w i url) as [text|e].
  - rewrite extractWithProviders_no_keys by exact Hk.
    cbn. intros E. injection E as <- <-. cbn.
    repeat split. eexists. split; [reflexivity|]. repeat constructor.
  - intros E. injection E as <- <-. cbn.
    repeat split. eexists. split; [reflexivity|]. repeat constructor.
Qed.

Lemma run_loop_no_keys (j : ContentScraperJob) (urls : list gostring)
      (i : nat) (s s' : Sys) (r : option gostring) :
  no_keys w ->
  run_loop w j i urls s {| totalContentScraped := 0; allScrapedContent := [] |}
  = Some (s', r) ->
  table s' = table s /\ modelMgr s' = modelMgr s
  /\ exists evs, trace s' = trace s ++ evs
       /\ Forall not_a_notification evs
       /\ (r = None ->
           In (summary_line 0 (len_of (sourceURLs j))) evs).
Proof.
  intros Hk. revert i s. induction urls as [|url rest IH]; intros i s; cbn.
  - intros E. injection E as <- <-. unfold finish_run. cbn [allScrapedContent].
    rewrite andb_false_r. cbn.
    repeat split. eexists. split; [reflexivity|].
    split; [repeat constructor|]. intros _. left. reflexivity.
  - destruct (ctx_Err w i).
    + intros E. injection E as <- <-. cbn. repeat split.
      eexists. split; [reflexivity|]. split; [repeat constructor|].
      discriminate.
    + destruct (process_source w i url _ _) as [[s1 l1]|] eqn:E1;
        [|discriminate].
      apply process_source_no_keys in E1 as (-> & Ht & Hm & evs1 & Etr & Hq);
        [|exact Hk].
      cbn. intros E2. apply IH in E2 as (Ht2 & Hm2 & evs2 & Etr2 & Hq2 & Hs).
      cbn in Ht, Hm, Etr.
      split; [congruence|]. split; [congruence|].
      exists ([Printf "Scraping content from %s" [AStr url]] ++ evs1 ++ evs2).
      split; [rewrite Etr2, Etr, <- !app_assoc; reflexivity|].
      split.
      * apply Forall_app. split; [repeat constructor|].
        apply Forall_app. split; assumption.
      * intros Hr. apply in_or_app. right. apply in_or_app. right. auto.
Qed.

(** X8. With neither GEMINI_API_KEY nor OPENAI_API_KEY set, a run leaves the
    table and the model manager as they were, reports 0 items when it
    returns nil, and does not call the notifier. *)
Theorem Run_without_keys (j : ContentScraperJob) (s s' : Sys)
        (r : option gostring) :
  no_keys w ->
  Run w j s = Some (s', r) ->
  table s' = table s
  /\ modelMgr s' = modelMgr s
  /\ (r = None ->
      In (summary_line 0 (len_of (effective_sources j))) (trace s'))
  /\ (forall cs urls,
        In (NotifyContentUpdate cs urls) (trace s') ->
        In (NotifyContentUpdate cs urls) (trace s)).
Proof.
  intros Hk. destruct (Run_effective j s) as (j' & Eu & _ & _ & ->).
  intros E. apply run_loop_no_keys in E as (Ht & Hm & evs & Etr & Hq & Hs);
    [|exact Hk].
  cbn in Ht, Hm, Etr. split; [exact Ht|]. split; [exact Hm|]. split.
  - intros Hr. rewrite Etr, <- Eu. apply in_or_app. right. apply Hs, Hr.
  - intros cs urls Hin. rewrite Etr in Hin.
    apply in_app_or in Hin as [Hin|Hin].
    + apply in_app_or in Hin as [Hin|Hin]; [exact Hin|].
      destruct Hin as [Hin|[]]. discriminate.
    + exfalso. rewrite Forall_forall in Hq.
      apply (Hq _ (proj2 (list_elem_of_In _ _) Hin)).
Qed.

End MoreRunFacts.

(** ** The scheduler, started, stopped and run by hand *)

Section MoreSchedulerFacts.
Context {J St : Type} `{Job J} `{Cron}.
Variable run : J -> St -> option (St * option gostring).

Lemma AddJob_cases (s : Scheduler J) (spec : gostring) (job : J) :
  (exists e, AddJob s spec job = (s, Some e))
  \/ (jobs s !! Name job = None
      /\ AddJob s spec job
         = ({| cron := cron s ++ [(spec, job)];
               jobs := <[Name job := job]> (jobs s);
               isRunning := isRunning s |}, None)).
Proof.
  destruct (jobs s !! Name job) as [j0|] eqn:Hj.
  - left. rewrite AddJob_registered by (rewrite Hj; eauto). eauto.
  - destruct (parse_spec spec) as [e|] eqn:Hp.
    + left. rewrite (AddJob_fresh_refused s spec e job Hj Hp). eauto.
    + right. split; [reflexivity|]. apply AddJob_fresh_ok; assumption.
Qed.

(** X9. After a successful AddJob, RunJobNow with the name of the job logs
    one line and runs that job, returning what it returns; for any other
    name it does what it did before the AddJob; on a new scheduler it runs
    nothing and returns the error that the job is not registered. *)
Theorem AddJob_then_RunJobNow (s s' : Scheduler J) (spec : gostring)
        (job : J) (st : St) :
  AddJob s spec job = (s', None) ->
  RunJobNow run s' (Name job) st
  = ([Logged "Manually running job: %s" [AStr (Name job)]], run job st)
  /\ (forall name, name <> Name job ->
        RunJobNow run s' name st = RunJobNow run s name st)
  /\ (forall name,
        RunJobNow run (NewScheduler (J := J)) name st
        = ([], Some (st, Some (str "job " ++ name ++ str " not registered")))).
Proof.
  intros E. destruct (AddJob_cases s spec job) as [[e E']|[Hj E']];
    rewrite E' in E; [discriminate|]. injection E as <-.
  split; [|split].
  - unfold RunJobNow. cbn [jobs]. rewrite lookup_insert_eq. reflexivity.
  - intros name Hne. unfold RunJobNow. cbn [jobs].
    rewrite lookup_insert_ne by congruence. reflexivity.
  - intros name. unfold RunJobNow, NewScheduler. cbn [jobs].
    rewrite lookup_empty. reflexivity.
Qed.

Lemma AddJob_one_entry_each (s : Scheduler J) (spec : gostring) (job : J) :
  one_entry_each s -> one_entry_each (AddJob s spec job).1.
Proof.
  intros (Hn & Hc & Hj).
  destruct (AddJob_cases s spec job) as [[e ->]|[Hfresh ->]]; cbn [fst].
  { split; [|split]; assumption. }
  split; [|split].
  - unfold scheduled_names. cbn [cron]. rewrite map_app.
    apply NoDup_app. split; [exact Hn|]. split; [|apply NoDup_singleton].
    intros name Hin Hin'. cbn in Hin'. apply list_elem_of_singleton in Hin'.
    subst name. change (map ?f ?l) with (f <$> l) in Hin.
    apply list_elem_of_fmap in Hin as ([spec' job'] & E & Hin).
    cbn in E. apply Hc in Hin. rewrite <- E in Hin. congruence.
  - intros spec' job' Hin. cbn [cron jobs] in *.
    apply elem_of_app in Hin as [Hin|Hin].
    + pose proof (Hc _ _ Hin) as Hl.
      rewrite lookup_insert_ne; [exact Hl|]. congruence.
    + apply list_elem_of_singleton in Hin. injection Hin as -> ->.
      apply lookup_insert_eq.
  - intros name job' Hl. cbn [cron jobs] in *.
    destruct (decide (name = Name job)) as [->|Hne].
    + rewrite lookup_insert_eq in Hl. injection Hl as <-.
      split; [reflexivity|]. exists spec. apply elem_of_app. right.
      apply list_elem_of_singleton. reflexivity.
    + rewrite lookup_insert_ne in Hl by congruence.
      destruct (Hj _ _ Hl) as [-> [spec' Hin]].
      split; [reflexivity|]. exists spec'. apply elem_of_app. left. exact Hin.
Qed.

Lemma call_one_entry_each (s : Scheduler J) (c : Call) :
  one_entry_each s -> one_entry_each (call s c).
Proof.
  intros Hs. destruct c as [spec job|job| |]; cbn [call].
  - apply AddJob_one_entry_each, Hs.
  - unfold AddMorningEveningJob.
    pose proof (AddJob_one_entry_each s (str "0 0 10 * * *") job Hs) as H1.
    destruct (AddJob s (str "0 0 10 * * *") job) as [s1 [e|]]; [exact H1|].
    apply AddJob_one_entry_each, H1.
  - unfold Start. destruct (isRunning s); exact Hs.
  - unfold Stop. destruct (isRunning s); exact Hs.
Qed.

(** X10. After any sequence of AddJob, AddMorningEveningJob, Start and Stop
    on a new scheduler, cron holds exactly one entry for each job of the map
    and none for any other job: the names of the entries are distinct, so no
    job is ever scheduled twice. *)
Theorem scheduler_one_entry_per_job (calls : list (Call (J := J))) :
  let s := after calls in
  NoDup (scheduled_names s)
  /\ (forall spec job, (spec, job) ∈ cron s -> jobs s !! Name job = Some job)
  /\ (forall name job, jobs s !! name = Some job ->
        name = Name job /\ exists spec, (spec, job) ∈ cron s)
  /\ length (cron s) = size (jobs s).
Proof.
  cbn zeta.
  assert (Hinv : one_entry_each (after calls)).
  { unfold after.
    assert (Hnew : one_entry_each (NewScheduler (J := J))).
    { split; [constructor|]. split.
      - intros spec job Hin. inversion Hin.
      - intros name job Hl. cbn in Hl. rewrite lookup_empty in Hl.
        discriminate. }
    revert Hnew. generalize (NewScheduler (J := J)).
    induction calls as [|c rest IH]; intros s Hs; [exact Hs|].
    cbn [fold_left]. apply IH, call_one_entry_each, Hs. }
  destruct Hinv as (Hn & Hc & Hj).
  split; [exact Hn|]. split; [exact Hc|]. split; [exact Hj|].
  rewrite <- (length_map (fun e : gostring * J => Name e.2)).
  fold (scheduled_names (after calls)).
  rewrite <- size_dom.
  rewrite <- (size_list_to_set (C := gset gostring) _ Hn).
  f_equal. apply set_eq. intros name.
  rewrite elem_of_list_to_set, elem_of_dom. unfold scheduled_names.
  change (map ?f ?l) with (f <$> l). rewrite list_elem_of_fmap. split.
  - intros ([spec job] & -> & Hin). cbn. rewrite (Hc _ _ Hin). eauto.
  - intros [job Hl]. destruct (Hj _ _ Hl) as [-> [spec Hin]].
    exists (spec, job). split; [reflexivity|exact Hin].
Qed.

Lemma call_isRunning (s : Scheduler J) (c : Call) :
  in_turn (isRunning s) (call_events s c) = true
  /\ forall rest, in_turn (isRunning s) (call_events s c ++ rest)
                  = in_turn (isRunning (call s c)) rest.
Proof.
  destruct c as [spec job|job| |]; cbn [call call_events app].
  - split; [reflexivity|]. intros rest.
    destruct (AddJob_cases s spec job) as [[e ->]|[_ ->]]; reflexivity.
  - split; [reflexivity|]. intros rest. unfold AddMorningEveningJob.
    destruct (AddJob_cases s (str "0 0 10 * * *") job) as [[e ->]|[_ ->]];
      [reflexivity|].
    match goal with
    | |- context [AddJob ?s1 ?sp ?jb] =>
        destruct (AddJob_cases s1 sp jb) as [[e ->]|[_ ->]]; reflexivity
    end.
  - unfold Start. destruct (isRunning s) eqn:E; cbn; rewrite ?E; auto.
  - unfold Stop. destruct (isRunning s) eqn:E; cbn; rewrite ?E; auto.
Qed.

(** X11. In any sequence of calls on a new scheduler, cron.Start is called
    only while cron is stopped and cron.Stop only while it runs; a second
    Start or Stop in a row does nothing and logs nothing; neither touches
    the jobs or the entries. *)
Theorem cron_started_and_stopped_in_turn (calls : list (Call (J := J))) :
  in_turn false (events_from NewScheduler calls) = true
  /\ (forall s : Scheduler J,
        Start (Start s).1 = ((Start s).1, [])
        /\ Stop (Stop s).1 = ((Stop s).1, [])
        /\ cron (Start s).1 = cron s /\ jobs (Start s).1 = jobs s
        /\ cron (Stop s).1 = cron s /\ jobs (Stop s).1 = jobs s).
Proof.
  split.
  - change false with (isRunning (NewScheduler (J := J))).
    generalize (NewScheduler (J := J)).
    induction calls as [|c rest IH]; intros s; [reflexivity|].
    cbn [events_from]. rewrite (proj2 (call_isRunning s c)). apply IH.
  - intros s. unfold Start, Stop.
    destruct s as [c j [|]]; cbn; repeat split; reflexivity.
Qed.

End MoreSchedulerFacts.

(** ** The model manager *)

Section MoreManagerFacts.

Lemma factory_CreateModel_ok (f : ModelFactory) (config : ModelConfig) :
  APIKey config <> [] -> exists model, factory_CreateModel f config = Ok model.
Proof.
  intros Hk. apply gostring_eqb_neq in Hk.
  destruct f; cbn; unfold NewOpenAIModel, NewGeminiModel; rewrite Hk; eauto.
Qed.

Lemma factory_CreateModel_no_key (f : ModelFactory) (config : ModelConfig) :
  APIKey config = [] -> exists e, factory_CreateModel f config = Err e.
Proof.
  intros Hk.
  destruct f; cbn; unfold NewOpenAIModel, NewGeminiModel; rewrite Hk; cbn; eauto.
Qed.

Lemma CreateModel_cases (m : ModelManager) (modelType : gostring)
      (config : ModelConfig) :
  (exists e, CreateModel m modelType config = (m, Err e)
             /\ (factories m !! modelType = None \/ APIKey config = []))
  \/ (exists factory model,
         factories m !! modelType = Some factory
         /\ APIKey config <> []
         /\ factory_CreateModel factory config = Ok model
         /\ CreateModel m modelType config
            = ({| factories := factories m;
                  models := <[model_key modelType (ModelName config) := model]>
                              (models m) |}, Ok model)).
Proof.
  unfold CreateModel.
  destruct (factories m !! modelType) as [factory|] eqn:Ef; [|eauto].
  destruct (decide (APIKey config = [])) as [Hk|Hk].
  - destruct (factory_CreateModel_no_key factory config Hk) as [e ->]. eauto.
  - destruct (factory_CreateModel_ok factory config Hk) as [model E].
    rewrite E. right. eauto 10.
Qed.

(** X12. A model made by CreateModel is the one GetModel returns under the
    same type and the configured name; GetOrCreateModel then returns it for
    every configuration with that name, whatever its API key, base URL or
    timeout; the models under other keys and the factories are untouched. *)
Theorem CreateModel_then_GetModel (m m' : ModelManager)
        (modelType : gostring) (config : ModelConfig) (model : Model) :
  CreateModel m modelType config = (m', Ok model) ->
  GetModel m' modelType (ModelName config) = Some model
  /\ (forall config',
        ModelName config' = ModelName config ->
        GetOrCreateModel m' modelType config' = (m', Ok model))
  /\ (forall t n,
        model_key t n <> model_key modelType (ModelName config) ->
        GetModel m' t n = GetModel m t n)
  /\ factories m' = factories m.
Proof.
  intros E.
  destruct (CreateModel_cases m modelType config)
    as [(e & E' & _)|(factory & model' & Ef & Hk & Em & E')];
    rewrite E' in E; [discriminate|].
  injection E as <- <-.
  assert (Hget : GetModel
                   {| factories := factories m;
                      models := <[model_key modelType (ModelName config) := model']>
                                  (models m) |} modelType (ModelName config)
                 = Some model').
  { unfold GetModel. cbn [models]. apply lookup_insert_eq. }
  split; [exact Hget|]. split; [|split; [|reflexivity]].
  - intros config' En. unfold GetOrCreateModel. rewrite En, Hget. reflexivity.
  - intros t n Hne. unfold GetModel. cbn [models].
    apply lookup_insert_ne. intros Heq. apply Hne. symmetry. exact Heq.
Qed.

(** X13. CreateModel succeeds exactly when a factory is registered for the
    type and the API key is not empty; when it fails the manager is
    unchanged; with the factories of NewModelManager the type is then openai
    or gemini and the name of the model is the type, a colon and the
    configured model name, or the default name of the provider when none is
    configured. *)
Theorem CreateModel_ok_iff (m : ModelManager) (modelType : gostring)
        (config : ModelConfig) :
  ((exists m' model, CreateModel m modelType config = (m', Ok model))
   <-> is_Some (factories m !! modelType) /\ APIKey config <> [])
  /\ (forall m' e, CreateModel m modelType config = (m', Err e) -> m' = m)
  /\ (forall m' model,
        factories m = factories NewModelManager ->
        CreateModel m modelType config = (m', Ok model) ->
        (modelType = ModelTypeOpenAI \/ modelType = ModelTypeGemini)
        /\ GetModelName model
           = model_key modelType
               (if gostring_eqb (ModelName config) []
                then if gostring_eqb modelType ModelTypeOpenAI
                     then str "gpt-3.5-turbo" else str "gemini-1.5-flash"
                else ModelName config)).
Proof.
  destruct (CreateModel_cases m modelType config)
    as [(e & E & Hwhy)|(factory & model & Ef & Hk & Em & E)]; rewrite E.
  - split; [|split].
    + split.
      * intros (m' & model & E'). discriminate.
      * intros [[f Hf] Hk]. destruct Hwhy; congruence.
    + intros m' e' E'. injection E' as <- _. reflexivity.
    + intros m' model _ E'. discriminate.
  - split; [|split].
    + split; [|eauto]. intros _. split; [rewrite Ef; eauto|exact Hk].
    + intros m' e' E'. discriminate.
    + intros m' model0 Hf E'. injection E' as _ <-.
      rewrite Hf in Ef. unfold NewModelManager in Ef. cbn [factories] in Ef.
      destruct (decide (modelType = ModelTypeGemini)) as [->|Hg].
      * rewrite lookup_insert_eq in Ef. injection Ef as <-.
        split; [auto|]. cbn in Em. unfold NewGeminiModel in Em.
        destruct (gostring_eqb (APIKey config) []); [discriminate|].
        injection Em as <-. cbn. unfold or_default, model_key.
        destruct (gostring_eqb (ModelName config) []); reflexivity.
      * rewrite lookup_insert_ne in Ef by congruence.
        destruct (decide (modelType = ModelTypeOpenAI)) as [->|Ho].
        -- rewrite lookup_insert_eq in Ef. injection Ef as <-.
           split; [auto|]. cbn in Em. unfold NewOpenAIModel in Em.
           destruct (gostring_eqb (APIKey config) []); [discriminate|].
           injection Em as <-. cbn. unfold or_default, model_key.
           destruct (gostring_eqb (ModelName config) []); reflexivity.
        -- rewrite lookup_insert_ne, lookup_empty in Ef by congruence.
           discriminate.
Qed.

(** X14. CloseAll never returns an error, since no model's Close does: it
    empties the cache and keeps the factories, so that GetModel finds
    nothing and GetOrCreateModel makes a new model. *)
Theorem CloseAll_forgets (m : ModelManager) :
  exists m',
    CloseAll m = (m', None)
    /\ factories m' = factories m
    /\ (forall t n, GetModel m' t n = None)
    /\ (forall t config,
          GetOrCreateModel m' t config = CreateModel m' t config).
Proof.
  unfold CloseAll.
  assert (E : omap (fun '(key, model) =>
                      (fun err => key ++ str ": " ++ err) <$> Close model)
                (map_to_list (models m)) = []).
  { induction (map_to_list (models m)) as [|[k model] rest IH];
      [reflexivity|].
    cbn. destruct model; cbn; exact IH. }
  rewrite E. cbn. eexists. split; [reflexivity|]. cbn.
  split; [reflexivity|]. split.
  - intros t n. unfold GetModel. cbn. apply lookup_empty.
  - intros t config. unfold GetOrCreateModel, GetModel. cbn.
    rewrite lookup_empty. reflexivity.
Qed.

End MoreManagerFacts.

Section MoreBestModelFacts.
Context `{Unicode}.

Lemma GetOrCreateModel_grows (m m' : ModelManager) (modelType : gostring)
      (config : ModelConfig) (r : result Model) :
  GetOrCreateModel m modelType config = (m', r) ->
  factories m' = factories m /\ models m ⊆ models m'.
Proof.
  unfold GetOrCreateModel.
  destruct (GetModel m modelType (ModelName config)) as [model|] eqn:Eg.
  - intros E. injection E as <- _. split; reflexivity.
  - destruct (CreateModel_cases m modelType config)
      as [(e & -> & _)|(factory & model & _ & _ & _ & ->)].
    + intros E. injection E as <- _. split; reflexivity.
    + intros E. injection E as <- _. cbn. split; [reflexivity|].
      apply insert_subseteq. exact Eg.
Qed.

Lemma best_model_loop_grows
      (generate : nat -> Model -> gostring -> result gostring)
      (prompt : gostring) (configs : list ModelConfig) (k : nat)
      (m m' : ModelManager) (lastErr : option gostring)
      (r : result (gostring * gostring)) :
  best_model_loop generate prompt k configs m lastErr = (m', r) ->
  factories m' = factories m /\ models m ⊆ models m'.
Proof.
  revert k m lastErr.
  induction configs as [|config rest IH]; intros k m lastErr; cbn.
  - destruct lastErr; intros E; injection E as <- _; split; reflexivity.
  - destruct (gostring_eqb _ []); [apply IH|].
    destruct (GetOrCreateModel m _ config) as [m1 [model|e]] eqn:Eg;
      apply GetOrCreateModel_grows in Eg as [Ef Em].
    + destruct (generate k model prompt).
      * intros E. injection E as <- _. split; assumption.
      * intros E. apply IH in E as [Ef' Em'].
        split; [congruence|]. etransitivity; eassumption.
    + intros E. apply IH in E as [Ef' Em'].
      split; [congruence|]. etransitivity; eassumption.
Qed.

Lemma best_model_loop_error
      (generate : nat -> Model -> gostring -> result gostring)
      (prompt : gostring) (configs : list ModelConfig) (k : nat)
      (m m' : ModelManager) (lastErr : option gostring) (e : gostring) :
  best_model_loop generate prompt k configs m lastErr = (m', Err e) ->
  (lastErr = None
   /\ Forall (fun c => detectModelType (ModelName c) = []) configs
   /\ m' = m
   /\ e = str "no valid model configurations provided")
  \/ (exists last, e = str "all models failed, last error: " ++ last
      /\ (lastErr = None ->
          Exists (fun c => detectModelType (ModelName c) <> []) configs)).
Proof.
  revert k m lastErr.
  induction configs as [|config rest IH]; intros k m lastErr; cbn.
  - destruct lastErr as [last|]; intros E; injection E as <- <-.
    + right. exists last. split; [reflexivity|discriminate].
    + left. repeat split. constructor.
  - destruct (gostring_eqb (detectModelType (ModelName config)) []) eqn:Ed.
    + intros E. apply IH in E as [(-> & Hall & -> & ->)|(last & -> & Hex)].
      * left. repeat split. constructor; [|exact Hall].
        apply gostring_eqb_eq, Ed.
      * right. exists last. split; [reflexivity|].
        intros Hn. right. apply Hex, Hn.
    + apply gostring_eqb_neq in Ed.
      destruct (GetOrCreateModel m _ config) as [m1 [model|e1]].
      * destruct (generate k model prompt) as [text|e2]; [discriminate|].
        intros E. apply IH in E as [(Hn & _)|(last & -> & _)];
          [discriminate|].
        right. exists last. split; [reflexivity|]. intros _. left. exact Ed.
      * intros E. apply IH in E as [(Hn & _)|(last & -> & _)];
          [discriminate|].
        right. exists last. split; [reflexivity|]. intros _. left. exact Ed.
Qed.

(** X15. GenerateWithBestModel returns the error [no valid model
    configurations provided] when no configuration bears the name of a known
    provider; when one does, the only error it returns is [all models
    failed, last error: ...]; it never changes the factories and never drops
    or replaces a cached model. *)
Theorem GenerateWithBestModel_errors
        (generate : nat -> Model -> gostring -> result gostring)
        (m : ModelManager) (prompt : gostring) (configs : list ModelConfig) :
  (Forall (fun c => detectModelType (ModelName c) = []) configs ->
   GenerateWithBestModel generate m prompt configs
   = (m, Err (str "no valid model configurations provided")))
  /\ (forall m' e,
        GenerateWithBestModel generate m prompt configs = (m', Err e) ->
        Exists (fun c => detectModelType (ModelName c) <> []) configs ->
        exists last, e = str "all models failed, last error: " ++ last)
  /\ (forall m' r,
        GenerateWithBestModel generate m prompt configs = (m', r) ->
        factories m' = factories m /\ models m ⊆ models m').
Proof.
  unfold GenerateWithBestModel. split; [|split].
  - generalize 0%nat. induction configs as [|config rest IH]; intros k Hall.
    + reflexivity.
    + apply Forall_cons in Hall as [Hc Hall]. cbn [best_model_loop].
      rewrite Hc. cbn. apply IH, Hall.
  - intros m' e E Hex.
    apply best_model_loop_error in E as [(_ & Hall & _)|(last & -> & _)];
      [|eauto].
    exfalso. apply Exists_exists in Hex as (c & Hin & Hc).
    rewrite Forall_forall in Hall. apply Hc, Hall, Hin.
  - intros m' r. apply best_model_loop_grows.
Qed.

End MoreBestModelFacts.

Section RoutingFacts.
Context `{Unicode}.

Lemma NewModelManager_registers :
  NewModelManager
  = RegisterFactory
      (RegisterFactory {| factories := ∅; models := ∅ |}
         ModelTypeOpenAI OpenAIFactory)
      ModelTypeGemini GeminiFactory.
Proof. reflexivity. Qed.

Lemma ListSupportedModels_new (modelType : gostring) (names : list gostring) :
  ListSupportedModels NewModelManager !! modelType = Some names ->
  (modelType = ModelTypeGemini /\ names = GetSupportedModels GeminiFactory)
  \/ (modelType = ModelTypeOpenAI /\ names = GetSupportedModels OpenAIFactory).
Proof.
  unfold ListSupportedModels, NewModelManager. cbn [factories].
  rewrite lookup_fmap.
  destruct (decide (modelType = ModelTypeGemini)) as [->|Hg].
  - rewrite lookup_insert_eq. cbn. intros E. injection E as <-. auto.
  - rewrite lookup_insert_ne by congruence.
    destruct (decide (modelType = ModelTypeOpenAI)) as [->|Ho].
    + rewrite lookup_insert_eq. cbn. intros E. injection E as <-. auto.
    + rewrite lookup_insert_ne by congruence. rewrite lookup_empty.
      discriminate.
Qed.

(** X16. What the manager lists, it routes. Where strings.ToLower leaves
    ASCII text without capital letters as it is, every model name that
    ListSupportedModels gives for a type of a new manager is one that
    detectModelType maps to that very type, for which a factory is
    registered: GenerateWithBestModel never skips a supported model as
    unknown and never hands it to the other provider. *)
Theorem supported_models_are_routed (modelType : gostring)
        (names : list gostring) (name : gostring) :
  keeps_lower_ascii ->
  ListSupportedModels NewModelManager !! modelType = Some names ->
  In name names ->
  detectModelType name = modelType
  /\ is_Some (factories NewModelManager !! detectModelType name).
Proof.
  intros Hlow Hl Hin.
  assert (Hd : detectModelType name = modelType).
  { apply ListSupportedModels_new in Hl as [[-> ->]|[-> ->]];
      cbn [GetSupportedModels In] in Hin;
      repeat (destruct Hin as [<-|Hin]; [
        unfold detectModelType; rewrite Hlow by reflexivity;
        vm_compute; reflexivity|]);
      destruct Hin. }
  split; [exact Hd|]. rewrite Hd.
  apply ListSupportedModels_new in Hl as [[-> _]|[-> _]];
    vm_compute; eauto.
Qed.

End RoutingFacts.

(** ** The notifier *)

Section NotifierFacts.
Import Notifier.
Context `{Float64}.

Lemma passwordDisplay_total (password : gostring) :
  is_Some (passwordDisplay password).
Proof.
  unfold passwordDisplay.
  destruct (0 <? len password); [|eauto].
  destruct (8 <? len password) eqn:E; [|eauto].
  apply Z.ltb_lt in E.
  rewrite !slice_in_range by lia. cbn. eauto.
Qed.

Lemma passwordDisplay_long (password : gostring) :
  8 < len password ->
  passwordDisplay password
  = Some (take 4 password ++ str "..."
          ++ drop (length password - 4) password).
Proof.
  intros Hl. unfold passwordDisplay.
  destruct (0 <? len password) eqn:E0; [|lia].
  destruct (8 <? len password) eqn:E8; [|lia].
  rewrite !slice_in_range by lia. cbn [mbind option_bind].
  unfold len in *.
  replace (Z.to_nat (4 - 0)) with 4%nat by lia.
  replace (Z.to_nat 0) with 0%nat by lia.
  replace (Z.to_nat (Z.of_nat (length password) - 4))
    with (length password - 4)%nat by lia.
  replace (Z.to_nat (Z.of_nat (length password)
                     - (Z.of_nat (length password) - 4))) with 4%nat by lia.
  rewrite drop_0.
  rewrite (take_ge (drop (length password - 4) password));
    [reflexivity|].
  rewrite length_drop. lia.
Qed.

Lemma passwordDisplay_short (password : gostring) :
  0 < len password <= 8 -> passwordDisplay password = Some (str "***").
Proof.
  intros Hl. unfold passwordDisplay.
  destruct (0 <? len password) eqn:E0; [|lia].
  destruct (8 <? len password) eqn:E8; [lia|]. reflexivity.
Qed.

Lemma same_display_passwordDisplay (p q : gostring) :
  same_display p q -> passwordDisplay p = passwordDisplay q.
Proof.
  intros [[-> ->]|[[Hp Hq]|(Hp & Hq & E1 & E2)]].
  - reflexivity.
  - rewrite !passwordDisplay_short by assumption. reflexivity.
  - rewrite !passwordDisplay_long by assumption. rewrite E1, E2. reflexivity.
Qed.

(** X17. The log of GetEmailConfigFromEnv does not tell apart two passwords
    that are both empty, both of eight bytes at most, or both longer with
    the same first four and last four bytes: in two environments that differ
    only in such passwords the function does not panic, logs the same lines,
    and returns each password unchanged in the configuration. *)
Theorem password_is_masked (mw mw' : MailWorld) :
  (forall name, name <> "EMAIL_PASSWORD"%string ->
                os_Getenv mw' name = os_Getenv mw name) ->
  Sscanf_d mw' = Sscanf_d mw ->
  same_display (os_Getenv mw "EMAIL_PASSWORD")
               (os_Getenv mw' "EMAIL_PASSWORD") ->
  exists config config' evs,
    GetEmailConfigFromEnv mw = Some (config, evs)
    /\ GetEmailConfigFromEnv mw' = Some (config', evs)
    /\ SenderPassword config = os_Getenv mw "EMAIL_PASSWORD"
    /\ SenderPassword config' = os_Getenv mw' "EMAIL_PASSWORD".
Proof.
  intros Henv Hscan Hsame. unfold GetEmailConfigFromEnv.
  rewrite Hscan.
  rewrite (Henv "EMAIL_SMTP_PORT"%string), (Henv "EMAIL_SMTP_HOST"%string),
    (Henv "EMAIL_SENDER"%string), (Henv "EMAIL_RECIPIENT"%string)
    by discriminate.
  rewrite <- (same_display_passwordDisplay _ _ Hsame).
  destruct (passwordDisplay_total (os_Getenv mw "EMAIL_PASSWORD"))
    as [shown ->].
  destruct (negb (gostring_eqb (os_Getenv mw "EMAIL_SMTP_PORT") [])).
  - destruct (Sscanf_d mw (os_Getenv mw "EMAIL_SMTP_PORT") 587)
      as [[p err] port].
    destruct (bool_decide (err <> None) || negb (p =? 1)); cbn;
      eexists _, _, _; repeat split; reflexivity.
  - cbn. eexists _, _, _. repeat split; reflexivity.
Qed.

Lemma two_kinds {A} (p q : A -> bool) (l : list A) :
  (forall x, p x = true -> q x = false) ->
  let np := Z.of_nat (length (List.filter p l)) in
  let nq := Z.of_nat (length (List.filter q l)) in
  np + nq <= Z.of_nat (length l)
  /\ (np + nq = Z.of_nat (length l)
      <-> Forall (fun x => p x = true \/ q x = true) l).
Proof.
  intros Hpq. cbn zeta. induction l as [|x l [IH1 IH2]].
  - cbn. split; [lia|]. split; [constructor|reflexivity].
  - rewrite Forall_cons. cbn [List.filter].
    destruct (p x) eqn:Ep.
    + rewrite (Hpq x Ep). cbn [length]. split; [lia|]. split.
      * intros E. split; [auto|]. apply IH2. lia.
      * intros [_ Hr]. apply IH2 in Hr. lia.
    + destruct (q x) eqn:Eq; cbn [length].
      * split; [lia|]. split.
        -- intros E. split; [auto|]. apply IH2. lia.
        -- intros [_ Hr]. apply IH2 in Hr. lia.
      * split; [lia|]. split.
        -- intros E. lia.
        -- intros [[?|?] _]; discriminate.
Qed.

Lemma movies_and_series (contents : list Content) :
  let movies := len_of (List.filter is_movie contents) in
  let series := len_of (List.filter is_series contents) in
  movies + series <= len_of contents
  /\ (movies + series = len_of contents
      <-> Forall (fun c => Type_ c = str "movie" \/ Type_ c = str "series")
            contents).
Proof.
  cbn zeta. unfold len_of.
  destruct (two_kinds is_movie is_series contents) as [H1 H2].
  { intros c E. unfold is_movie, is_series in *.
    apply gostring_eqb_eq in E. rewrite E. reflexivity. }
  split; [exact H1|]. rewrite H2. apply Forall_iff. intros c.
  unfold is_movie, is_series. rewrite !gostring_eqb_eq. reflexivity.
Qed.

(** A call that returns nil without dialing was given no record, or the
    notifier has no recipient. *)
Lemma NotifyContentUpdate_silent (mw : MailWorld) (n : EmailNotifier)
      (contents : list Content) (sourceURLs : list gostring) :
  let out := NotifyContentUpdate mw n contents sourceURLs in
  dialed out = None -> notify_error out = None ->
  contents = [] \/ recipientEmail n = [].
Proof.
  cbn zeta. unfold NotifyContentUpdate.
  destruct (len_of contents =? 0) eqn:El.
  { intros _ _. left. destruct contents; [reflexivity|discriminate]. }
  destruct (gostring_eqb (recipientEmail n) []) eqn:Er.
  { intros _ _. right. apply gostring_eqb_eq, Er. }
  destruct (template_Execute mw _) as [emailBody|e]; [|discriminate].
  destruct (DialAndSend mw _ _); discriminate.
Qed.

(** X18. NotifyContentUpdate sends nothing and returns nil exactly when
    there is no content or no recipient. When it dials, the message goes
    from the sender to the recipient, with the user name api and the
    sender's password; the error of DialAndSend is returned wrapped; the
    subject gives the number of records, of movies and of series, where
    movies plus series never exceeds the number of records and equals it
    exactly when every record is a movie or a series. *)
Theorem NotifyContentUpdate_counts (mw : MailWorld) (n : EmailNotifier)
        (contents : list Content) (sourceURLs : list gostring) :
  let out := NotifyContentUpdate mw n contents sourceURLs in
  (contents = [] \/ recipientEmail n = [] ->
   dialed out = None /\ notify_error out = None)
  /\ (dialed out = None -> notify_error out = None ->
      contents = [] \/ recipientEmail n = [])
  /\ (forall d m, dialed out = Some (d, m) ->
        From m = senderEmail n /\ To m = recipientEmail n
        /\ d = NewDialer (smtpHost n) (smtpPort n) (str "api") (senderPass n)
        /\ notify_error out
           = (fun e => str "failed to send email: " ++ e) <$> DialAndSend mw d m
        /\ exists movies series,
             Subject m
             = Sprintf "Cine Pulse: %d New Content Items (%d Movies, %d Series)"
                 [AInt (len_of contents); AInt movies; AInt series]
             /\ movies = len_of (List.filter is_movie contents)
             /\ series = len_of (List.filter is_series contents)
             /\ movies + series <= len_of contents
             /\ (movies + series = len_of contents
                 <-> Forall (fun c => Type_ c = str "movie"
                                      \/ Type_ c = str "series") contents)).
Proof.
  cbn zeta. unfold NotifyContentUpdate.
  destruct (len_of contents =? 0) eqn:El.
  { cbn. split; [auto|]. split; [|discriminate].
    intros _ _. left. destruct contents; [reflexivity|discriminate]. }
  assert (Hne : contents <> []) by (intros ->; discriminate).
  destruct (gostring_eqb (recipientEmail n) []) eqn:Er.
  { cbn. split; [auto|]. split; [|discriminate].
    intros _ _. right. apply gostring_eqb_eq, Er. }
  apply gostring_eqb_neq in Er.
  destruct (template_Execute mw _) as [emailBody|e].
  2:{ cbn. split; [intros [?|?]; contradiction|].
      split; discriminate. }
  match goal with
  | |- context [DialAndSend mw ?d ?m] =>
      set (d0 := d); set (m0 := m)
  end.
  assert (Hseries : List.filter (fun c => negb (is_movie c) && is_series c)
                      contents = List.filter is_series contents).
  { apply filter_ext. intros c. unfold is_movie, is_series.
    destruct (gostring_eqb (Type_ c) (str "series")) eqn:Es;
      [|apply andb_false_r].
    apply gostring_eqb_eq in Es. rewrite Es. reflexivity. }
  assert (Hgoal :
    From m0 = senderEmail n /\ To m0 = recipientEmail n
    /\ d0 = NewDialer (smtpHost n) (smtpPort n) (str "api") (senderPass n)
    /\ exists movies series,
         Subject m0
         = Sprintf "Cine Pulse: %d New Content Items (%d Movies, %d Series)"
             [AInt (len_of contents); AInt movies; AInt series]
         /\ movies = len_of (List.filter is_movie contents)
         /\ series = len_of (List.filter is_series contents)
         /\ movies + series <= len_of contents
         /\ (movies + series = len_of contents
             <-> Forall (fun c => Type_ c = str "movie"
                                  \/ Type_ c = str "series") contents)).
  { split; [reflexivity|]. split; [reflexivity|]. split; [reflexivity|].
    exists (len_of (List.filter is_movie contents)),
      (len_of (List.filter is_series contents)).
    split; [unfold m0; cbn [Subject]; rewrite Hseries; reflexivity|].
    split; [reflexivity|]. split; [reflexivity|].
    apply movies_and_series. }
  destruct Hgoal as (G1 & G2 & G3 & G4).
  destruct (DialAndSend mw d0 m0) as [e|] eqn:Ed; cbn.
  - split; [intros [?|?]; contradiction|]. split; [discriminate|].
    intros d m E. injection E as <- <-. rewrite Ed. auto.
  - split; [intros [?|?]; contradiction|]. split; [discriminate|].
    intros d m E. injection E as <- <-. rewrite Ed. auto.
Qed.

End NotifierFacts.

(** ** The start of the program *)

Section StartupFacts.
Import Notifier.
Context `{Float64} `{!Strconv} `{!EncodingJSON} `{!Cron} `{!JSONStrings}
        `{!OrderBy}.
Variable mw : MailWorld.

Lemma GetEmailConfigFromEnv_returns :
  exists port evs,
    GetEmailConfigFromEnv mw
    = Some ({| SMTPHost := os_Getenv mw "EMAIL_SMTP_HOST";
               SMTPPort := port;
               SenderEmail := os_Getenv mw "EMAIL_SENDER";
               SenderPassword := os_Getenv mw "EMAIL_PASSWORD";
               RecipientEmail := os_Getenv mw "EMAIL_RECIPIENT" |}, evs).
Proof.
  unfold GetEmailConfigFromEnv.
  destruct (passwordDisplay_total (os_Getenv mw "EMAIL_PASSWORD"))
    as [shown ->].
  destruct (negb (gostring_eqb (os_Getenv mw "EMAIL_SMTP_PORT") [])).
  - destruct (Sscanf_d mw (os_Getenv mw "EMAIL_SMTP_PORT") 587)
      as [[p err] port].
    destruct (bool_decide (err <> None) || negb (p =? 1)); cbn; eauto.
  - cbn. eauto.
Qed.

(** What NewContentScraperJob returns, case by case. *)
Lemma NewContentScraperJob_cases (sourceURLs : list gostring) :
  exists evs,
    (NewContentScraperJob mw sourceURLs
     = Some (({| sourceURLs := sourceURLs; emailNotifier := false;
                 sendEmails := false |}, None), evs)
     /\ (os_Getenv mw "EMAIL_SMTP_HOST" = []
         \/ os_Getenv mw "EMAIL_RECIPIENT" = []
         \/ template_Parse mw <> None))
    \/ (exists port,
           NewContentScraperJob mw sourceURLs
           = Some (({| sourceURLs := sourceURLs; emailNotifier := true;
                       sendEmails := true |},
                    Some {| smtpHost := os_Getenv mw "EMAIL_SMTP_HOST";
                            smtpPort := port;
                            senderEmail := os_Getenv mw "EMAIL_SENDER";
                            senderPass := os_Getenv mw "EMAIL_PASSWORD";
                            recipientEmail := os_Getenv mw "EMAIL_RECIPIENT" |}),
                   evs)
           /\ os_Getenv mw "EMAIL_SMTP_HOST" <> []
           /\ os_Getenv mw "EMAIL_RECIPIENT" <> []
           /\ template_Parse mw = None).
Proof.
  unfold NewContentScraperJob.
  destruct GetEmailConfigFromEnv_returns as (port & evs & ->).
  cbn [wbind SMTPHost RecipientEmail].
  destruct (gostring_eqb (os_Getenv mw "EMAIL_SMTP_HOST") []) eqn:Eh;
    cbn [negb andb].
  { apply gostring_eqb_eq in Eh. cbn. eexists. left. split; [reflexivity|auto]. }
  destruct (gostring_eqb (os_Getenv mw "EMAIL_RECIPIENT") []) eqn:Er;
    cbn [negb andb].
  { apply gostring_eqb_eq in Er. cbn. eexists. left. split; [reflexivity|auto]. }
  apply gostring_eqb_neq in Eh, Er.
  unfold NewEmailNotifier. destruct (template_Parse mw) as [e|] eqn:Ep; cbn.
  - eexists. left. split; [reflexivity|]. right. right. discriminate.
  - eexists. right. exists port. split; [reflexivity|auto].
Qed.

(** X19. NewContentScraperJob does not panic; the job has the sources it was
    given; mails are enabled exactly when the job has a notifier, that is
    exactly when EMAIL_SMTP_HOST and EMAIL_RECIPIENT are set and the
    template parses; the notifier of such a job never skips a notification
    that has content: it dials or returns an error. *)
Theorem NewContentScraperJob_notifier (urls : list gostring) :
  exists job notifier evs,
    NewContentScraperJob mw urls = Some ((job, notifier), evs)
    /\ sourceURLs job = urls
    /\ sendEmails job = emailNotifier job
    /\ (emailNotifier job = true <-> is_Some notifier)
    /\ (sendEmails job = true
        <-> os_Getenv mw "EMAIL_SMTP_HOST" <> []
            /\ os_Getenv mw "EMAIL_RECIPIENT" <> []
            /\ template_Parse mw = None)
    /\ (forall n contents,
          notifier = Some n -> contents <> [] ->
          let out := NotifyContentUpdate mw n contents urls in
          is_Some (dialed out) \/ is_Some (notify_error out)).
Proof.
  destruct (NewContentScraperJob_cases urls)
    as [evs [[-> Hwhy]|(port & -> & Hh & Hr & Hp)]].
  - eexists _, _, _. split; [reflexivity|]. cbn.
    split; [reflexivity|]. split; [reflexivity|].
    split; [split; [discriminate|intros [? ?]; discriminate]|].
    split; [|intros n contents E; discriminate].
    split; [discriminate|]. intros (Hh & Hr & Hp).
    destruct Hwhy as [?|[?|?]]; contradiction.
  - eexists _, _, _. split; [reflexivity|]. cbn.
    split; [reflexivity|]. split; [reflexivity|].
    split; [split; eauto|]. split; [split; auto|].
    intros n contents E Hne. injection E as <-.
    pose proof (NotifyContentUpdate_silent mw
                  {| smtpHost := os_Getenv mw "EMAIL_SMTP_HOST";
                     smtpPort := port;
                     senderEmail := os_Getenv mw "EMAIL_SENDER";
                     senderPass := os_Getenv mw "EMAIL_PASSWORD";
                     recipientEmail := os_Getenv mw "EMAIL_RECIPIENT" |}
                  contents urls) as Hquiet.
    cbn zeta in Hquiet.
    destruct (dialed _) as [dm|]; [left; eauto|].
    destruct (notify_error _) as [e|]; [right; eauto|].
    destruct (Hquiet eq_refl eq_refl) as [?|Hr']; [contradiction|].
    cbn in Hr'. contradiction.
Qed.

(** X20. The scheduler mode of main never reaches the start of the
    scheduler: whatever the environment and the sources,
    AddMorningEveningJob returns an error for the job main has just made,
    and main ends in log.Fatalf with [Failed to schedule content scraper
    job]. The error is that of cron for the 10 am specification when cron
    refuses it, and [job content_scraper already registered], from the 5 pm
    registration, otherwise. *)
Theorem main_scheduler_mode_is_fatal {A} (sourceURLs : list gostring)
        (rest : Scheduler ContentScraperJob -> ContentScraperJob ->
                option EmailNotifier -> A) :
  exists err evs,
    main_scheduler_mode mw sourceURLs rest
    = Some (Fatalf "Failed to schedule content scraper job: %v" [AStr err],
            evs)
    /\ err = match parse_spec morning with
             | None => already_registered (str "content_scraper")
             | Some e =>
                 str "failed to add job content_scraper: " ++ e
             end.
Proof.
  unfold main_scheduler_mode.
  assert (Hadd : forall job : ContentScraperJob,
            AddMorningEveningJob NewScheduler job
            = match parse_spec morning with
              | None =>
                  ({| cron := [(morning, job)];
                      jobs := <[str "content_scraper" := job]> ∅;
                      isRunning := false |},
                   Some (already_registered (str "content_scraper")))
              | Some e =>
                  (NewScheduler,
                   Some (str "failed to add job content_scraper: " ++ e))
              end).
  { intros job. unfold AddMorningEveningJob. fold morning evening.
    destruct (parse_spec morning) as [e|] eqn:Ep.
    - rewrite (AddJob_fresh_refused NewScheduler morning e job)
        by (try apply lookup_empty; exact Ep).
      reflexivity.
    - rewrite (AddJob_fresh_ok NewScheduler morning job)
        by (try apply lookup_empty; exact Ep).
      rewrite AddJob_registered by (cbn; rewrite lookup_insert_eq; eauto).
      reflexivity. }
  destruct (NewContentScraperJob_cases sourceURLs)
    as [evs [[-> _]|(port & -> & _)]]; cbn [wbind wlog fst snd];
    rewrite Hadd; destruct (parse_spec morning); cbn; eauto.
Qed.

(** X21. getSourceURLs does not panic and returns the default source or the
    list decoded from SOURCE_URLS; a job made with its result has at least
    one effective source, since Run takes the default for an empty list, and
    a run of that job that returns has logged the scraping line of one of
    them. *)
Theorem a_run_has_a_source (w : World) (s s' : Sys) (r : option gostring) :
  exists urls evs,
    getSourceURLs mw = Some (urls, evs)
    /\ (urls = [str "https://nkiri.com/"]
        \/ (os_Getenv mw "SOURCE_URLS" <> []
            /\ Unmarshal_strings (os_Getenv mw "SOURCE_URLS") = Some urls))
    /\ forall job,
         sourceURLs job = urls ->
         effective_sources job <> []
         /\ (Run w job s = Some (s', r) ->
             exists url, In url (effective_sources job)
                         /\ In (scraping_line url) (trace s')).
Proof.
  assert (Hrun : forall job,
             effective_sources job <> []
             /\ (Run w job s = Some (s', r) ->
                 exists url, In url (effective_sources job)
                             /\ In (scraping_line url) (trace s'))).
  { intros job.
    assert (Hne : effective_sources job <> []).
    { unfold effective_sources.
      destruct (sourceURLs job) as [|u us]; cbn; discriminate. }
    split; [exact Hne|].
    destruct (Run_effective w job s) as (j' & Eu & _ & _ & ->).
    destruct (effective_sources job) as [|url rest]; [contradiction|].
    intros E. exists url. split; [left; reflexivity|].
    cbn [run_loop] in E.
    destruct (ctx_Err w 0).
    - injection E as <- _. cbn. apply in_or_app. right. left. reflexivity.
    - destruct (process_source w 0 url _ _) as [[s1 l1]|] eqn:E1;
        [|discriminate].
      cbn [mbind option_bind] in E.
      apply process_source_trace in E1 as (evs1 & E1 & _).
      apply (run_loop_trace_grows w _ _ _ _ _ _ _ _ E).
      rewrite E1. cbn. apply in_or_app. left. apply in_or_app. right.
      left. reflexivity. }
  unfold getSourceURLs.
  destruct (gostring_eqb (os_Getenv mw "SOURCE_URLS") []) eqn:Es;
    cbn [negb].
  - eexists _, _. split; [reflexivity|]. split; [auto|]. intros job _. apply Hrun.
  - apply gostring_eqb_neq in Es.
    destruct (Unmarshal_strings (os_Getenv mw "SOURCE_URLS")) as [urls|] eqn:Eu.
    + eexists _, _. split; [reflexivity|]. split; [auto|].
      intros job _. apply Hrun.
    + eexists _, _. split; [reflexivity|]. split; [auto|].
      intros job _. apply Hrun.
Qed.

Lemma recent_lines_in_range (allContent : list Content) (n i : nat) :
  (i + n <= length allContent)%nat ->
  recent_lines allContent i n
  = Some (tt, map recent_line (take n (drop i allContent))).
Proof.
  revert i. induction n as [|n IH]; intros i Hle; cbn [recent_lines].
  - reflexivity.
  - destruct (lookup_lt_is_Some_2 allContent i ltac:(lia)) as [c Hc].
    rewrite Hc. cbn [wlift wbind wlog app].
    rewrite (IH (S i)) by lia. cbn [app].
    rewrite (drop_S _ _ _ Hc). reflexivity.
Qed.

(** X22. When the driver does not fail, displayDatabaseStats does not panic
    and logs the heading, the number of rows, of movies and of series, the
    heading of the recent content with the smaller of 5 and the number of
    rows, and then one line for each of the first five records (all of them
    when there are fewer) in an order in which created_at never increases,
    with the year in parentheses when the record has one. *)
Theorem displayDatabaseStats_lists_the_latest (table : list Row) :
  exists rows,
    rows ≡ₚ table
    /\ StronglySorted (fun a b => created_at b <= created_at a) rows
    /\ displayDatabaseStats (fun _ => None) None table
       = Some (tt,
               [Println "Database Statistics" [];
                Printf "Total content: %d" [AInt (len_of table)];
                Printf "Movies: %d"
                  [AInt (len_of (List.filter (of_type (str "movie")) table))];
                Printf "Series: %d"
                  [AInt (len_of (List.filter (of_type (str "series")) table))];
                Printf "Recent Content (last %d):"
                  [AInt (Z.min 5 (len_of table))]]
               ++ map recent_line (take 5 (map scan rows))).
Proof.
  exists (order_by_created_at_desc table).
  split; [apply order_by_permutation|]. split; [apply order_by_descending|].
  unfold displayDatabaseStats, GetStats, GetAllContent.
  set (allContent := map scan (order_by_created_at_desc table)).
  assert (Hlen : length allContent = length table).
  { unfold allContent. rewrite length_map.
    apply Permutation_length, order_by_permutation. }
  set (limit := if len_of allContent <? 5 then len_of allContent else 5).
  assert (Hlimit : Z.to_nat limit = Nat.min 5 (length table)
                   /\ limit = Z.min 5 (len_of table)).
  { unfold limit, len_of. rewrite Hlen.
    destruct (Z.of_nat (length table) <? 5) eqn:E; lia. }
  destruct Hlimit as [Hl1 Hl2].
  cbn [wbind wlog app].
  rewrite recent_lines_in_range by (rewrite Hl1, Hlen; lia).
  cbn [app]. rewrite drop_0, Hl1, Hl2.
  replace (take (Nat.min 5 (length table)) allContent) with (take 5 allContent).
  2:{ destruct (Nat.le_ge_cases 5 (length table)) as [Hc|Hc].
      - rewrite Nat.min_l by exact Hc. reflexivity.
      - rewrite Nat.min_r by exact Hc.
        rewrite !take_ge by (rewrite Hlen; lia). reflexivity. }
  unfold count.
  rewrite !lookup_total_insert_ne by discriminate.
  repeat f_equal.
  rewrite lookup_total_insert. unfold len_of. do 2 f_equal.
  clear. induction table as [|r t IH]; [reflexivity|]. cbn. f_equal. exact IH.
Qed.

End StartupFacts.

(** ** The shape of what the tiers return *)

Section MoreMatcherFacts.

Lemma HasPrefix_app (s l : gostring) :
  Strings.HasPrefix s l = true -> s = l ++ drop (length l) s.
Proof.
  revert s. induction l as [|a l IH]; intros s; [reflexivity|].
  destruct s as [|c s]; cbn; [discriminate|].
  intros E. apply andb_true_iff in E as [E1 E2].
  apply Ascii.eqb_eq in E1. subst. f_equal. apply IH, E2.
Qed.

Lemma HasPrefix_true (l rest : gostring) :
  Strings.HasPrefix (l ++ rest) l = true.
Proof.
  induction l as [|a l IH]; [destruct rest; reflexivity|]. cbn.
  rewrite Ascii.eqb_refl. exact IH.
Qed.

Lemma star_k_sound {A} (p : ascii -> bool) (s : gostring)
      (k : gostring -> option A) (x : A) :
  star_k p s k = Some x ->
  exists m rest, s = m ++ rest /\ forallb p m = true /\ k rest = Some x.
Proof.
  induction s as [|c t IH]; cbn; intros E.
  - exists [], []. auto.
  - destruct (p c) eqn:Ep.
    + destruct (star_k p t k) as [y|] eqn:Ek.
      * injection E as <-. destruct (IH eq_refl) as (m & rest & -> & Hm & Hk).
        exists (c :: m), rest. cbn. rewrite Ep. auto.
      * exists [], (c :: t). auto.
    + exists [], (c :: t). auto.
Qed.

(** The matcher is sound: what it matches, the pattern denotes. *)
Lemma rmatch_sound {A} (r : re) :
  forall (s : gostring) (g : option gostring)
         (k : gostring -> option gostring -> option A) (x : A),
    rmatch r s g k = Some x ->
    exists m rest g', s = m ++ rest /\ denotes r m rest /\ k rest g' = Some x.
Proof.
  induction r as [l|p|p|p|r1 IH1|r1 IH1|r1 IH1 r2 IH2|];
    intros s g k x E; cbn [rmatch] in E.
  - destruct (Strings.HasPrefix s l) eqn:El; [|discriminate].
    exists l, (drop (length l) s), g.
    split; [apply HasPrefix_app, El|]. split; [reflexivity|exact E].
  - destruct s as [|c t]; [discriminate|].
    destruct (p c) eqn:Ep; [|discriminate].
    exists [c], t, g. cbn. eauto.
  - apply star_k_sound in E as (m & rest & -> & Hm & Hk). cbn. eauto 6.
  - destruct s as [|c t]; [discriminate|].
    destruct (p c) eqn:Ep; [|discriminate].
    apply star_k_sound in E as (m & rest & -> & Hm & Hk).
    exists (c :: m), rest, g. cbn. rewrite Ep. auto.
  - destruct (rmatch r1 s g k) as [y|] eqn:E1.
    + injection E as <-. apply IH1 in E1 as (m & rest & g' & -> & Hd & Hk).
      exists m, rest, g'. cbn. auto.
    + exists [], s, g. cbn. auto.
  - apply IH1 in E as (m & rest & g' & -> & Hd & Hk). cbn. eauto 6.
  - apply IH1 in E as (m1 & rest1 & g1 & -> & Hd1 & E).
    apply IH2 in E as (m2 & rest & g2 & -> & Hd2 & Hk).
    exists (m1 ++ m2), rest, g2. rewrite <- app_assoc.
    split; [reflexivity|]. split; [|exact Hk]. cbn. eauto.
  - destruct s; [|discriminate]. exists [], [], g. cbn. auto.
Qed.

Lemma match_here_sound (r : re) (s m g : gostring) :
  match_here r s = Some (m, g) ->
  exists rest, s = m ++ rest /\ denotes r m rest.
Proof.
  unfold match_here. intros E.
  apply rmatch_sound in E as (m' & rest & g' & -> & Hd & E).
  injection E as <- _. exists rest.
  rewrite length_app, Nat.add_sub, take_app_length. auto.
Qed.

Lemma replace_all_past (r : re) (tm : list titem) (k : nat) (s : gostring) :
  (length s <= k)%nat -> replace_all r tm k s = [].
Proof.
  revert k. induction s as [|c t IH]; intros k Hk; [reflexivity|].
  destruct k as [|k]; cbn in *; [lia|]. apply IH. lia.
Qed.

Lemma replace_go_past (old new : gostring) (k : nat) (s : gostring) :
  (length s <= k)%nat -> Strings.replace_go old new k s = [].
Proof.
  revert k. induction s as [|c t IH]; intros k Hk; [reflexivity|].
  destruct k as [|k]; cbn in *; [lia|]. apply IH. lia.
Qed.

Lemma last_cons_ne {A} (a : A) (l : list A) : l <> [] -> last (a :: l) = last l.
Proof. destruct l; [contradiction|reflexivity]. Qed.

Lemma last_app_ne {A} (l1 l2 : list A) : l2 <> [] -> last (l1 ++ l2) = last l2.
Proof.
  intros Hne. induction l1 as [|a l1 IH]; [reflexivity|].
  cbn [app]. rewrite last_cons_ne; [exact IH|].
  destruct l1; cbn; [exact Hne|discriminate].
Qed.

Lemma last_Some_ne {A} (l : list A) (x : A) : last l = Some x -> l <> [].
Proof. intros E ->. discriminate. Qed.

(** A replacement keeps the last character [c] of a text when a match that
    reaches the end of it is replaced by a text that ends with [c]. *)
Lemma replace_all_keeps_end (r : re) (tm : list titem) (c : ascii) :
  (forall s m g, match_here r s = Some (m, g) -> last s = Some c ->
                 m <> [] /\ (m = s -> last (expand tm g) = Some c)) ->
  forall s skip,
    last s = Some c -> (skip < length s)%nat ->
    last (replace_all r tm skip s) = Some c.
Proof.
  intros Hr s. induction s as [|a t IH]; intros skip Hl Hs; [discriminate|].
  destruct skip as [|k]; cbn [replace_all].
  - destruct (match_here r (a :: t)) as [[m g]|] eqn:Em.
    + destruct (Hr _ _ _ Em Hl) as [Hne Hend].
      apply match_here_sound in Em as (rest & Es & _).
      destruct rest as [|b rest].
      * rewrite app_nil_r in Es. subst m.
        rewrite replace_all_past by (cbn; lia). rewrite app_nil_r.
        apply Hend. reflexivity.
      * assert (Hlen : (length m + S (length rest) = S (length t))%nat).
        { rewrite <- (length_cons b rest), <- length_app, <- Es. reflexivity. }
        assert (Ht : t <> []) by (destruct m as [|? [|? ?]], t; cbn in *;
                                  try contradiction; try lia; discriminate).
        rewrite last_cons_ne in Hl by exact Ht.
        rewrite last_app_ne.
        -- apply IH; [exact Hl|].
           destruct m; [contradiction|]. cbn in *. lia.
        -- apply last_Some_ne with (x := c). apply IH; [exact Hl|].
           destruct m; [contradiction|]. cbn in *. lia.
    + destruct t as [|b t]; [exact Hl|].
      rewrite last_cons_ne in Hl by discriminate.
      rewrite last_cons_ne.
      * apply IH; [exact Hl|cbn; lia].
      * apply last_Some_ne with (x := c). apply IH; [exact Hl|cbn; lia].
  - cbn in Hs. assert (Ht : t <> []) by (destruct t; cbn in *; [lia|discriminate]).
    rewrite last_cons_ne in Hl by exact Ht. apply IH; [exact Hl|lia].
Qed.

(** The same for strings.ReplaceAll, when [c] does not occur in [old]. *)
Lemma replace_go_keeps_end (old new : gostring) (c : ascii) :
  old <> [] -> ~ In c old ->
  forall s skip,
    last s = Some c -> (skip < length s)%nat ->
    last (Strings.replace_go old new skip s) = Some c.
Proof.
  intros Hold Hc s. induction s as [|a t IH]; intros skip Hl Hs; [discriminate|].
  destruct skip as [|k]; cbn [Strings.replace_go].
  - destruct (Strings.HasPrefix (a :: t) old) eqn:Ep.
    + apply HasPrefix_app in Ep.
      destruct (drop (length old) (a :: t)) as [|b rest] eqn:Ed.
      * exfalso. rewrite app_nil_r in Ep. apply Hc. rewrite <- Ep.
        apply last_Some_elem_of in Hl.
        apply list_elem_of_In. exact Hl.
      * assert (Hlen : (length old + S (length rest) = S (length t))%nat).
        { rewrite <- (length_cons b rest), <- length_app, <- Ep. reflexivity. }
        assert (Ht : t <> []) by (destruct old as [|? [|? ?]], t; cbn in *;
                                  try contradiction; try lia; discriminate).
        rewrite last_cons_ne in Hl by exact Ht.
        rewrite last_app_ne.
        -- apply IH; [exact Hl|].
           destruct old; [contradiction|]. cbn in *. lia.
        -- apply last_Some_ne with (x := c). apply IH; [exact Hl|].
           destruct old; [contradiction|]. cbn in *. lia.
    + destruct t as [|b t]; [exact Hl|].
      rewrite last_cons_ne in Hl by discriminate.
      rewrite last_cons_ne.
      * apply IH; [exact Hl|cbn; lia].
      * apply last_Some_ne with (x := c). apply IH; [exact Hl|cbn; lia].
  - cbn in Hs. assert (Ht : t <> []) by (destruct t; cbn in *; [lia|discriminate]).
    rewrite last_cons_ne in Hl by exact Ht. apply IH; [exact Hl|lia].
Qed.

Lemma HasPrefix_nil (s : gostring) : Strings.HasPrefix s [] = true.
Proof. destruct s; reflexivity. Qed.

Lemma HasSuffix_last (s : gostring) (c : ascii) :
  Strings.HasSuffix s [c] = true <-> last s = Some c.
Proof.
  unfold Strings.HasSuffix. cbn [rev app].
  destruct s as [|a t] using rev_ind; [split; discriminate|].
  rewrite rev_app_distr, last_snoc. cbn.
  rewrite HasPrefix_nil, andb_true_r, Ascii.eqb_eq.
  split; [intros ->; reflexivity|intros E; injection E; auto].
Qed.

Lemma HasPrefix_head (s : gostring) (c : ascii) :
  Strings.HasPrefix s [c] = true <-> exists t, s = c :: t.
Proof.
  destruct s as [|a t]; cbn; [split; [discriminate|intros [? ?]; discriminate]|].
  rewrite HasPrefix_nil, andb_true_r, Ascii.eqb_eq. split.
  - intros ->. eauto.
  - intros [t' E]. injection E; auto.
Qed.

Lemma bracketed_iff (s : gostring) :
  bracketed s <-> (exists t, s = "["%char :: t) /\ last s = Some "]"%char.
Proof.
  unfold bracketed. change (str "[") with ["["%char].
  change (str "]") with ["]"%char].
  rewrite HasPrefix_head, HasSuffix_last. reflexivity.
Qed.

(** The last character of a match that ends with a literal. *)
Lemma last_app_lit (m : gostring) (l : gostring) (c : ascii) :
  last l = Some c -> last (m ++ l) = Some c.
Proof.
  intros E. rewrite last_app_ne; [exact E|]. intros ->. discriminate.
Qed.

Lemma spaceColon_last (m rest : gostring) :
  denotes spaceColonPattern m rest -> last m = Some ":"%char.
Proof.
  unfold spaceColonPattern. intros Hd.
  cbn [denotes] in Hd.
  destruct Hd as (m1 & m2 & -> & -> & m3 & m4 & -> & _ & ->).
  repeat apply last_app_lit. reflexivity.
Qed.

Lemma bareComma_last (m rest : gostring) :
  denotes bareCommaPattern m rest -> last m = Some ","%char.
Proof.
  unfold bareCommaPattern. intros Hd. cbn [denotes] in Hd.
  destruct Hd as (m1 & m2 & -> & -> & m3 & m4 & -> & _ & m5 & m6 & -> & _ & ->).
  repeat apply last_app_lit. reflexivity.
Qed.

Lemma commaBrace_last (m rest : gostring) :
  denotes commaBracePattern m rest -> last m = Some "}"%char.
Proof.
  unfold commaBracePattern. intros Hd. cbn [denotes] in Hd.
  destruct Hd as (m1 & m2 & -> & -> & m3 & m4 & -> & _ & ->).
  repeat apply last_app_lit. reflexivity.
Qed.

Lemma forallb_last (p : ascii -> bool) (m : gostring) (c : ascii) :
  forallb p m = true -> last m = Some c -> p c = true.
Proof.
  intros Hall Hl. apply last_Some_elem_of in Hl.
  rewrite forallb_forall in Hall. apply Hall, list_elem_of_In, Hl.
Qed.

(** The end-anchored pattern matches up to the end of the text, and the
    text it matches does not end with a closing bracket. *)
Lemma bareEnd_last (m rest : gostring) :
  denotes bareEndPattern m rest ->
  rest = [] /\ m <> [] /\ last m <> Some "]"%char.
Proof.
  unfold bareEndPattern. intros Hd. cbn [denotes] in Hd.
  destruct Hd as (m1 & m2 & -> & -> & m3 & m4 & -> & _
                  & m5 & m6 & -> & (m7 & m8 & -> & (c & -> & Hc) & Hm8)
                  & -> & ->).
  split; [reflexivity|]. split; [discriminate|].
  rewrite app_nil_r. cbn [app].
  rewrite (last_app_ne (str ":") (m3 ++ c :: m8))
    by (destruct m3; discriminate).
  rewrite (last_app_ne m3 (c :: m8)) by discriminate.
  intros Hl. destruct m8 as [|b m8].
  - injection Hl as ->. discriminate.
  - rewrite last_cons_ne in Hl by discriminate.
    pose proof (forallb_last _ _ _ Hm8 Hl). discriminate.
Qed.

Lemma control_single (m rest : gostring) :
  denotes controlPattern m rest -> exists c, m = [c] /\ control c = true.
Proof. unfold controlPattern. cbn. auto. Qed.

Lemma commaBracket_nonempty (m rest : gostring) :
  denotes commaBracketPattern m rest -> m <> [].
Proof.
  unfold commaBracketPattern. intros Hd. cbn [denotes] in Hd.
  destruct Hd as (m1 & m2 & -> & -> & _). discriminate.
Qed.

(** A text that ends with a closing bracket still does after each of the
    replacements of preprocessModelResponse. *)

Lemma keeps_end_go (old new : gostring) :
  old <> [] -> ~ In closing old ->
  keeps_end (fun s => Strings.ReplaceAll s old new).
Proof.
  intros Ho Hn s Hs. unfold Strings.ReplaceAll.
  apply replace_go_keeps_end; try assumption.
  destruct s; [discriminate|cbn; lia].
Qed.

Lemma keeps_end_re (r : re) (tm : list titem) :
  (forall m rest g,
      denotes r m rest -> last (m ++ rest) = Some closing ->
      m <> [] /\ (rest = [] -> last (expand tm g) = Some closing)) ->
  keeps_end (fun s => ReplaceAllString r s tm).
Proof.
  intros Hr s Hl. unfold ReplaceAllString.
  apply replace_all_keeps_end; [|exact Hl|].
  - intros s' m g Em Hl'. apply match_here_sound in Em as (rest & -> & Hd).
    destruct (Hr m rest g Hd Hl') as [Hne Hend]. split; [exact Hne|].
    intros E. apply Hend.
    apply (f_equal (@length ascii)) in E. rewrite length_app in E.
    destruct rest; [reflexivity|cbn in E; lia].
  - destruct s; [discriminate|cbn; lia].
Qed.

(** A pattern whose matches end with a character other than the closing
    bracket. *)
Lemma keeps_end_last (r : re) (tm : list titem) (x : ascii) :
  x <> closing ->
  (forall m rest, denotes r m rest -> last m = Some x) ->
  keeps_end (fun s => ReplaceAllString r s tm).
Proof.
  intros Hx Hr. apply keeps_end_re. intros m rest g Hd Hl.
  apply Hr in Hd. split; [intros ->; discriminate|].
  intros ->. rewrite app_nil_r in Hl. congruence.
Qed.

Lemma keeps_end_spaceColon tm :
  keeps_end (fun s => ReplaceAllString spaceColonPattern s tm).
Proof.
  apply (keeps_end_last _ _ ":"%char); [discriminate|apply spaceColon_last].
Qed.

Lemma keeps_end_bareComma tm :
  keeps_end (fun s => ReplaceAllString bareCommaPattern s tm).
Proof.
  apply (keeps_end_last _ _ ","%char); [discriminate|apply bareComma_last].
Qed.

Lemma keeps_end_commaBrace tm :
  keeps_end (fun s => ReplaceAllString commaBracePattern s tm).
Proof.
  apply (keeps_end_last _ _ "}"%char); [discriminate|apply commaBrace_last].
Qed.

Lemma keeps_end_bareEnd tm :
  keeps_end (fun s => ReplaceAllString bareEndPattern s tm).
Proof.
  apply keeps_end_re. intros m rest g Hd Hl.
  apply bareEnd_last in Hd as (-> & Hne & Hlast). split; [exact Hne|].
  rewrite app_nil_r in Hl. contradiction.
Qed.

Lemma keeps_end_control tm :
  keeps_end (fun s => ReplaceAllString controlPattern s tm).
Proof.
  apply keeps_end_re. intros m rest g Hd Hl.
  apply control_single in Hd as (c & -> & Hc). split; [discriminate|].
  intros ->. injection Hl as ->. discriminate.
Qed.

Lemma keeps_end_commaBracket :
  keeps_end (fun s => ReplaceAllString commaBracketPattern s [T (str "]")]).
Proof.
  apply keeps_end_re. intros m rest g Hd Hl.
  split; [eapply commaBracket_nonempty, Hd|]. reflexivity.
Qed.

Lemma repair_keeps_end : keeps_end repair.
Proof.
  intros s Hl. unfold repair.
  apply keeps_end_commaBracket, keeps_end_commaBrace, keeps_end_control.
  apply (keeps_end_go (jstr "\'") [dq]);
    [discriminate|intros [E|[E|[]]]; discriminate|].
  apply keeps_end_bareEnd, keeps_end_bareComma, keeps_end_spaceColon.
  apply (keeps_end_go (str "`") []);
    [discriminate|intros [E|[]]; discriminate|].
  exact Hl.
Qed.

Lemma fix_quotes_keeps_end : keeps_end fix_quotes.
Proof.
  intros s Hl. unfold fix_quotes.
  apply (keeps_end_go ellipsis (str "..."));
    [discriminate|intros [E|[E|[E|[]]]]; discriminate|].
  apply (keeps_end_go (str "''") (str "'"));
    [discriminate|intros [E|[E|[]]]; discriminate|].
  apply (keeps_end_go [dq; dq] [dq]);
    [discriminate|intros [E|[E|[]]]; discriminate|].
  exact Hl.
Qed.

Lemma keeps_head_go (old new : gostring) :
  (forall t, Strings.HasPrefix (opening :: t) old = false) ->
  keeps_head (fun s => Strings.ReplaceAll s old new).
Proof.
  intros Ho t. unfold Strings.ReplaceAll. cbn [Strings.replace_go].
  rewrite Ho. eauto.
Qed.

Lemma keeps_head_re (r : re) (tm : list titem) :
  (forall t, match_here r (opening :: t) = None) ->
  keeps_head (fun s => ReplaceAllString r s tm).
Proof.
  intros Hr t. unfold ReplaceAllString. cbn [replace_all].
  rewrite Hr. eauto.
Qed.

Lemma repair_keeps_head : keeps_head repair.
Proof.
  intros t. unfold repair.
  destruct (keeps_head_go (str "`") [] ltac:(reflexivity) t) as [t1 ->].
  destruct (keeps_head_re spaceColonPattern [T [dq]; G1; T (jstr "':")]
              ltac:(reflexivity) t1) as [t2 ->].
  destruct (keeps_head_re bareCommaPattern [T (jstr ":'"); G1; T (jstr "',")]
              ltac:(reflexivity) t2) as [t3 ->].
  destruct (keeps_head_re bareEndPattern [T (jstr ":'"); G1; T [dq]]
              ltac:(reflexivity) t3) as [t4 ->].
  destruct (keeps_head_go (jstr "\'") [dq] ltac:(reflexivity) t4) as [t5 ->].
  destruct (keeps_head_re controlPattern [] ltac:(reflexivity) t5) as [t6 ->].
  destruct (keeps_head_re commaBracePattern [T (str "}")]
              ltac:(reflexivity) t6) as [t7 ->].
  destruct (keeps_head_re commaBracketPattern [T (str "]")]
              ltac:(reflexivity) t7) as [t8 ->].
  eauto.
Qed.

Lemma fix_quotes_keeps_head : keeps_head fix_quotes.
Proof.
  intros t. unfold fix_quotes.
  destruct (keeps_head_go [dq; dq] [dq] ltac:(reflexivity) t) as [t1 ->].
  destruct (keeps_head_go (str "''") (str "'") ltac:(reflexivity) t1)
    as [t2 ->].
  destruct (keeps_head_go ellipsis (str "...") ltac:(reflexivity) t2)
    as [t3 ->].
  eauto.
Qed.

Lemma repair_bracketed (s : gostring) : bracketed s -> bracketed (repair s).
Proof.
  rewrite !bracketed_iff. intros [[t ->] Hl]. split.
  - apply repair_keeps_head.
  - apply repair_keeps_end, Hl.
Qed.

Lemma fix_quotes_bracketed (s : gostring) :
  bracketed s -> bracketed (fix_quotes s).
Proof.
  rewrite !bracketed_iff. intros [[t ->] Hl]. split.
  - apply fix_quotes_keeps_head.
  - apply fix_quotes_keeps_end, Hl.
Qed.

Lemma wrapped_bracketed (s : gostring) : bracketed (str "[" ++ s ++ str "]").
Proof.
  apply bracketed_iff. split; [cbn; eauto|].
  cbn [str list_ascii_of_string app]. rewrite last_cons_ne.
  - apply last_snoc.
  - destruct s; discriminate.
Qed.

(** Where the text has a first opening bracket and, after it, a last
    closing one, the slice between them is in brackets. *)
Lemma enclosed_bracketed (r jsonPart : gostring) :
  enclosed "[" "]" r = Some jsonPart -> bracketed jsonPart.
Proof.
  unfold enclosed.
  destruct (Z.eqb_spec (Strings.Index r (str "[")) (-1)) as [Ei|Ei];
    [discriminate|].
  destruct (Z.eqb_spec (Strings.LastIndex r (str "]")) (-1)) as [Ej|Ej];
    [discriminate|].
  destruct (Z.ltb_spec (Strings.Index r (str "["))
              (Strings.LastIndex r (str "]"))) as [Elt|Elt]; [|discriminate].
  cbn [negb andb].
  destruct (Index_bounds r (str "[")) as [?|[Hi0 Hi1]]; [lia|].
  destruct (LastIndex_bounds r (str "]")) as [?|[Hj0 Hj1]]; [lia|].
  change (len (str "]")) with 1 in Hj1.
  rewrite slice_in_range by lia. intros E. injection E as <-.
  destruct (Index_first r (str "[")) as [[? _]|(_ & Hi & _)]; [lia|].
  destruct (LastIndex_last r (str "]")) as [[? _]|(_ & Hj & _)]; [lia|].
  apply HasPrefix_head in Hi as [t Hi], Hj as [u Hj].
  apply bracketed_iff.
  change ["["%char] with (str "["). change ["]"%char] with (str "]").
  set (i := Z.to_nat (Strings.Index r (str "["))) in *.
  set (j := Z.to_nat (Strings.LastIndex r (str "]"))) in *.
  replace (Z.to_nat (Strings.LastIndex r (str "]") + 1
                     - Strings.Index r (str "["))) with (S (j - i)) by lia.
  split.
  - rewrite Hi. cbn. eauto.
  - assert (Hlook : drop i r !! (j - i)%nat = Some "]"%char).
    { rewrite lookup_drop. replace (i + (j - i))%nat with j by lia.
      rewrite <- (Nat.add_0_r j), <- lookup_drop, Hj. reflexivity. }
    rewrite (take_S_r _ _ _ Hlook). apply last_snoc.
Qed.

End MoreMatcherFacts.

Section ShapeFacts.
Context `{Float64} `{!Strconv} `{!EncodingJSON}.

(** The value of preprocessModelResponse, its log left out. *)
Lemma preprocessModelResponse_value (response : gostring) :
  let r := strip_fences response in
  result_of (preprocessModelResponse response) =
    if Strings.Index r (str "[") =? -1 then
      match enclosed "{" "}" r with
      | Some jsonObj => Some (str "[" ++ jsonObj ++ str "]")
      | None => Some (str "[]")
      end
    else
      match enclosed "[" "]" r with
      | Some jsonPart => parse_or_retry (repair jsonPart)
      | None => Some (str "[]")
      end.
Proof.
  intros r.
  unfold preprocessModelResponse. fold (strip_fences response). fold r.
  rewrite result_of_bind, result_of_lift.
  destruct (truncateString_total response 200 ltac:(lia)) as [t ->].
  cbn [mbind option_bind]. rewrite result_of_log.
  unfold enclosed.
  destruct (Z.eqb_spec (Strings.Index r (str "[")) (-1)) as [Ei|Ei].
  - rewrite result_of_log.
    destruct (Z.eqb_spec (Strings.Index r (str "{")) (-1)) as [Eo|Eo];
      cbn [negb andb]; [rewrite result_of_log; reflexivity|].
    rewrite result_of_log.
    destruct (Z.eqb_spec (Strings.LastIndex r (str "}")) (-1)) as [Ep|Ep];
      cbn [negb andb]; [rewrite result_of_log; reflexivity|].
    destruct (Z.ltb_spec (Strings.Index r (str "{"))
                (Strings.LastIndex r (str "}"))) as [Elt|Elt];
      [|rewrite result_of_log; reflexivity].
    rewrite result_of_bind, result_of_lift.
    destruct (Index_bounds r (str "{")) as [?|[? ?]]; [lia|].
    destruct (LastIndex_bounds r (str "}")) as [?|[? Hj]]; [lia|].
    change (len (str "}")) with 1 in Hj.
    rewrite slice_in_range by lia. reflexivity.
  - cbn [negb andb].
    destruct (Z.eqb_spec (Strings.LastIndex r (str "]")) (-1)) as [Ej|Ej];
      cbn [negb andb orb]; [rewrite !result_of_log; reflexivity|].
    rewrite Z.leb_antisym.
    destruct (Z.ltb_spec (Strings.Index r (str "["))
                (Strings.LastIndex r (str "]"))) as [Elt|Elt];
      cbn [negb]; [|rewrite !result_of_log; reflexivity].
    rewrite result_of_bind, result_of_lift.
    destruct (Index_bounds r (str "[")) as [?|[? ?]]; [lia|].
    destruct (LastIndex_bounds r (str "]")) as [?|[? Hj]]; [lia|].
    change (len (str "]")) with 1 in Hj.
    rewrite slice_in_range by lia.
    set (jsonPart := take _ _).
    cbn [mbind option_bind].
    rewrite result_of_bind, result_of_lift.
    destruct (truncateString_total jsonPart 200 ltac:(lia)) as [t' ->].
    cbn [mbind option_bind]. rewrite result_of_log.
    exact (parse_or_retry_code (repair jsonPart)).
Qed.

Lemma reformatJSON_bracketed (input out : gostring) :
  result_of (reformatJSON input) = Some out -> bracketed out.
Proof.
  unfold reformatJSON.
  destruct (negb _ || negb _).
  { rewrite result_of_log, result_of_ret. intros E. injection E as <-.
    split; reflexivity. }
  rewrite result_of_bind, result_of_lift.
  destruct (slice input 1 (len input - 1)) as [inner|]; [|discriminate].
  cbn [mbind option_bind]. rewrite result_of_bind.
  destruct (result_of (reformat_parts (parts_of inner))) as [objs|];
    [|discriminate].
  cbn [mbind option_bind].
  destruct (0 <? Z.of_nat (length objs)); rewrite result_of_ret;
    intros E; injection E as <-; [apply wrapped_bracketed|split; reflexivity].
Qed.

Lemma logs_only_bind_lift P {A B} (o : option A) (f : A -> W B) :
  (forall a, o = Some a -> logs_only P (f a)) ->
  logs_only P (wbind (wlift o) f).
Proof.
  intros Hf. destruct o as [a|]; [|constructor].
  specialize (Hf a eq_refl). unfold logs_only in *. cbn.
  destruct (f a) as [[b l]|]; cbn in *; [exact Hf|constructor].
Qed.

Ltac other_lines :=
  repeat first
    [ apply logs_only_ret
    | apply logs_only_lift
    | apply logs_only_log; unfold another_line, not_an_array_line; discriminate
    | apply logs_only_bind; [|intros ?] ].

Lemma reformat_parts_other_lines (parts : list gostring) :
  logs_only another_line (reformat_parts parts).
Proof.
  induction parts as [|part rest IH]; cbn [reformat_parts]; [other_lines|].
  destruct (Unmarshal_map (as_object part)).
  - apply logs_only_bind; [exact IH|intros; other_lines].
  - apply logs_only_bind; [other_lines|intros; exact IH].
Qed.

Lemma reformatJSON_other_lines (input : gostring) :
  bracketed input -> logs_only another_line (reformatJSON input).
Proof.
  intros [Hp Hs]. unfold reformatJSON. rewrite Hp, Hs. cbn [negb orb].
  apply logs_only_bind; [other_lines|intros inner].
  apply logs_only_bind; [apply reformat_parts_other_lines|intros vs].
  destruct (0 <? _); other_lines.
Qed.

(** X23. preprocessModelResponse does not panic and what it returns starts
    with an opening bracket and ends with a closing one, through every
    branch. The guard of reformatJSON for an input that is no array is dead
    code there: its line is never logged by preprocessModelResponse. *)
Theorem preprocessModelResponse_bracketed (response : gostring) :
  (exists out,
      result_of (preprocessModelResponse response) = Some out
      /\ bracketed out)
  /\ ~ In not_an_array_line (log_of (preprocessModelResponse response)).
Proof.
  split.
  - destruct (preprocessModelResponse_total response) as [[out evs] E].
    exists out. split; [rewrite E; reflexivity|].
    assert (Hv : result_of (preprocessModelResponse response) = Some out)
      by (rewrite E; reflexivity).
    rewrite preprocessModelResponse_value in Hv.
    destruct (Strings.Index _ _ =? -1).
    + destruct (enclosed "{" "}" _); injection Hv as <-;
        [apply wrapped_bracketed|split; reflexivity].
    + destruct (enclosed "[" "]" _) as [jsonPart|] eqn:Ee;
        [|injection Hv as <-; split; reflexivity].
      apply enclosed_bracketed in Ee.
      unfold parse_or_retry in Hv.
      destruct (parses (repair jsonPart));
        [injection Hv as <-; apply repair_bracketed, Ee|].
      change (apply_in_order narrow_sequence_spec (repair jsonPart))
        with (fix_quotes (repair jsonPart)) in Hv.
      destruct (parses (fix_quotes (repair jsonPart)));
        [injection Hv as <-;
         apply fix_quotes_bracketed, repair_bracketed, Ee|].
      eapply reformatJSON_bracketed, Hv.
  - assert (Hlogs : logs_only another_line (preprocessModelResponse response)).
    { unfold preprocessModelResponse. fold (strip_fences response).
      set (r := strip_fences response).
      apply logs_only_bind; [other_lines|intros t].
      apply logs_only_bind; [other_lines|intros _].
      destruct (Z.eqb_spec (Strings.Index r (str "[")) (-1)) as [Ei|Ei].
      - apply logs_only_bind; [other_lines|intros _].
        destruct (negb _); [|other_lines].
        apply logs_only_bind; [other_lines|intros _].
        destruct (_ && _); other_lines.
      - destruct (Z.eqb_spec (Strings.LastIndex r (str "]")) (-1)) as [Ej|Ej];
          cbn [orb]; [other_lines|].
        destruct (Z.leb_spec (Strings.LastIndex r (str "]"))
                    (Strings.Index r (str "["))) as [Ele|Ele]; [other_lines|].
        apply logs_only_bind_lift. intros jsonPart Es.
        assert (Hb : bracketed jsonPart).
        { apply (enclosed_bracketed r). unfold enclosed.
          destruct (Z.eqb_spec (Strings.Index r (str "[")) (-1)); [lia|].
          destruct (Z.eqb_spec (Strings.LastIndex r (str "]")) (-1)); [lia|].
          destruct (Z.ltb_spec (Strings.Index r (str "["))
                      (Strings.LastIndex r (str "]"))); [|lia].
          exact Es. }
        apply logs_only_bind; [other_lines|intros t'].
        apply logs_only_bind; [other_lines|intros _].
        destruct (Unmarshal_interfaces _); [other_lines|].
        apply logs_only_bind; [other_lines|intros _].
        destruct (Unmarshal_interfaces _); [other_lines|].
        apply logs_only_bind; [other_lines|intros _].
        apply logs_only_bind; [other_lines|intros _].
        apply reformatJSON_other_lines, fix_quotes_bracketed,
          repair_bracketed, Hb. }
    intros Hin. unfold logs_only in Hlogs. rewrite Forall_forall in Hlogs.
    apply (Hlogs _ (proj2 (list_elem_of_In _ _) Hin)). reflexivity.
Qed.

Lemma replace_all_no_match (r : re) (tm : list titem) (s : gostring) :
  (forall k, (k < length s)%nat -> match_here r (drop k s) = None) ->
  replace_all r tm 0 s = s.
Proof.
  induction s as [|c t IH]; intros Hn; [reflexivity|].
  cbn [replace_all].
  pose proof (Hn 0%nat ltac:(cbn; lia)) as Hz. cbn [drop] in Hz. rewrite Hz.
  f_equal. apply IH. intros k Hk. apply (Hn (S k)). cbn. lia.
Qed.

Lemma last_drop {A} (l : list A) (k : nat) :
  (k < length l)%nat -> last (drop k l) = last l.
Proof.
  revert k. induction l as [|a l IH]; intros k Hk; [cbn in Hk; lia|].
  destruct k as [|k]; [reflexivity|]. cbn [drop].
  cbn in Hk. rewrite IH by lia. symmetry. apply last_cons_ne.
  destruct l; [cbn in Hk; lia|discriminate].
Qed.

Lemma bareEnd_idle (s : gostring) (tm : list titem) :
  last s = Some closing -> ReplaceAllString bareEndPattern s tm = s.
Proof.
  intros Hl. unfold ReplaceAllString. apply replace_all_no_match.
  intros k Hk.
  destruct (match_here bareEndPattern (drop k s)) as [[m g]|] eqn:Em;
    [|reflexivity].
  exfalso. apply match_here_sound in Em as (rest & Es & Hd).
  apply bareEnd_last in Hd as (-> & _ & Hlast).
  rewrite app_nil_r in Es. apply Hlast.
  rewrite <- Es, last_drop by exact Hk. exact Hl.
Qed.

(** X24. The replacement anchored at the end of the text (a colon, spaces, a
    bare scalar, the end) never matches in preprocessModelResponse. The text
    it is applied to is the slice from the first opening bracket to the last
    closing one after the first three repairs; it still ends with the
    bracket, which a bare scalar cannot hold, and the replacement returns
    its input. *)
Theorem end_anchored_repair_is_idle (response jsonPart : gostring) :
  let startIdx := Strings.Index response (str "[") in
  let endIdx := Strings.LastIndex response (str "]") in
  startIdx <> -1 -> endIdx <> -1 -> startIdx < endIdx ->
  slice response startIdx (endIdx + 1) = Some jsonPart ->
  let repaired :=
    ReplaceAllString bareCommaPattern
      (ReplaceAllString spaceColonPattern
         (Strings.ReplaceAll jsonPart (str "`") [])
         [T [dq]; G1; T (jstr "':")])
      [T (jstr ":'"); G1; T (jstr "',")] in
  ReplaceAllString bareEndPattern repaired [T (jstr ":'"); G1; T [dq]]
  = repaired.
Proof.
  intros startIdx endIdx Hs He Hlt Eslice repaired.
  assert (Ee : enclosed "[" "]" response = Some jsonPart).
  { unfold enclosed. fold startIdx endIdx.
    destruct (Z.eqb_spec startIdx (-1)) as [|_]; [contradiction|].
    destruct (Z.eqb_spec endIdx (-1)) as [|_]; [contradiction|].
    destruct (Z.ltb_spec startIdx endIdx) as [_|]; [|lia].
    exact Eslice. }
  apply enclosed_bracketed, bracketed_iff in Ee as [_ Hl].
  apply bareEnd_idle. unfold repaired.
  apply keeps_end_bareComma, keeps_end_spaceColon.
  apply (keeps_end_go (str "`") []);
    [discriminate|intros [E|[]]; discriminate|exact Hl].
Qed.

End ShapeFacts.

Section MoreTierAFacts.
Context `{Float64} `{!Strconv}.

Lemma take_matched {A} (c : A) (body r2 : list A) :
  take (S (length (body ++ r2)) - length r2) (c :: body ++ r2) = c :: body.
Proof.
  replace (S (length (body ++ r2)) - length r2)%nat
    with (length (c :: body)) by (cbn; rewrite length_app; lia).
  change (c :: body ++ r2) with ((c :: body) ++ r2).
  apply take_app_length.
Qed.

(** The group of a quoted field: one character or more, none of them a
    double quote. *)
Lemma quoted_field_group (label : string) (s m g : gostring) :
  FindStringSubmatch (quoted_field label) s = Some (m, g) ->
  g <> [] /\ ~ In dq g.
Proof.
  intros E. apply FindStringSubmatch_inv in E as [s' E].
  unfold match_here, quoted_field in E. cbn [rmatch] in E.
  destruct (Strings.HasPrefix s' (jstr label)); [|discriminate].
  apply star_k_sound in E as (sp & r1 & _ & _ & E).
  destruct (Strings.HasPrefix r1 [dq]); [|discriminate].
  destruct (drop (length [dq]) r1) as [|c t] eqn:Ed; [discriminate|].
  destruct (non quote c) eqn:Ec; [|discriminate].
  apply star_k_sound in E as (body & r2 & -> & Hbody & E).
  destruct (Strings.HasPrefix r2 [dq]); [|discriminate].
  injection E as _ <-. cbn [default].
  rewrite take_matched. split; [discriminate|].
  assert (Hq : non quote dq = false)
    by (unfold non, quote; rewrite Ascii.eqb_refl; reflexivity).
  intros [Hc|Hin].
  - rewrite Hc, Hq in Ec. discriminate.
  - rewrite forallb_forall in Hbody. apply Hbody in Hin.
    rewrite Hq in Hin. discriminate.
Qed.

Lemma digits_value_bounds (s : gostring) (acc v : Z) :
  0 <= acc -> digits_value acc s = Some v -> 0 <= v.
Proof.
  revert acc. induction s as [|c t IH]; intros acc Ha; cbn.
  - intros E. injection E as <-. exact Ha.
  - destruct (digit c) eqn:Ed; [|discriminate].
    apply IH. unfold digit in Ed. apply andb_true_iff in Ed as [E1 _].
    apply Nat.leb_le in E1. lia.
Qed.

(** The group of the year: digits, so strconv.Atoi gives a natural
    number. *)
Lemma year_group (s m g : gostring) (y : Z) :
  FindStringSubmatch yearPattern s = Some (m, g) ->
  Atoi g = Some y -> 0 <= y <= MaxInt.
Proof.
  intros E Hy. apply FindStringSubmatch_inv in E as [s' E].
  unfold match_here, yearPattern in E. cbn [rmatch] in E.
  destruct (Strings.HasPrefix s' (jstr "'year':")); [|discriminate].
  apply star_k_sound in E as (sp & r1 & _ & _ & E).
  destruct r1 as [|c t]; [discriminate|].
  destruct (digit c) eqn:Ec; [|discriminate].
  apply star_k_sound in E as (body & r2 & -> & Hbody & E).
  injection E as _ <-. cbn [default] in Hy.
  cbn [length] in Hy. rewrite take_matched in Hy. unfold Atoi in Hy.
  assert (Hm : Ascii.eqb c "-" = false).
  { destruct (Ascii.eqb_spec c "-"); [subst; discriminate|reflexivity]. }
  assert (Hp : Ascii.eqb c "+" = false).
  { destruct (Ascii.eqb_spec c "+"); [subst; discriminate|reflexivity]. }
  rewrite Hm, Hp in Hy.
  destruct (digits_value 0 (c :: body)) as [v|] eqn:Ev; [|discriminate].
  cbn [mbind option_bind] in Hy.
  apply digits_value_bounds in Ev; [|lia].
  destruct (Z.leb_spec (- MaxInt - 1) (1 * v)); [|discriminate].
  destruct (Z.leb_spec (1 * v) MaxInt); [|discriminate].
  cbn in Hy. injection Hy as <-. lia.
Qed.

Lemma extractObject_valid (obj : gostring) (c : Content) :
  extractObject obj = Some c -> valid_record c.
Proof.
  unfold extractObject, valid_record.
  destruct (FindStringSubmatch titlePattern obj) as [[m1 title]|] eqn:Et;
    [|discriminate].
  destruct (FindStringSubmatch categoryPattern obj) as [[m2 category]|] eqn:Ec;
    [|discriminate].
  destruct (gostring_eqb category (str "Korean")) eqn:Ek; [discriminate|].
  destruct (FindStringSubmatch typePattern obj) as [[m3 type]|] eqn:Ety;
    [|discriminate].
  apply quoted_field_group in Et as [Ht1 Ht2], Ec as [Hc1 Hc2].
  assert (Hextra : ~ In dq match FindStringSubmatch extraInfoPattern obj with
                           | Some (_, e) => e
                           | None => []
                           end).
  { destruct (FindStringSubmatch extraInfoPattern obj) as [[m4 e]|] eqn:Ee;
      [|intros []].
    apply quoted_field_group in Ee as [_ He]. exact He. }
  assert (Hyear : forall y,
             match FindStringSubmatch yearPattern obj with
             | Some (_, y0) => Atoi y0
             | None => None
             end = Some y -> 0 <= y <= MaxInt).
  { intros y.
    destruct (FindStringSubmatch yearPattern obj) as [[m5 g]|] eqn:Ey;
      [|discriminate].
    apply (year_group _ _ _ _ Ey). }
  apply gostring_eqb_neq in Ek.
  destruct (gostring_eqb type (str "movie")) eqn:Em;
    [|destruct (gostring_eqb type (str "series")) eqn:Es; [|discriminate]];
    cbn [negb andb]; intros E; injection E as <-; cbn;
    repeat (split; [assumption|]);
    (split; [|repeat (split; [assumption|]); reflexivity]).
  - left. apply gostring_eqb_eq, Em.
  - right. apply gostring_eqb_eq, Es.
Qed.

Lemma omap_length_le {A B} (f : A -> option B) (l : list A) :
  (length (omap f l) <= length l)%nat.
Proof.
  induction l as [|a l IH]; cbn; [lia|]. destruct (f a); cbn; lia.
Qed.

(** X25. extractContentManually does not panic, returns one record per brace
    block at most, and every record it returns has a title and a category
    that are not empty, a category other than Korean, the type movie or
    series, no double quote in its title, category or extra info, a year (if
    any) between 0 and the largest int, and no source URL. *)
Theorem extractContentManually_valid (response : gostring) :
  exists contents,
    result_of (extractContentManually response) = Some contents
    /\ Forall valid_record contents
    /\ (length contents
        <= length (FindAllString objectPattern response))%nat.
Proof.
  unfold extractContentManually. cbn.
  eexists. split; [reflexivity|]. split.
  - apply Forall_forall. intros c Hin.
    apply list_elem_of_omap in Hin as (obj & _ & Hc).
    eapply extractObject_valid, Hc.
  - apply omap_length_le.
Qed.

End MoreTierAFacts.

Section TruncateFacts.

(** X26. For a limit that is not negative, truncateString returns its
    argument when it fits and otherwise its first maxLen bytes followed by
    three dots: the result can be three bytes longer than the limit, and
    truncating it again changes nothing. For a negative limit it panics on
    every argument. *)
Theorem truncateString_bounds (s : gostring) (maxLen : Z) :
  (0 <= maxLen ->
   exists t,
     truncateString s maxLen = Some t
     /\ (len s <= maxLen -> t = s)
     /\ (maxLen < len s ->
         t = take (Z.to_nat maxLen) s ++ str "..." /\ len t = maxLen + 3)
     /\ len t <= maxLen + 3
     /\ truncateString t maxLen = Some t)
  /\ (maxLen < 0 -> truncateString s maxLen = None).
Proof.
  split.
  - intros Hm. unfold truncateString at 1.
    destruct (Z.leb_spec (len s) maxLen) as [Hle|Hgt].
    + exists s. split; [reflexivity|]. split; [reflexivity|].
      split; [lia|]. split; [lia|]. unfold truncateString.
      destruct (Z.leb_spec (len s) maxLen); [reflexivity|lia].
    + rewrite slice_in_range by lia. cbn [mbind option_bind].
      rewrite Z.sub_0_r. change (Z.to_nat 0) with 0%nat. cbn [drop].
      set (t := take (Z.to_nat maxLen) s).
      assert (Hlt : len t = maxLen).
      { unfold len, t in *. rewrite length_take. lia. }
      assert (Hlen : len (t ++ str "...") = maxLen + 3).
      { unfold len in *. rewrite length_app.
        cbn [length str list_ascii_of_string]. lia. }
      exists (t ++ str "..."). split; [reflexivity|]. split; [lia|].
      split; [auto|]. split; [lia|]. unfold truncateString.
      destruct (Z.leb_spec (len (t ++ str "...")) maxLen); [lia|].
      rewrite slice_in_range by lia. cbn [mbind option_bind].
      rewrite Z.sub_0_r. change (Z.to_nat 0) with 0%nat. rewrite drop_0.
      rewrite take_app_le by (unfold len in Hlt; lia).
      rewrite take_ge by (unfold len in Hlt; lia). reflexivity.
  - intros Hneg. unfold truncateString.
    destruct (Z.leb_spec (len s) maxLen) as [Hle|Hgt];
      [unfold len in Hle; lia|].
    unfold slice.
    destruct (Z.leb_spec 0 maxLen); [lia|]. reflexivity.
Qed.

End TruncateFacts.

(** ** What the repairs remove *)

Section CleanFacts.
Context `{Float64} `{!Strconv} `{!EncodingJSON}.
Variable P : ascii -> Prop.

Lemma Forall_drop_P (k : nat) (s : gostring) : Forall P s -> Forall P (drop k s).
Proof. apply Forall_drop. Qed.

(** What the matcher leaves and what it captures is text of the input. *)
Lemma rmatch_within {A} (r : re) :
  forall (s : gostring) (g : option gostring)
         (k : gostring -> option gostring -> option A) (x : A),
    Forall P s -> Forall P (default [] g) ->
    rmatch r s g k = Some x ->
    exists rest g',
      Forall P rest /\ Forall P (default [] g') /\ k rest g' = Some x.
Proof.
  induction r as [l|p|p|p|r1 IH1|r1 IH1|r1 IH1 r2 IH2|];
    intros s g k x Hs Hg E; cbn [rmatch] in E.
  - destruct (Strings.HasPrefix s l); [|discriminate].
    exists (drop (length l) s), g. auto using Forall_drop_P.
  - destruct s as [|c t]; [discriminate|].
    destruct (p c); [|discriminate].
    exists t, g. apply Forall_cons in Hs as [_ Ht]. auto.
  - apply star_k_sound in E as (m & rest & -> & _ & Hk).
    exists rest, g. apply Forall_app in Hs as [_ Hr]. auto.
  - destruct s as [|c t]; [discriminate|].
    destruct (p c); [|discriminate].
    apply star_k_sound in E as (m & rest & -> & _ & Hk).
    exists rest, g. apply Forall_cons in Hs as [_ Hs].
    apply Forall_app in Hs as [_ Hr]. auto.
  - destruct (rmatch r1 s g k) as [y|] eqn:E1.
    + injection E as <-. exact (IH1 _ _ _ _ Hs Hg E1).
    + exists s, g. auto.
  - apply (IH1 _ _ _ _ Hs Hg) in E as (rest & g' & Hr & _ & Hk).
    exists rest, (Some (take (length s - length rest) s)).
    split; [exact Hr|]. split; [|exact Hk]. cbn. apply Forall_take, Hs.
  - apply (IH1 _ _ _ _ Hs Hg) in E as (rest1 & g1 & Hr1 & Hg1 & E).
    exact (IH2 _ _ _ _ Hr1 Hg1 E).
  - destruct s; [|discriminate]. exists [], g. auto.
Qed.

Lemma match_here_within (r : re) (s m g : gostring) :
  Forall P s -> match_here r s = Some (m, g) -> Forall P g.
Proof.
  intros Hs E. unfold match_here in E.
  apply rmatch_within in E as (rest & g' & _ & Hg & E); [|exact Hs|constructor].
  injection E as _ <-. exact Hg.
Qed.

Lemma expand_within (tm : list titem) (g : gostring) :
  Forall P (literals tm) -> Forall P g -> Forall P (expand tm g).
Proof.
  intros Ht Hg. unfold expand, literals in *.
  induction tm as [|[l|] tm IH]; cbn in *.
  - constructor.
  - apply Forall_app in Ht as [Hl Ht]. apply Forall_app. auto.
  - apply Forall_app. auto.
Qed.

Lemma replace_all_within (r : re) (tm : list titem) (s : gostring) :
  Forall P (literals tm) -> Forall P s ->
  forall k, Forall P (replace_all r tm k s).
Proof.
  intros Ht. induction s as [|c t IH]; intros Hs k; cbn [replace_all].
  - constructor.
  - pose proof Hs as Hs'. apply Forall_cons in Hs' as [Hc Ht'].
    destruct k as [|k]; [|apply IH, Ht'].
    destruct (match_here r (c :: t)) as [[m g]|] eqn:E.
    + apply Forall_app. split; [|apply IH, Ht'].
      apply expand_within; [exact Ht|]. exact (match_here_within _ _ _ _ Hs E).
    + constructor; [exact Hc|apply IH, Ht'].
Qed.

Lemma replace_go_within (old new s : gostring) :
  Forall P new -> Forall P s -> forall k, Forall P (Strings.replace_go old new k s).
Proof.
  intros Hn. induction s as [|c t IH]; intros Hs k; cbn [Strings.replace_go].
  - constructor.
  - apply Forall_cons in Hs as [Hc Ht].
    destruct k as [|k]; [|apply IH, Ht].
    destruct (Strings.HasPrefix (c :: t) old).
    + apply Forall_app. split; [exact Hn|apply IH, Ht].
    + constructor; [exact Hc|apply IH, Ht].
Qed.

End CleanFacts.

Section RepairFacts.
Context `{Float64} `{!Strconv} `{!EncodingJSON}.

(** Every backtick is an instance of the one-byte text that is replaced. *)
Lemma backticks_removed (s : gostring) :
  Forall (fun c => c <> backtick) (Strings.replace_go (str "`") [] 0 s).
Proof.
  induction s as [|c t IH]; cbn [Strings.replace_go]; [constructor|].
  destruct (Strings.HasPrefix (c :: t) (str "`")) eqn:E.
  - exact IH.
  - constructor; [|exact IH]. intros ->. cbn in E.
    destruct t; discriminate.
Qed.

(** Every control character is a match of the one-byte class. *)
Lemma controls_removed (s : gostring) :
  Forall (fun c => control c = false) (replace_all controlPattern [] 0 s).
Proof.
  induction s as [|c t IH]; cbn [replace_all]; [constructor|].
  unfold match_here, controlPattern. cbn [rmatch].
  destruct (control c) eqn:E.
  - cbn [length expand map concat app].
    replace (S (length t) - length t)%nat with 1%nat by lia.
    exact IH.
  - constructor; [exact E|exact IH].
Qed.

(** X27. After the repairs of preprocessModelResponse the text holds no
    backtick and no control character, so no tab, line feed or carriage
    return either, inside a string or outside: the later replacements bring
    none back. *)
Theorem repair_leaves_plain_text (jsonPart : gostring) :
  Forall plain (repair jsonPart).
Proof.
  unfold repair, Strings.ReplaceAll, ReplaceAllString.
  set (s1 := Strings.replace_go (str "`") [] 0 jsonPart).
  assert (Hs1 : Forall (fun c => c <> backtick) s1) by apply backticks_removed.
  set (s5 := Strings.replace_go _ _ 0 (replace_all bareEndPattern _ 0 _)).
  assert (Hs5 : Forall (fun c => c <> backtick) s5).
  { apply replace_go_within; [repeat constructor; discriminate|].
    do 3 (apply replace_all_within;
          [cbn; repeat constructor; discriminate|]).
    exact Hs1. }
  set (s6 := replace_all controlPattern [] 0 s5).
  assert (Hs6 : Forall plain s6).
  { apply Forall_and. split.
    - apply replace_all_within; [constructor|exact Hs5].
    - apply controls_removed. }
  do 2 (apply replace_all_within;
        [cbn; repeat constructor; (discriminate || reflexivity)|]).
  exact Hs6.
Qed.

End RepairFacts.

(** ** The reference engine *)

Section EngineFacts.
Context `{Float64}.
Import Engine.

Lemma insert_desc_permutation (r : Row) (rows : list Row) :
  insert_desc r rows ≡ₚ r :: rows.
Proof.
  induction rows as [|x rest IH]; cbn [insert_desc]; [reflexivity|].
  destruct (created_at x <? created_at r); [reflexivity|].
  rewrite IH. apply Permutation_swap.
Qed.

Lemma sort_desc_permutation (rows : list Row) : sort_desc rows ≡ₚ rows.
Proof.
  induction rows as [|x rest IH]; [reflexivity|].
  cbn [sort_desc foldr]. rewrite insert_desc_permutation.
  constructor. exact IH.
Qed.

Lemma insert_desc_descending (r : Row) (rows : list Row) :
  StronglySorted (fun a b => created_at b <= created_at a) rows ->
  StronglySorted (fun a b => created_at b <= created_at a)
    (insert_desc r rows).
Proof.
  induction rows as [|x rest IH]; intros Hs; cbn [insert_desc].
  - repeat constructor.
  - apply StronglySorted_inv in Hs as [Hrest Hx].
    destruct (Z.ltb_spec (created_at x) (created_at r)) as [Hlt|Hge].
    + constructor; [constructor; assumption|].
      constructor; [lia|].
      eapply Forall_impl; [exact Hx|]. cbn. intros; lia.
    + constructor; [apply IH, Hrest|].
      rewrite insert_desc_permutation. constructor; [lia|exact Hx].
Qed.

Lemma sort_desc_descending (rows : list Row) :
  StronglySorted (fun a b => created_at b <= created_at a) (sort_desc rows).
Proof.
  induction rows as [|x rest IH]; [constructor|].
  cbn [sort_desc foldr]. apply insert_desc_descending, IH.
Qed.

End EngineFacts.


(* ===================================================================== *)
(** * The program on concrete inputs *)
(* ===================================================================== *)

Module Examples.
Import Reference Inputs.

(** ** Responses *)

Example tierA_one_movie :
  result_of (extractContentManually one_movie) = Some [movie_1].
Proof. vm_compute. reflexivity. Qed.

Example tierA_drops_korean :
  result_of (extractContentManually only_korean) = Some [].
Proof. vm_compute. reflexivity. Qed.

Example korean_is_case_sensitive :
  result_of (extractContentManually
               (jstr "{'title':'K','category':'korean','type':'series'}"))
  = Some [ {| Title := str "K"; Year := None; Category := str "korean";
              ExtraInfo := []; Type_ := str "series"; Rating := None;
              SourceURL := None |} ].
Proof. vm_compute. reflexivity. Qed.

Example fenced_trailing_comma :
  result_of (openaiContents
               (jstr "```json [{'title':'X','category':'Foreign','type':'series',}] ```"))
  = Some [ {| Title := str "X"; Year := None; Category := str "Foreign";
              ExtraInfo := []; Type_ := str "series"; Rating := None;
              SourceURL := None |} ].
Proof. vm_compute. reflexivity. Qed.

Example no_json_is_empty :
  result_of (geminiContents no_json) = Some [].
Proof. vm_compute. reflexivity. Qed.

(** C1.  The exclusion does not hold on the code: Tier A drops the Korean
    record, finds nothing else, and hands the response to Tier B, which
    parses it and returns the record unchecked.  The same response from
    OpenAI, which never goes through Tier A, gives the same record.  A
    response that only parses fragment by fragment leaves Tier C the same
    way: the fragment is re-encoded and decoded with no look at its
    category. *)
Theorem korean_survives_fallback :
  result_of (extractContentManually only_korean) = Some []
  /\ result_of (preprocessModelResponse only_korean) = Some only_korean
  /\ result_of (geminiContents only_korean) = Some [parasite]
  /\ result_of (openaiContents only_korean) = Some [parasite]
  /\ Category parasite = str "Korean"
  /\ result_of (extractContentManually korean_and_broken) = Some []
  /\ parses korean_and_broken = false
  /\ result_of (preprocessModelResponse korean_and_broken)
     = Some (jstr "[{'category':'Korean','title':'Parasite','type':'movie'}]")
  /\ result_of (geminiContents korean_and_broken) = Some [parasite_fragment]
  /\ result_of (openaiContents korean_and_broken) = Some [parasite_fragment]
  /\ Category parasite_fragment = str "Korean".
Proof.
  repeat split; vm_compute; reflexivity.
Qed.

(** C4: the validator on a block with an unparsable year. *)
Lemma extractObject_validates_witness :
  extractObject (jstr "{'title':'T','year':99999999999999999999,'category':'Anime','type':'series'}")
  = Some {| Title := str "T"; Year := None; Category := str "Anime";
            ExtraInfo := []; Type_ := str "series"; Rating := None;
            SourceURL := None |}
  /\ Title {| Title := str "T"; Year := None; Category := str "Anime";
              ExtraInfo := []; Type_ := str "series"; Rating := None;
              SourceURL := None |} <> [].
Proof.
  assert (E : extractObject (jstr "{'title':'T','year':99999999999999999999,'category':'Anime','type':'series'}")
              = Some {| Title := str "T"; Year := None; Category := str "Anime";
                        ExtraInfo := []; Type_ := str "series"; Rating := None;
                        SourceURL := None |})
    by (vm_compute; reflexivity).
  split; [exact E|].
  exact (proj1 (proj2 (extractObject_validates _) _ E)).
Defined.

(** C5.  The third repair does not do what the specification says, nor
    what the comment above it in the program says (fix missing quotes
    around string values).  A response that is valid JSON of one record,
    written with a space after each colon, is left alone by Tier B of the
    specification and decodes to its record; the program wraps its quoted
    values in a second pair of quotes, no later step undoes that, and the
    tier returns the empty array: the record is lost.  The other way
    round, a bare scalar before a closing brace is at the end of a value
    position and the specification quotes it; the program only looks for
    a comma or the end of the text, leaves it bare, and loses the record
    as well. *)
Theorem tierB_quotes_what_is_quoted :
  Unmarshal_contents spaced_values = Some [movie_a]
  /\ apply_in_order repair_sequence_spec spaced_values = spaced_values
  /\ tierB_spec spaced_values = Some spaced_values
  /\ repair spaced_values
     = jstr "[{'title':' 'A'', 'category':' 'Action'', 'type': 'movie'}]"
  /\ parses (repair spaced_values) = false
  /\ result_of (preprocessModelResponse spaced_values) = Some (str "[]")
  /\ result_of (openaiContents spaced_values) = Some []
  /\ apply_in_order repair_sequence_spec bare_before_brace
     = jstr "[{'title':'T','category':'Anime','type':'movie'}]"
  /\ (tierB_spec bare_before_brace ≫= Unmarshal_contents) = Some [movie_t]
  /\ repair bare_before_brace = bare_before_brace
  /\ result_of (openaiContents bare_before_brace) = Some [].
Proof. repeat split; vm_compute; reflexivity. Qed.

(** With an opening bracket and no closing one, the object is not
    wrapped: there the program keeps to its own guard, and section 4.2 of
    the specification says more than the program does. *)
Example tierB_object_not_wrapped :
  Strings.Index (strip_fences bracket_in_title) (str "[") = 12
  /\ enclosed "[" "]" (strip_fences bracket_in_title) = None
  /\ enclosed "{" "}" (strip_fences bracket_in_title) = Some bracket_in_title
  /\ tierB_spec bracket_in_title
     = Some (str "[" ++ bracket_in_title ++ str "]")
  /\ result_of (preprocessModelResponse bracket_in_title) = Some (str "[]")
  /\ result_of (preprocessModelResponse bracket_in_title)
     <> tierB_spec bracket_in_title.
Proof. vm_compute. repeat split; try reflexivity. discriminate. Qed.

(** C6 *)
Lemma tierA_short_circuit_witness :
  omap extractObject (FindAllString objectPattern one_movie) <> []
  /\ geminiContents one_movie = extractContentManually one_movie.
Proof.
  split.
  - vm_compute. discriminate.
  - apply (tierA_short_circuit one_movie). vm_compute. discriminate.
Defined.

(** C9 *)
Lemma pipeline_degrades_gracefully_witness :
  Unmarshal_contents (str "[]") = Some []
  /\ exists contents evs, geminiContents no_json = Some (contents, evs).
Proof.
  split.
  - vm_compute. reflexivity.
  - apply (pipeline_degrades_gracefully no_json). vm_compute. reflexivity.
Defined.

(** ** Runs *)

(** C2: a run cancelled at its second source has saved a record, mails
    are enabled, and yet the run ends without the summary line and
    without a call of the notifier: Run returns the context's error. *)
Lemma cancelled_run_not_finalized :
  match Run cancelled_at_second two_sources empty_sys with
  | Some (s', r) =>
      r = Some deadline
      /\ table s' = [movie_1_row source_a 100]
      /\ trace s'
         = [Printf "Running content scraper job with %d sources" [AInt 2];
            Printf "Scraping content from %s" [AStr source_a];
            Printf "Found %d potential content objects in response" [AInt 1];
            Printf "Manually extracted %d valid content items" [AInt 1];
            Printf "Extracted %d content items from %s" [AInt 1; AStr source_a];
            Printf "Scraping content from %s" [AStr source_b]]
      /\ Forall (fun ev => ~ final_event ev) (trace s')
  | None => False
  end.
Proof.
  vm_compute. repeat split.
  repeat constructor; intros [(?&?&?)|(?&?&?)]; discriminate.
Qed.

Lemma run_cancelled_witness :
  exists s1 l1,
    process_sources cancelled_at_second 0 [source_a] empty_sys no_locals
    = Some (s1, l1)
    /\ run_loop cancelled_at_second two_sources 0 ([source_a] ++ [source_b])
         empty_sys no_locals
       = Some (logged [scraping_line source_b] s1, Some deadline).
Proof.
  destruct (run_cancelled cancelled_at_second two_sources [source_a]
              source_b [] 0 empty_sys no_locals deadline)
    as (s1 & l1 & E1 & E2 & _).
  - intros k Hk. destruct k; [reflexivity|cbn in Hk; lia].
  - reflexivity.
  - exists s1, l1. split; [exact E1|exact E2].
Defined.

(** C8 *)
Lemma run_skips_failures_witness :
  (forall k, ctx_Err flaky k = None)
  /\ save_fails flaky 1 0 = true
  /\ exists s',
       Run flaky three_sources empty_sys = Some (s', None)
       /\ table s'
          = [ {| title := str "Show 2"; year := None;
                 category := str "Anime"; extra_info := str "Complete";
                 type := str "series"; rating := None;
                 source_url := Some source_c;
                 scraped_at := 111; created_at := 111; updated_at := 121 |};
              {| title := str "Movie 1"; year := Some 2023;
                 category := str "Hollywood"; extra_info := str "Action";
                 type := str "movie"; rating := None;
                 source_url := Some source_c;
                 scraped_at := 120; created_at := 120; updated_at := 120 |} ]
       /\ In (summary_line 3 3) (trace s')
       /\ In (NotifyContentUpdate
                [show_2 source_b; movie_1_from source_c; show_2 source_c]
                [source_a; source_b; source_c]) (trace s').
Proof.
  split; [reflexivity|]. split; [reflexivity|].
  destruct (proj2 (proj2 (proj2 (proj2
              (run_skips_failures flaky three_sources empty_sys))))
              (fun _ => eq_refl))
    as (s' & E & Etm & Hsum & Hmail & _).
  assert (Eout : run_outcome flaky (effective_sources three_sources)
                   (table empty_sys) (modelMgr empty_sys)
                 = ([ {| title := str "Show 2"; year := None;
                         category := str "Anime";
                         extra_info := str "Complete";
                         type := str "series"; rating := None;
                         source_url := Some source_c;
                         scraped_at := 111; created_at := 111;
                         updated_at := 121 |};
                      {| title := str "Movie 1"; year := Some 2023;
                         category := str "Hollywood";
                         extra_info := str "Action";
                         type := str "movie"; rating := None;
                         source_url := Some source_c;
                         scraped_at := 120; created_at := 120;
                         updated_at := 120 |} ],
                    (run_outcome flaky (effective_sources three_sources)
                       (table empty_sys) (modelMgr empty_sys)).1.2,
                    [show_2 source_b; movie_1_from source_c;
                     show_2 source_c]))
    by (vm_compute; reflexivity).
  rewrite Eout in Etm, Hsum, Hmail. cbn [fst snd] in Etm, Hsum, Hmail.
  exists s'. split; [exact E|].
  split; [congruence|]. split; [exact Hsum|].
  apply Hmail; [reflexivity|reflexivity|discriminate].
Defined.

Example fetch_failure_skips_the_source :
  match Run first_fetch_fails two_sources empty_sys with
  | Some (s', r) => r = None /\ table s' = [movie_1_row source_b 101]
  | None => False
  end.
Proof. vm_compute. split; reflexivity. Qed.

(** ** Providers *)

(** C3: GenerateWithBestModel hands the failure of its providers to the
    caller as an error; and it accepts the first provider whose call
    succeeds, whether or not the text normalizes to a record. *)
Lemma best_model_error_escalates :
  (GenerateWithBestModel (fun _ _ _ => Err (str "quota exceeded"))
     NewModelManager (str "prompt") [gemini_flash]).2
  = Err (str "all models failed, last error: quota exceeded")
  /\ (GenerateWithBestModel (fun _ _ _ => Ok no_json)
        NewModelManager (str "prompt") [gemini_flash; gemini_flash]).2
     = Ok (no_json, str "gemini:gemini-1.5-flash")
  /\ result_of (geminiContents no_json) = Some [].
Proof. vm_compute. repeat split; reflexivity. Qed.

(** C3: the call of Gemini fails and OpenAI answers: the records are
    those of OpenAI, and no error reaches the caller.  In the manager,
    GenerateWithBestModel goes past the configuration whose call fails. *)
Lemma providers_fallback_witness :
  let mgr1 :=
    (CreateModel NewModelManager ModelTypeGemini
       (geminiConfig gemini_down 0)).1 in
  let mgr2 :=
    (CreateModel mgr1 ModelTypeOpenAI (openaiConfig gemini_down 0)).1 in
  result_of (tryGemini gemini_down 0 NewModelManager
               (buildContentExtractionPrompt ++ str "page"))
  = Some (mgr1, [])
  /\ result_of (extractWithProviders gemini_down 0 NewModelManager
                  (str "page"))
     = Some (mgr2, [movie_1])
  /\ (GenerateWithBestModel (fun k => GenerateText gemini_down k)
        NewModelManager (str "prompt") ([gemini_flash] ++ [gpt_4o])).2
     = Ok (one_movie, str "openai:gpt-4o").
Proof.
  intros mgr1 mgr2.
  pose proof (providers_fallback gemini_down 0 NewModelManager (str "page"))
    as Hp. cbv zeta in Hp.
  destruct Hp as (_ & _ & _ & _ & _ & Hopenai & _ & Hfails & _ & _ & Hpast & _).
  assert (Hg : result_of (tryGemini gemini_down 0 NewModelManager
                            (buildContentExtractionPrompt ++ str "page"))
               = Some (mgr1, [])).
  { apply (Hfails mgr1 (GeminiModel (str "gkey") (str "gemini-1.5-flash") 30)).
    - discriminate.
    - reflexivity.
    - left. eexists. reflexivity. }
  split; [exact Hg|]. split.
  - apply (Hopenai mgr1 mgr2
             (OpenAIModel (str "okey") (str "https://api.openai.com/v1")
                (str "gpt-4o") 30) one_movie [movie_1] Hg).
    + discriminate.
    + reflexivity.
    + reflexivity.
    + vm_compute. reflexivity.
  - erewrite (Hpast (fun k => GenerateText gemini_down k) NewModelManager _
                (str "prompt") [gemini_flash] gpt_4o []
                (OpenAIModel (str "key") (str "https://api.openai.com/v1")
                   (str "gpt-4o") 30) one_movie).
    + reflexivity.
    + intros k config model Hk _ Hm.
      destruct k as [|k]; [|destruct k; discriminate].
      injection Hk as <-. vm_compute in Hm. injection Hm as <-.
      eexists. reflexivity.
    + vm_compute. discriminate.
    + vm_compute. reflexivity.
    + reflexivity.
Defined.

(** ** The upsert *)

(** C7: scenario 5 of the specification. *)
Lemma SaveContent_upsert_witness :
  (SaveContent 20 NoFault z_2021 (SaveContent 10 NoFault z_2020 []).1).1
  = [ {| title := str "Z"; year := Some 2021; category := str "Hollywood";
         extra_info := []; type := str "movie"; rating := None;
         source_url := Some source_b;
         scraped_at := 10; created_at := 10; updated_at := 20 |} ].
Proof.
  apply (proj2 (proj2 (SaveContent_upsert 10 20 z_2020 z_2021 [])));
    reflexivity.
Defined.

(** ** The scheduler *)

(** What main does in scheduler mode: the call fails, with the job
    registered for 10:00 only. *)
Example content_scraper_scheduled_once :
  AddMorningEveningJob NewScheduler two_sources
  = ({| cron := [(morning, two_sources)];
        jobs := <[str "content_scraper" := two_sources]> ∅;
        isRunning := false |},
     Some (str "job content_scraper already registered")).
Proof. reflexivity. Qed.

End Examples.

(** ** The queries, the scheduler, the manager and the notifier *)

Module MoreExamples.
Import Reference Inputs Notifier MoreInputs.

#[export] Instance insertion_engine : OrderBy :=
  {| order_by_created_at_desc := Engine.sort_desc;
     order_by_permutation := sort_desc_permutation;
     order_by_descending := sort_desc_descending |}.

Lemma saved_table_keys_unique_witness :
  NoDup (map key_of (SaveContent 100 NoFault z_2020 []).1)
  /\ Forall (fun r => scraped_at r = created_at r)
       (SaveContent 100 NoFault z_2020 []).1
  /\ forall c,
       (length (List.filter (same_key c) (SaveContent 100 NoFault z_2020 []).1)
        <= 1)%nat.
Proof.
  apply (saved_table_keys_unique (SaveContent 100 NoFault z_2020 []).1).
  apply saved_more, saved_empty.
Defined.

Lemma SaveContent_then_GetAllContent_witness :
  exists tbl' before after,
    SaveContent 200 NoFault z_2021 [movie_1_row source_a 100]
    = (tbl', None)
    /\ GetAllContent None [movie_1_row source_a 100] = Ok before
    /\ GetAllContent None tbl' = Ok after
    /\ length after = length tbl'
    /\ List.filter (has_key z_2021) after = [z_2021]
    /\ List.filter (fun c' => negb (has_key z_2021 c')) after
       ≡ₚ List.filter (fun c' => negb (has_key z_2021 c')) before.
Proof.
  apply (SaveContent_then_GetAllContent 200 z_2021 [movie_1_row source_a 100]).
  apply (saved_more 100 NoFault
           {| Title := str "Movie 1"; Year := Some 2023;
              Category := str "Hollywood"; ExtraInfo := str "Action";
              Type_ := str "movie"; Rating := None;
              SourceURL := Some source_a |} []).
  apply saved_empty.
Defined.

Lemma SaveContent_moves_stats_witness :
  exists stats',
    GetStats (fun _ => None)
      (SaveContent 200 NoFault z_2021 [movie_1_row source_a 100]).1
    = Ok stats'
    /\ stats' !!! str "total" = 2
    /\ stats' !!! str "movies" = 2
    /\ stats' !!! str "series" = 0.
Proof.
  destruct (SaveContent_moves_stats 200 NoFault z_2021
              [movie_1_row source_a 100] (fun _ => None)
              (<[str "series" := 0]>
                 (<[str "movies" := 1]> (<[str "total" := 1]> ∅))))
    as (stats' & E & _ & _ & Hnew).
  - reflexivity.
  - exists stats'. split; [exact E|].
    destruct Hnew as (Ht & Hm & Hs); [reflexivity|reflexivity|].
    rewrite Ht, Hm, Hs. repeat split; vm_compute; reflexivity.
Defined.

Lemma newest_is_first_witness :
  exists rest,
    GetAllContent None
      (SaveContent 200 NoFault z_2021 [movie_1_row source_a 100]).1
    = Ok (z_2021 :: rest)
    /\ rest ≡ₚ map scan [movie_1_row source_a 100].
Proof.
  apply (newest_is_first 200 z_2021 [movie_1_row source_a 100]).
  - reflexivity.
  - repeat constructor.
Defined.

Lemma Run_keeps_rows_witness :
  exists s',
    Run first_fetch_fails two_sources
      {| table := [movie_1_row source_a 50]; modelMgr := NewModelManager;
         trace := [] |}
    = Some (s', None)
    /\ persists [movie_1_row source_a 50] (table s')
    /\ (1 <= length (table s'))%nat.
Proof.
  set (s := {| table := [movie_1_row source_a 50];
               modelMgr := NewModelManager; trace := [] |}).
  destruct (Run first_fetch_fails two_sources s) as [[s' r]|] eqn:E;
    [|vm_compute in E; discriminate].
  assert (Hr : r = None).
  { assert (Hc : snd <$> Run first_fetch_fails two_sources s = Some None)
      by (vm_compute; reflexivity).
    rewrite E in Hc. cbn in Hc. congruence. }
  subst r. exists s'. split; [reflexivity|].
  exact (Run_keeps_rows first_fetch_fails two_sources s s' None E).
Defined.

Lemma Run_reports_what_it_saved_witness :
  exists s' saved,
    Run first_fetch_fails two_sources empty_sys = Some (s', None)
    /\ In (summary_line (len_of saved) 2) (trace s')
    /\ Forall (fun c => stamped (effective_sources two_sources) c
                        /\ stored (table s') c) saved.
Proof.
  destruct (Run first_fetch_fails two_sources empty_sys) as [[s' r]|] eqn:E;
    [|vm_compute in E; discriminate].
  assert (Hr : r = None).
  { assert (Hc : snd <$> Run first_fetch_fails two_sources empty_sys
                 = Some None) by (vm_compute; reflexivity).
    rewrite E in Hc. cbn in Hc. congruence. }
  subst r.
  destruct (Run_reports_what_it_saved first_fetch_fails two_sources
              empty_sys s' E) as (saved & Hline & Hall & _).
  exists s', saved. split; [reflexivity|]. split; [exact Hline|exact Hall].
Defined.

Lemma Run_without_keys_witness :
  exists s',
    Run keyless two_sources empty_sys = Some (s', None)
    /\ table s' = [] /\ modelMgr s' = NewModelManager
    /\ In (summary_line 0 2) (trace s').
Proof.
  destruct (Run keyless two_sources empty_sys) as [[s' r]|] eqn:E;
    [|vm_compute in E; discriminate].
  assert (Hr : r = None).
  { assert (Hc : snd <$> Run keyless two_sources empty_sys = Some None)
      by (vm_compute; reflexivity).
    rewrite E in Hc. cbn in Hc. congruence. }
  subst r.
  destruct (Run_without_keys keyless two_sources empty_sys s' None)
    as (Ht & Hm & Hline & _).
  - intros i. split; reflexivity.
  - exact E.
  - exists s'. split; [reflexivity|]. split; [exact Ht|].
    split; [exact Hm|]. apply Hline. reflexivity.
Defined.

Lemma AddJob_then_RunJobNow_witness :
  RunJobNow (Run first_fetch_fails)
    (AddJob NewScheduler morning two_sources).1 (str "content_scraper")
    empty_sys
  = ([Logged "Manually running job: %s" [AStr (str "content_scraper")]],
     Run first_fetch_fails two_sources empty_sys)
  /\ RunJobNow (Run first_fetch_fails)
       (AddJob NewScheduler morning two_sources).1 (str "cleanup") empty_sys
     = ([], Some (empty_sys, Some (str "job cleanup not registered"))).
Proof.
  destruct (AddJob_then_RunJobNow (Run first_fetch_fails) NewScheduler
              (AddJob NewScheduler morning two_sources).1 morning
              two_sources empty_sys) as (Hrun & Hother & Hnew).
  - reflexivity.
  - split; [exact Hrun|].
    rewrite (Hother (str "cleanup")) by discriminate.
    exact (Hnew (str "cleanup")).
Defined.

Lemma CreateModel_then_GetModel_witness :
  GetModel (CreateModel NewModelManager ModelTypeGemini gemini_flash).1
    ModelTypeGemini (str "gemini-1.5-flash")
  = Some (GeminiModel (str "key") (str "gemini-1.5-flash") 30)
  /\ GetOrCreateModel
       (CreateModel NewModelManager ModelTypeGemini gemini_flash).1
       ModelTypeGemini
       {| APIKey := []; BaseURL := []; ModelName := str "gemini-1.5-flash";
          Timeout := 0; MaxRetries := 0 |}
     = ((CreateModel NewModelManager ModelTypeGemini gemini_flash).1,
        Ok (GeminiModel (str "key") (str "gemini-1.5-flash") 30)).
Proof.
  destruct (CreateModel_then_GetModel NewModelManager
              (CreateModel NewModelManager ModelTypeGemini gemini_flash).1
              ModelTypeGemini gemini_flash
              (GeminiModel (str "key") (str "gemini-1.5-flash") 30))
    as (Hget & Hcache & _).
  - reflexivity.
  - split; [exact Hget|]. apply Hcache. reflexivity.
Defined.

Lemma supported_models_are_routed_witness :
  detectModelType (str "gpt-4-turbo") = ModelTypeOpenAI
  /\ is_Some (factories NewModelManager
              !! detectModelType (str "gpt-4-turbo")).
Proof.
  apply (supported_models_are_routed ModelTypeOpenAI
           (GetSupportedModels OpenAIFactory) (str "gpt-4-turbo")).
  - intros s. induction s as [|c t IH]; [reflexivity|].
    cbn [forallb]. intros Hs. apply andb_true_iff in Hs as [Hc Ht].
    cbn [ToLower unicode map]. f_equal; [|apply IH, Ht].
    unfold ascii_no_capital, capital in Hc. unfold lower.
    apply andb_true_iff in Hc as [_ Hc].
    destruct ((65 <=? nat_of_ascii c)%nat && (nat_of_ascii c <=? 90)%nat);
      [discriminate|reflexivity].
  - vm_compute. reflexivity.
  - right. left. reflexivity.
Defined.

Lemma password_is_masked_witness :
  exists config config' evs,
    GetEmailConfigFromEnv (mail_world "abcd1111wxyz") = Some (config, evs)
    /\ GetEmailConfigFromEnv (mail_world "abcd2222wxyz")
       = Some (config', evs)
    /\ SenderPassword config = str "abcd1111wxyz"
    /\ SenderPassword config' = str "abcd2222wxyz".
Proof.
  apply (password_is_masked (mail_world "abcd1111wxyz")
           (mail_world "abcd2222wxyz")).
  - intros name Hn. cbn. unfold mail_env.
    destruct (String.eqb_spec name "EMAIL_SMTP_HOST"); [reflexivity|].
    destruct (String.eqb_spec name "EMAIL_SENDER"); [reflexivity|].
    destruct (String.eqb_spec name "EMAIL_RECIPIENT"); [reflexivity|].
    destruct (String.eqb_spec name "EMAIL_PASSWORD"); [contradiction|].
    reflexivity.
  - reflexivity.
  - right. right. vm_compute. repeat split; reflexivity.
Defined.

Lemma end_anchored_repair_is_idle_witness :
  slice array_in_prose 14 42
  = Some (jstr "[{'title':'T','type':movie}]")
  /\ ReplaceAllString bareEndPattern
       (ReplaceAllString bareCommaPattern
          (ReplaceAllString spaceColonPattern
             (Strings.ReplaceAll (jstr "[{'title':'T','type':movie}]")
                (str "`") [])
             [T [dq]; G1; T (jstr "':")])
          [T (jstr ":'"); G1; T (jstr "',")])
       [T (jstr ":'"); G1; T [dq]]
     = ReplaceAllString bareCommaPattern
         (ReplaceAllString spaceColonPattern
            (Strings.ReplaceAll (jstr "[{'title':'T','type':movie}]")
               (str "`") [])
            [T [dq]; G1; T (jstr "':")])
         [T (jstr ":'"); G1; T (jstr "',")].
Proof.
  split; [vm_compute; reflexivity|].
  apply (end_anchored_repair_is_idle array_in_prose
           (jstr "[{'title':'T','type':movie}]")).
  - vm_compute. discriminate.
  - vm_compute. discriminate.
  - vm_compute. reflexivity.
  - vm_compute. reflexivity.
Defined.

Lemma truncateString_bounds_witness :
  truncateString (str "Hollywood") 5 = Some (str "Holly...")
  /\ truncateString (str "Holly...") 5 = Some (str "Holly...")
  /\ truncateString (str "Hollywood") (-1) = None.
Proof.
  destruct (truncateString_bounds (str "Hollywood") 5) as [Hok _].
  destruct Hok as (t & E & _ & Hlong & _ & Hidem); [lia|].
  destruct Hlong as [-> _]; [vm_compute; reflexivity|].
  split; [exact E|]. split; [exact Hidem|].
  vm_compute. reflexivity.
Defined.

End MoreExamples.
